(** * sync-settings: the reconciliation / diff engine and the batch executor

    A shallow embedding of [lib/sync-settings.js].  JavaScript objects are
    association lists in insertion order (the order [for ... in] and
    [Object.keys] follow for keys that are not array indices), with unique
    keys; JSON numbers are integers; [undefined] is a value of its own since
    the structural diff stores it in its [deleted] bucket. *)

From Stdlib Require Import List String Ascii ZArith Lia Bool Arith.
From Stdlib Require Import Permutation Sorted DecimalString DecimalNat.
From Stdlib Require Import OrderedTypeEx.
Import ListNotations.
Local Open Scope string_scope.

Set Warnings "-register-all".


(** ** JavaScript values *)

Inductive json : Type :=
| JUndef
| JNull
| JBool (b : bool)
| JNum (n : Z)
| JStr (s : string)
| JArr (items : list json)
| JObj (props : list (string * json)).

Definition props := list (string * json).

(** [x == null] *)
Definition is_nullish (v : json) : bool :=
  match v with JUndef | JNull => true | _ => false end.

(** [typeof x === 'object'] (true for [null], arrays and objects) *)
Definition typeof_object (v : json) : bool :=
  match v with JNull | JArr _ | JObj _ => true | _ => false end.

Definition isArray (v : json) : bool :=
  match v with JArr _ => true | _ => false end.

(** Truthiness, as tested by [if (x)], [x && y] and [!x]. *)
Definition truthy (v : json) : bool :=
  match v with
  | JUndef | JNull => false
  | JBool b => b
  | JNum n => negb (Z.eqb n 0)
  | JStr s => negb (String.eqb s "")
  | JArr _ | JObj _ => true
  end.

(** [lhs === rhs] on primitives.  On two objects or arrays [===] compares
    references, and the two sides of a diff do not share structure (one is
    cloned from the live config, the other parsed from the backup), so it is
    [false] there; on the very same object the diff functions below return
    the empty object, which is also what they compute on equal values. *)
Definition strict_eq (a b : json) : bool :=
  match a, b with
  | JUndef, JUndef => true
  | JNull, JNull => true
  | JBool x, JBool y => Bool.eqb x y
  | JNum x, JNum y => Z.eqb x y
  | JStr x, JStr y => String.eqb x y
  | _, _ => false
  end.

(** ** Own enumerable properties *)

Definition index_key (i : nat) : string :=
  NilEmpty.string_of_uint (Nat.to_uint i).

Fixpoint indexed (i : nat) (vs : list json) : props :=
  match vs with
  | [] => []
  | v :: vs' => (index_key i, v) :: indexed (S i) vs'
  end.

Fixpoint chars (s : string) : list json :=
  match s with
  | EmptyString => []
  | String c s' => JStr (String c EmptyString) :: chars s'
  end.

(** The pairs [for (k in v)] / [Object.entries(v)] run over. *)
Definition entries (v : json) : props :=
  match v with
  | JObj ps => ps
  | JArr vs => indexed 0 vs
  | JStr s => indexed 0 (chars s)
  | _ => []
  end.

Definition object_keys (v : json) : list string := map fst (entries v).

Fixpoint assoc {A : Type} (k : string) (ps : list (string * A)) : option A :=
  match ps with
  | [] => None
  | (k', v) :: ps' => if String.eqb k k' then Some v else assoc k ps'
  end.

(** [o.hasOwnProperty(k)] and [o[k]] for an object or an array. *)
Definition own_entries (v : json) : props :=
  match v with
  | JObj ps => ps
  | JArr vs => indexed 0 vs
  | _ => []
  end.

Definition hasOwn (v : json) (k : string) : bool :=
  match assoc k (own_entries v) with Some _ => true | None => false end.

Definition prop_get (v : json) (k : string) : json :=
  match assoc k (own_entries v) with Some x => x | None => JUndef end.

(** The names a plain object inherits from [Object.prototype].  Read
    through an object that has no own property of that name, each gives a
    function (for [__proto__], the prototype itself): a truthy value that
    has none of the properties this module asks for. *)
Definition inherited_names : list string :=
  ["constructor"; "__defineGetter__"; "__defineSetter__"; "hasOwnProperty";
   "__lookupGetter__"; "__lookupSetter__"; "isPrototypeOf";
   "propertyIsEnumerable"; "toString"; "valueOf"; "__proto__";
   "toLocaleString"].

Definition inherited (k : string) : bool :=
  existsb (String.eqb k) inherited_names.

(** [!!obj[k]] on a plain object: an own property, or else an inherited
    one. *)
Definition truthy_at (obj : json) (k : string) : bool :=
  match assoc k (own_entries obj) with
  | Some v => truthy v
  | None => inherited k
  end.

(** [obj[k] = v] on a plain object: overwrite in place or append. *)
Fixpoint assoc_set {A : Type} (k : string) (v : A) (ps : list (string * A))
  : list (string * A) :=
  match ps with
  | [] => [(k, v)]
  | (k', v') :: ps' =>
      if String.eqb k k' then (k, v) :: ps' else (k', v') :: assoc_set k v ps'
  end.

(** [delete obj[k]] *)
Fixpoint assoc_del {A : Type} (k : string) (ps : list (string * A))
  : list (string * A) :=
  match ps with
  | [] => []
  | (k', v') :: ps' =>
      if String.eqb k k' then assoc_del k ps' else (k', v') :: assoc_del k ps'
  end.

(** ** deep-object-diff (npm dependency, 1.1.0): [detailedDiff]

    The own properties of an array are its indices; there are no [Date]
    objects in a tree parsed from JSON. *)

Module DeepObjectDiff.

(** [isObject = o => o != null && typeof o === 'object'] *)
Definition isObject (v : json) : bool :=
  match v with JArr _ | JObj _ => true | _ => false end.

(** [isEmpty = o => Object.keys(o).length === 0] *)
Definition isEmpty (v : json) : bool :=
  match object_keys v with [] => true | _ => false end.

(** One key of the iterated side: its name, its value there, and the
    nested diff against whatever the other side holds under that key. *)
Definition item : Type := (string * json * (json -> json))%type.

(** The [reduce] of [addedDiff] over the keys of [rhs]. *)
Fixpoint added_reduce (lhs : json) (items : list item) : props :=
  match items with
  | [] => []
  | (k, rv, nested) :: rest =>
      if hasOwn lhs k then
        let difference := nested (prop_get lhs k) in
        if isObject difference && isEmpty difference
        then added_reduce lhs rest
        else (k, difference) :: added_reduce lhs rest
      else (k, rv) :: added_reduce lhs rest
  end.

(** The [reduce] of [deletedDiff] over the keys of [lhs]. *)
Fixpoint deleted_reduce (rhs : json) (items : list item) : props :=
  match items with
  | [] => []
  | (k, _, nested) :: rest =>
      if hasOwn rhs k then
        let difference := nested (prop_get rhs k) in
        if isObject difference && isEmpty difference
        then deleted_reduce rhs rest
        else (k, difference) :: deleted_reduce rhs rest
      else (k, JUndef) :: deleted_reduce rhs rest
  end.

(** The [reduce] of [updatedDiff] over the keys of [rhs]. *)
Fixpoint updated_reduce (lhs : json) (items : list item) : props :=
  match items with
  | [] => []
  | (k, _, nested) :: rest =>
      if hasOwn lhs k then
        let difference := nested (prop_get lhs k) in
        if isObject difference && isEmpty difference
        then updated_reduce lhs rest
        else (k, difference) :: updated_reduce lhs rest
      else updated_reduce lhs rest
  end.

Definition with_keys (ps : props) (fs : list (json -> json)) : list item :=
  combine ps fs.

Fixpoint addedDiff (lhs rhs : json) {struct rhs} : json :=
  if strict_eq lhs rhs || negb (isObject lhs) || negb (isObject rhs)
  then JObj []
  else
    JObj (added_reduce lhs
            (with_keys (own_entries rhs)
               match rhs with
               | JObj ps => map (fun p l => addedDiff l (snd p)) ps
               | JArr vs => map (fun rv l => addedDiff l rv) vs
               | _ => []
               end)).

Fixpoint deletedDiff (lhs rhs : json) {struct lhs} : json :=
  if strict_eq lhs rhs || negb (isObject lhs) || negb (isObject rhs)
  then JObj []
  else
    JObj (deleted_reduce rhs
            (with_keys (own_entries lhs)
               match lhs with
               | JObj ps => map (fun p r => deletedDiff (snd p) r) ps
               | JArr vs => map (fun lv r => deletedDiff lv r) vs
               | _ => []
               end)).

Fixpoint updatedDiff (lhs rhs : json) {struct rhs} : json :=
  if strict_eq lhs rhs then JObj []
  else if negb (isObject lhs) || negb (isObject rhs) then rhs
  else
    JObj (updated_reduce lhs
            (with_keys (own_entries rhs)
               match rhs with
               | JObj ps => map (fun p l => updatedDiff l (snd p)) ps
               | JArr vs => map (fun rv l => updatedDiff l rv) vs
               | _ => []
               end)).

Record detailed : Type := {
  added : json;
  deleted : json;
  updated : json
}.

Definition detailedDiff (lhs rhs : json) : detailed :=
  {| added := addedDiff lhs rhs;
     deleted := deletedDiff lhs rhs;
     updated := updatedDiff lhs rhs |}.

End DeepObjectDiff.

Import DeepObjectDiff.

(** ** key-path-helpers (npm dependency)

    Key paths address properties of plain objects; array elements and the
    characters of a string are not addressed by setting names, and a
    property assignment on a primitive is the silent no-op of sloppy mode. *)

Module KeyPath.

Definition dot : ascii := "."%char.
Definition backslash : ascii := "\"%char.

(** The scan of [splitKeyPath]: cut at every dot that is first or not
    preceded by a backslash. *)
Fixpoint raw_split (escaped : bool) (acc : string) (s : string) : list string :=
  match s with
  | EmptyString => [acc]
  | String c s' =>
      if Ascii.eqb c dot && negb escaped
      then acc :: raw_split false EmptyString s'
      else raw_split (Ascii.eqb c backslash) (acc ++ String c EmptyString) s'
  end.

(** [.replace(/\\\./g, '.')] *)
Fixpoint unescape (s : string) : string :=
  match s with
  | EmptyString => EmptyString
  | String c s' =>
      match s' with
      | String d s'' =>
          if Ascii.eqb c backslash && Ascii.eqb d dot
          then String dot (unescape s'')
          else String c (unescape s')
      | EmptyString => String c EmptyString
      end
  end.

Definition splitKeyPath (keyPath : string) : list string :=
  map unescape (raw_split false EmptyString keyPath).

Definition kp_props (obj : json) : props :=
  match obj with JObj ps => ps | _ => [] end.

(** [object[key]] *)
Definition kp_get (obj : json) (k : string) : json :=
  match assoc k (kp_props obj) with Some v => v | None => JUndef end.

(** [object[key] = v] *)
Definition kp_put (obj : json) (k : string) (v : json) : json :=
  match obj with JObj ps => JObj (assoc_set k v ps) | _ => obj end.

(** [delete object[key]] *)
Definition kp_delete (obj : json) (k : string) : json :=
  match obj with JObj ps => JObj (assoc_del k ps) | _ => obj end.

(** The loop of [getValueAtKeyPath] over the split keys. *)
Fixpoint get_keys (keys : list string) (obj : json) : json :=
  match keys with
  | [] => obj
  | k :: rest =>
      let o := kp_get obj k in
      if is_nullish o then o else get_keys rest o
  end.

Definition getValueAtKeyPath (obj : json) (keyPath : string) : json :=
  if String.eqb keyPath "" then obj
  else get_keys (splitKeyPath keyPath) obj.

(** The loop of [deleteValueAtKeyPath]; the nested object is mutated in
    place, so the parent keeps the key at its position. *)
Fixpoint delete_keys (keys : list string) (obj : json) : json :=
  match keys with
  | [] => obj
  | [k] => kp_delete obj k
  | k :: rest =>
      if is_nullish (kp_get obj k) then obj
      else kp_put obj k (delete_keys rest (kp_get obj k))
  end.

Definition deleteValueAtKeyPath (obj : json) (keyPath : string) : json :=
  delete_keys (splitKeyPath keyPath) obj.

(** The loop of [setValueAtKeyPath]. *)
Fixpoint set_keys (keys : list string) (v : json) (obj : json) : json :=
  match keys with
  | [] => obj
  | [k] => kp_put obj k v
  | k :: rest =>
      let child := if is_nullish (kp_get obj k) then JObj [] else kp_get obj k in
      kp_put obj k (set_keys rest v child)
  end.

Definition setValueAtKeyPath (obj : json) (keyPath : string) (v : json) : json :=
  set_keys (splitKeyPath keyPath) v obj.

(** [hasKeyPath]: every key of the path is an own property. *)
Fixpoint has_keys (keys : list string) (obj : json) : bool :=
  match keys with
  | [] => true
  | k :: rest =>
      match assoc k (kp_props obj) with
      | Some o => has_keys rest o
      | None => false
      end
  end.

Definition hasKeyPath (obj : json) (keyPath : string) : bool :=
  has_keys (splitKeyPath keyPath) obj.

End KeyPath.

Import KeyPath.

(** ** The host configuration store

    Modelled from the spec: the host configuration store ([atom.config]) is
    an external collaborator with [get(keyPath)] and
    [set(keyPath, value, {scopeSelector})] over a full tree plus per-scope
    overrides.  [get] reads the global tree at the key path;
    [set(null, value, {scopeSelector})] replaces the tree of that scope,
    the global tree for the selector [*]. *)

Module Atom.

Record config : Type := {
  cfg_settings : json;   (* atom.config.settings *)
  cfg_scoped : props      (* scopedSettingsStore.propertiesForSource(mainSource) *)
}.

Definition get (cfg : config) (keyPath : string) : json :=
  getValueAtKeyPath (cfg_settings cfg) keyPath.

Definition set_null (cfg : config) (v : json) (scopeSelector : string) : config :=
  if String.eqb scopeSelector "*"
  then {| cfg_settings := v; cfg_scoped := cfg_scoped cfg |}
  else {| cfg_settings := cfg_settings cfg;
          cfg_scoped := assoc_set scopeSelector v (cfg_scoped cfg) |}.

End Atom.

(** ** Blacklisted keys and the settings tree *)

Definition REMOVE_KEYS : list string :=
  [ "sync-settings.gistId";
    "sync-settings.personalAccessToken";
    "sync-settings.hiddenSettings._lastBackupTime";
    "sync-settings._analyticsUserId";
    "sync-settings._lastBackupHash";
    "sync-settings.hiddenSettings._lastBackupHash" ].

(** [...(x || [])] for a config value whose schema is an array of strings. *)
Definition string_items (v : json) : list string :=
  match v with
  | JArr vs =>
      flat_map (fun x => match x with JStr s => [s] | _ => [] end) vs
  | _ => []
  end.

Definition blacklistedKeys (cfg : Atom.config) : list string :=
  REMOVE_KEYS ++ string_items (Atom.get cfg "sync-settings.blacklistedKeys").

(** [JSON.parse(JSON.stringify(v))]: properties holding [undefined] are
    dropped, [undefined] array items become [null]. *)
Fixpoint json_clone (v : json) : json :=
  match v with
  | JArr vs =>
      JArr (map (fun x => match json_clone x with JUndef => JNull | y => y end) vs)
  | JObj ps =>
      JObj ((fix go (ps : props) : props :=
               match ps with
               | [] => []
               | (k, x) :: ps' =>
                   match x with
                   | JUndef => go ps'
                   | _ => (k, json_clone x) :: go ps'
                   end
               end) ps)
  | _ => v
  end.

(** In-place mutation of the object held under [k]; both callers are
    handed a tree that has the key. *)
Definition mutate_at (k : string) (f : json -> json) (obj : json) : json :=
  match assoc k (kp_props obj) with
  | Some o => kp_put obj k (f o)
  | None => obj
  end.

(** [{ '*': atom.config.settings, ...scoped }] *)
Definition spread_scopes (cfg : Atom.config) : json :=
  JObj (fold_left (fun acc p => assoc_set (fst p) (snd p) acc)
          (Atom.cfg_scoped cfg) [("*", Atom.cfg_settings cfg)]).

Definition getFilteredSettings (cfg : Atom.config) : json :=
  fold_left
    (fun settings blacklistedKey =>
       mutate_at "*" (fun o => deleteValueAtKeyPath o blacklistedKey) settings)
    (blacklistedKeys cfg)
    (json_clone (spread_scopes cfg)).

Definition addFilteredSettings (cfg : Atom.config) (settings : json) : json :=
  fold_left
    (fun settings blacklistedKey =>
       match Atom.get cfg blacklistedKey with
       | JUndef => settings
       | v => mutate_at "*" (fun o => setValueAtKeyPath o blacklistedKey v) settings
       end)
    (blacklistedKeys cfg)
    settings.

(** ['*' in settings]; [in] throws a TypeError on a primitive. *)
Definition has_star (settings : json) : option bool :=
  match settings with
  | JObj ps => Some (match assoc "*" ps with Some _ => true | None => false end)
  | JArr _ => Some false
  | _ => None
  end.

(** The tree [updateSettings] works on after the legacy wrap. *)
Definition scoped_tree (settings : json) : option json :=
  match has_star settings with
  | Some true => Some settings
  | Some false => Some (JObj [("*", settings)])   (* backed up before v2.0.2 *)
  | None => None
  end.

(** The calls [atom.config.set(null, settings[scopeSelector], { scopeSelector })]
    made by [updateSettings], in order, as pairs (scopeSelector, tree). *)
Definition updateSettings_calls (cfg : Atom.config) (settings : json)
  : option props :=
  match scoped_tree settings with
  | Some tree => Some (entries (addFilteredSettings cfg tree))
  | None => None
  end.

Definition updateSettings (cfg : Atom.config) (settings : json)
  : option Atom.config :=
  match updateSettings_calls cfg settings with
  | Some calls =>
      Some (fold_left (fun c p => Atom.set_null c (snd p) (fst p)) calls cfg)
  | None => None
  end.

(** ** Array.prototype.sort and sortObject *)

(** [Array.prototype.sort(cmp)]: a stable sort; an element moves in front
    of the sorted rest while the comparator does not put it after. *)
Fixpoint js_insert {A : Type} (cmp : A -> A -> Z) (x : A) (l : list A) : list A :=
  match l with
  | [] => [x]
  | y :: l' => if (cmp x y <=? 0)%Z then x :: y :: l' else y :: js_insert cmp x l'
  end.

Definition js_sort {A : Type} (cmp : A -> A -> Z) (l : list A) : list A :=
  fold_right (js_insert cmp) [] l.

(** The default comparator of [sort()]: strings by their code units. *)
Definition code_unit_compare (a b : string) : Z :=
  match String.compare a b with Lt => (-1)%Z | Eq => 0%Z | Gt => 1%Z end.

Definition sort_default (l : list string) : list string :=
  js_sort code_unit_compare l.

(** [[...new Set(l)]]: first occurrences, in order. *)
Fixpoint dedupe (l : list string) : list string :=
  match l with
  | [] => []
  | x :: l' => x :: filter (fun y => negb (String.eqb x y)) (dedupe l')
  end.

(** An array index: the canonical numeral of an integer below [2^32 - 1]. *)
Definition is_digit (c : ascii) : bool :=
  let n := nat_of_ascii c in (48 <=? n)%nat && (n <=? 57)%nat.

Fixpoint digits_value (s : string) (acc : Z) : Z :=
  match s with
  | EmptyString => acc
  | String c s' =>
      digits_value s' (acc * 10 + Z.of_nat (nat_of_ascii c - 48))%Z
  end.

Definition is_index (k : string) : bool :=
  match k with
  | EmptyString => false
  | String c rest =>
      forallb is_digit (list_ascii_of_string k)
      && (negb (Ascii.eqb c "0"%char) || String.eqb rest "")
      && (digits_value k 0 <? 4294967295)%Z
  end.

(** The order in which an object lists its own properties: the array
    indices first, ascending, then the other names as they were created. *)
Definition own_order {A : Type} (ps : list (string * A)) : list (string * A) :=
  (js_sort (fun a b => (digits_value (fst a) 0 - digits_value (fst b) 0)%Z)
     (filter (fun p => is_index (fst p)) ps)
   ++ filter (fun p => negb (is_index (fst p))) ps)%list.

(** [sortObject(obj, sortFn)]: sort the entries, then rebuild the object;
    what comes back lists its properties in an object's own order. *)
Definition sortObject {A : Type} (sortFn : string * A -> string * A -> Z)
  (obj : list (string * A)) : list (string * A) :=
  own_order
    (fold_left (fun newObj p => assoc_set (fst p) (snd p) newObj)
       (js_sort sortFn obj) []).

(** The default [sortFn]: [ak.localeCompare(bk)], for the host's
    [String.prototype.localeCompare]. *)
Definition by_key {A : Type} (compare : string -> string -> Z)
  : string * A -> string * A -> Z :=
  fun a b => compare (fst a) (fst b).

(** ** Snapshots and diffs *)

Record File : Type := { path : string; content : string }.

Definition files_map := list (string * File).

(** The data of [getLocalData] / [getBackupData]; [JNull] and [None] are
    the [null] of a category that is not synchronised. *)
Record Snapshot : Type := {
  settings : json;
  packages : json;
  files : option files_map
}.

Record entry : Type := {
  keyPath : string;
  value : json;
  oldValue : option json     (* absent unless [getOldValue] *)
}.

Record settings_diff : Type := {
  settings_added : option (list entry);
  settings_updated : option (list entry);
  settings_deleted : option (list entry)
}.

Record package_pair : Type := { backup : json; local : json }.

Record packages_diff : Type := {
  packages_added : option json;
  packages_updated : option (list (string * package_pair));
  packages_deleted : option json
}.

Record files_diff : Type := {
  files_added : option files_map;
  files_updated : option files_map;
  files_deleted : option files_map
}.

Record DiffData : Type := {
  diff_settings : option settings_diff;
  diff_packages : option packages_diff;
  diff_files : option files_diff
}.

Inductive method : Type := Added | Updated | Deleted.

Definition bucket (m : method) (fd : files_diff) : option files_map :=
  match m with
  | Added => files_added fd
  | Updated => files_updated fd
  | Deleted => files_deleted fd
  end.

Definition set_bucket (m : method) (b : files_map) (fd : files_diff) : files_diff :=
  match m with
  | Added => {| files_added := Some b; files_updated := files_updated fd;
                files_deleted := files_deleted fd |}
  | Updated => {| files_added := files_added fd; files_updated := Some b;
                  files_deleted := files_deleted fd |}
  | Deleted => {| files_added := files_added fd; files_updated := files_updated fd;
                  files_deleted := Some b |}
  end.

(** [addDiffFile]: create [files], then the bucket, then the entry. *)
Definition addDiffFile (diffFiles : option files_diff) (m : method)
  (fileName : string) (fileObj : File) : option files_diff :=
  let fd := match diffFiles with
            | Some fd => fd
            | None => {| files_added := None; files_updated := None;
                         files_deleted := None |}
            end in
  let b := match bucket m fd with Some b => b | None => [] end in
  Some (set_bucket m (assoc_set fileName fileObj b) fd).

Definition nextPrefix (prefix prop : string) : string :=
  if negb (String.eqb prefix "") then prefix ++ "." ++ prop
  else if String.eqb prop "*" then "" else prop.

(** [settingsToKeyPaths(obj, prefix, getOldValue)].  A property holding
    [null] or [undefined] is replaced by the live config value, which is not
    part of [obj]: the recursion is bounded by [fuel], [None] when it runs
    out. *)
Fixpoint settingsToKeyPaths (fuel : nat) (cfg : Atom.config) (obj : json)
  (prefix : string) (getOldValue : bool) : option (list entry) :=
  match fuel with
  | O => None
  | S fuel' =>
      fold_left
        (fun acc p =>
           match acc with
           | None => None
           | Some settings =>
               let next := nextPrefix prefix (fst p) in
               let item := if is_nullish (snd p) then Atom.get cfg next else snd p in
               if typeof_object item && negb (isArray item) then
                 match settingsToKeyPaths fuel' cfg item next getOldValue with
                 | Some sub => Some (settings ++ sub)%list
                 | None => None
                 end
               else
                 Some (settings ++
                         [{| keyPath := next; value := item;
                             oldValue := if getOldValue
                                         then Some (Atom.get cfg next) else None |}])%list
           end)
        (entries obj) (Some [])
  end.

(** [for (prop in d) if (Object.keys(d[prop]).length === 0) delete d[prop]] *)
Definition prune (v : json) : option json :=
  if isEmpty v then None else Some v.

(** [if (d.prop)] on a bucket that may have been deleted. *)
Definition if_truthy (o : option json) : option json :=
  match o with
  | Some v => if truthy v then Some v else None
  | None => None
  end.

Definition opt_bind {A B : Type} (o : option A) (f : A -> option B) : option B :=
  match o with Some a => f a | None => None end.

(** A bucket that may be absent, filled by a computation that may run out
    of fuel. *)
Definition bucket_of {A B : Type} (o : option A) (f : A -> option B)
  : option (option B) :=
  match o with
  | None => Some None
  | Some a => match f a with Some b => Some (Some b) | None => None end
  end.

Section DiffEngine.

(** [diff.createTwoFilesPatch('local', 'backup', before, after, ...,
    { context: 2 })] of the [diff] package. *)
Variable createTwoFilesPatch : string -> string -> string.

Variable fuel : nat.
Variable cfg : Atom.config.

Definition diffSettings (localData backupData : Snapshot)
  : option (option settings_diff) :=
  if truthy (settings backupData) && truthy (settings localData) then
    let d := detailedDiff (settings localData) (settings backupData) in
    let a := prune (added d) in
    let u := prune (updated d) in
    let x := prune (deleted d) in
    match a, u, x with
    | None, None, None => Some None
    | _, _, _ =>
        opt_bind (bucket_of (if_truthy a)
                    (fun v => settingsToKeyPaths fuel cfg v "" false))
          (fun sa =>
        opt_bind (bucket_of (if_truthy u)
                    (fun v => settingsToKeyPaths fuel cfg v "" true))
          (fun su =>
        opt_bind (bucket_of (if_truthy x)
                    (fun v => settingsToKeyPaths fuel cfg v "" false))
          (fun sd =>
        Some (Some {| settings_added := sa; settings_updated := su;
                      settings_deleted := sd |}))))
    end
  else if truthy (settings backupData) then
    opt_bind (settingsToKeyPaths fuel cfg (settings backupData) "" false)
      (fun l => Some (Some {| settings_added := Some l; settings_updated := None;
                              settings_deleted := None |}))
  else if truthy (settings localData) then
    opt_bind (settingsToKeyPaths fuel cfg (settings localData) "" false)
      (fun l => Some (Some {| settings_added := None; settings_updated := None;
                              settings_deleted := Some l |}))
  else Some None.

Definition diffPackages (localData backupData : Snapshot) : option packages_diff :=
  if truthy (packages backupData) && truthy (packages localData) then
    let d := detailedDiff (packages localData) (packages backupData) in
    let a := prune (added d) in
    let u := prune (updated d) in
    let x := prune (deleted d) in
    match a, u, x with
    | None, None, None => None
    | _, _, _ =>
        Some {| packages_added := if_truthy a;
                packages_updated :=
                  option_map
                    (fun v =>
                       map (fun name =>
                              (name, {| backup := prop_get (packages backupData) name;
                                        local := prop_get (packages localData) name |}))
                         (object_keys v))
                    (if_truthy u);
                packages_deleted :=
                  option_map
                    (fun v =>
                       JObj (map (fun name =>
                                    (name, prop_get (packages localData) name))
                               (object_keys v)))
                    (if_truthy x) |}
    end
  else if truthy (packages backupData) then
    Some {| packages_added := Some (packages backupData);
            packages_updated := None; packages_deleted := None |}
  else if truthy (packages localData) then
    Some {| packages_added := None; packages_updated := None;
            packages_deleted := Some (packages localData) |}
  else None.

Definition keys_of (fs : option files_map) : list string :=
  match fs with Some m => map fst m | None => [] end.

(** The iteration order of the file loop. *)
Definition fileNames (localData backupData : Snapshot) : list string :=
  sort_default (dedupe (keys_of (files localData) ++ keys_of (files backupData))).

(** [files ? files[fileName] : null] for a name that is an own key of
    [files] or that no object inherits; what the code reads under an
    inherited name that is no own key is not a file. *)
Definition file_of (fs : option files_map) (fileName : string) : option File :=
  match fs with Some m => assoc fileName m | None => None end.

Definition diffFile (localData backupData : Snapshot)
  (acc : option files_diff) (fileName : string) : option files_diff :=
  match file_of (files backupData) fileName, file_of (files localData) fileName with
  | Some backupFile, Some localFile =>
      if negb (String.eqb (content localFile) (content backupFile)) then
        addDiffFile acc Updated fileName
          {| path := path backupFile;
             content := createTwoFilesPatch (content localFile) (content backupFile) |}
      else acc
  | Some backupFile, None => addDiffFile acc Added fileName backupFile
  | None, Some localFile => addDiffFile acc Deleted fileName localFile
  | None, None => acc
  end.

Definition diffFiles (localData backupData : Snapshot) : option files_diff :=
  match files localData, files backupData with
  | None, None => None
  | _, _ =>
      fold_left (diffFile localData backupData) (fileNames localData backupData) None
  end.

Definition getDiffData (localData backupData : Snapshot) : option DiffData :=
  opt_bind (diffSettings localData backupData)
    (fun s => Some {| diff_settings := s;
                      diff_packages := diffPackages localData backupData;
                      diff_files := diffFiles localData backupData |}).

End DiffEngine.

(** ** Selecting the packages to install and to remove *)

(** [{ name, ...descriptor }] *)
Definition with_name (name : string) (descriptor : json) : json :=
  JObj (fold_left (fun acc p => assoc_set (fst p) (snd p) acc)
          (entries descriptor) [("name", JStr name)]).

(** [p.apmInstallSource] inside the filter of [installMissingPackages]:
    there [p] is a key of [packages], a string, which has no such property. *)
Definition name_apmInstallSource (p : string) : json := JUndef.

(** The filter of [installMissingPackages]:
    [!availablePackages[p] ||
     !p.apmInstallSource !== !availablePackages[p].apmInstallSource] *)
Definition is_missing (availablePackages : json) (p : string) : bool :=
  match assoc p (own_entries availablePackages) with
  | Some available =>
      negb (truthy available)
      || negb (Bool.eqb
                 (negb (truthy (name_apmInstallSource p)))
                 (negb (truthy (prop_get available "apmInstallSource"))))
  | None =>
      if inherited p
      then (* a function of [Object.prototype]: truthy, no install source *)
        negb (Bool.eqb (negb (truthy (name_apmInstallSource p)))
                       (negb (truthy JUndef)))
      else true
  end.

Definition missingPackages (availablePackages packages : json) : list json :=
  map (fun name => with_name name (prop_get packages name))
    (filter (is_missing availablePackages) (object_keys packages)).

(** The filter of [removeObsoletePackages]: [!packages[i]] *)
Definition removePackages (installedPackages packages : json) : list json :=
  map (fun name => with_name name (prop_get installedPackages name))
    (filter (fun i => negb (truthy_at packages i))
       (object_keys installedPackages)).

(** ** The batch executor

    Scheduling is cooperative: a worker runs from one [await] to the next
    without interleaving.  A state is taken between such runs; every
    in-flight item belongs to one worker suspended at
    [await this.installPackage(pkg)] (or [removePackage]). *)

Inductive notice : Type :=
| Count (message : string) (i total : nat)            (* notify.count *)
| Warning (message : string) (dismissable : bool)     (* notify.warning *)
| Success (message : string)                          (* notify.success *)
| Error (message : string).                           (* notify.error *)

(** The two uses differ in their wording only. *)
Record wording : Type := { doing : string; todo : string }.

Definition installing : wording := {| doing := "installing"; todo := "install" |}.
Definition removing : wording := {| doing := "removing"; todo := "remove" |}.

(** [pkg.name], for an item that a string names. *)
Definition pkg_name (pkg : json) : string :=
  match prop_get pkg "name" with JStr s => s | _ => "" end.

(** Every item is named by a string, and none by [__proto__]: assigning
    [notifications.__proto__] adds no key to [notifications]. *)
Definition string_names (items : list json) : Prop :=
  forall pkg, In pkg items ->
    exists s, prop_get pkg "name" = JStr s /\ s <> "__proto__".

Record batch : Type := {
  total : nat;
  pending : list json;           (* missingPackages / removePackages *)
  inflight : list json;          (* one suspended worker each *)
  notifications : list string;   (* the keys of [notifications] *)
  succeeded : list string;
  failed : list string;
  notices : list notice          (* what has been shown, oldest first *)
}.

Definition join (sep : string) (l : list string) : string := String.concat sep l.

Definition decimal (n : nat) : string := index_key n.

(** Adding a key to the [notifications] object. *)
Definition add_key (k : string) (ks : list string) : list string :=
  if existsb (String.eqb k) ks then ks else ks ++ [k].

(** [delete notifications[name]] *)
Definition delete_key (k : string) (ks : list string) : list string :=
  filter (fun k' => negb (String.eqb k k')) ks.

(** The final report, the last branch of [installNextPackage] /
    [removeNextPackage]; [failed.sort()] sorts in place. *)
Definition report (w : wording) (b : batch) : batch :=
  match failed b with
  | [] =>
      {| total := total b; pending := pending b; inflight := inflight b;
         notifications := notifications b; succeeded := succeeded b;
         failed := failed b;
         notices := notices b ++
           [Success ("Sync-Settings: finished " ++ doing w ++ " "
                     ++ decimal (List.length (succeeded b)) ++ " packages")] |}
  | _ =>
      let sorted := sort_default (failed b) in
      {| total := total b; pending := pending b; inflight := inflight b;
         notifications := notifications b; succeeded := succeeded b;
         failed := sorted;
         notices := notices b ++
           [Warning ("Sync-Settings: finished " ++ doing w ++ " packages ("
                     ++ decimal (List.length sorted) ++ " failed: "
                     ++ join ", " sorted ++ ")") true] |}
  end.

(** One call of [installNextPackage()] up to its [await], or to its end. *)
Definition next (w : wording) (b : batch) : batch :=
  match pending b with
  | pkg :: rest =>
      let i := total b - List.length rest in
      {| total := total b; pending := rest; inflight := inflight b ++ [pkg];
         notifications := add_key (pkg_name pkg) (notifications b);
         succeeded := succeeded b; failed := failed b;
         notices := notices b ++
           [Count ("Sync-Settings: " ++ doing w ++ " " ++ pkg_name pkg) i (total b)] |}
  | [] =>
      match notifications b with
      | [] => report w b
      | _ => b
      end
  end.

Fixpoint remove_nth {A : Type} (n : nat) (l : list A) : list A :=
  match n, l with
  | _, [] => []
  | O, _ :: l' => l'
  | S n', x :: l' => x :: remove_nth n' l'
  end.

(** What a resumed worker comes to: it is suspended again or has returned,
    or it has thrown and its promise is rejected. *)
Inductive resumed : Type :=
| Returned (b : batch)
| Threw (b : batch).

Definition state_of (r : resumed) : batch :=
  match r with Returned b | Threw b => b end.

(** The worker holding the [n]-th in-flight item resumes: the operation
    succeeded ([ok]) or threw, and the worker records it.  Then
    [notifications[name].dismiss()] throws a TypeError when the key is gone,
    deleted by a worker that held an item of the same name; otherwise the
    worker dismisses the notification, deletes the key and calls itself
    again. *)
Definition resume (w : wording) (n : nat) (ok : bool) (b : batch)
  : option resumed :=
  match nth_error (inflight b) n with
  | None => None
  | Some pkg =>
      let name := pkg_name pkg in
      if existsb (String.eqb name) (notifications b) then
        Some (Returned (next w
          {| total := total b; pending := pending b;
             inflight := remove_nth n (inflight b);
             notifications := delete_key name (notifications b);
             succeeded := if ok then succeeded b ++ [name] else succeeded b;
             failed := if ok then failed b else failed b ++ [name];
             notices := if ok then notices b
                        else notices b ++
                             [Warning ("Sync-Settings: failed to " ++ todo w ++ " " ++ name)
                                      false] |}))
      else
        Some (Threw
          {| total := total b; pending := pending b;
             inflight := remove_nth n (inflight b);
             notifications := notifications b;
             succeeded := if ok then succeeded b ++ [name] else succeeded b;
             failed := if ok then failed b else failed b ++ [name];
             notices := if ok then notices b
                        else notices b ++
                             [Warning ("Sync-Settings: failed to " ++ todo w ++ " " ++ name)
                                      false] |})
  end.

(** [for (let i = 0; i < concurrency; i++) result.push(installNextPackage())] *)
Definition concurrency (items : list json) : nat := Nat.min (List.length items) 8.

Definition launch (w : wording) (items : list json) : batch :=
  Nat.iter (concurrency items) (next w)
    {| total := List.length items; pending := items; inflight := [];
       notifications := []; succeeded := []; failed := []; notices := [] |}.

(** The states a batch over [items] goes through; the workers that are
    left go on after one has thrown. *)
Inductive reachable (w : wording) (items : list json) : batch -> Prop :=
| reach_launch : reachable w items (launch w items)
| reach_resume b n ok r :
    reachable w items b -> resume w n ok b = Some r ->
    reachable w items (state_of r).

(** A run under a schedule of resumptions, up to the point where
    [Promise.all] is settled: it is rejected as soon as a worker throws. *)
Fixpoint run (w : wording) (schedule : list (nat * bool)) (b : batch)
  : option resumed :=
  match schedule with
  | [] => Some (Returned b)
  | (n, ok) :: rest =>
      match resume w n ok b with
      | Some (Returned b') => run w rest b'
      | Some (Threw b') => Some (Threw b')
      | None => None
      end
  end.

(** No worker is suspended; when none has thrown, [Promise.all] resolves. *)
Definition completed (b : batch) : bool :=
  match inflight b with [] => true | _ => false end.

(** The aggregate reports among the notices. *)
Definition is_aggregate (n : notice) : bool :=
  match n with
  | Success _ => true
  | Warning _ dismissable => dismissable
  | Count _ _ _ | Error _ => false
  end.

Definition aggregates (b : batch) : list notice := filter is_aggregate (notices b).

(** What the user sees of [installMissingPackages] / [removeObsoletePackages]
    for a given selection: nothing but a console line when it is empty. *)
Definition batch_notices (w : wording) (items : list json)
  (schedule : list (nat * bool)) : option (list notice) :=
  match items with
  | [] => Some []
  | _ => option_map (fun r => notices (state_of r)) (run w schedule (launch w items))
  end.

(** [data] inside [getBackupData], where [files] is still an object. *)
Record Snapshot_draft : Type := {
  draft_settings : json;
  draft_packages : json;
  draft_files : files_map
}.

(** ** Classifying the blobs of a backup *)

(** A computation that may throw; the payload is the text of [${err}]. *)
Inductive thrown (A : Type) : Type :=
| Ok (a : A)
| Throw (err : string).
Arguments Ok {A} a.
Arguments Throw {A} err.

Definition bind {A B : Type} (x : thrown A) (f : A -> thrown B) : thrown B :=
  match x with Ok a => f a | Throw e => Throw e end.

Notation "x <- c ;; k" := (bind c (fun x => k))
  (at level 61, c at next level, right associativity).

(** [s.replace(/\\/g, '/')] *)
Fixpoint backslash_to_slash (s : string) : string :=
  match s with
  | EmptyString => EmptyString
  | String c s' =>
      String (if Ascii.eqb c backslash then "/"%char else c) (backslash_to_slash s')
  end.

(** The key a value names when used as [obj[v]]. *)
Definition to_key (v : json) : string :=
  match v with
  | JStr s => s
  | JUndef => "undefined"
  | JNull => "null"
  | JBool true => "true"
  | JBool false => "false"
  | JNum n => if (n <? 0)%Z then "-" ++ decimal (Z.to_nat (- n)) else decimal (Z.to_nat n)
  | JArr _ | JObj _ => "[object Object]"
  end.

Section Classifier.

(** The host: [JSON.parse] ([None] for a SyntaxError, whose text is
    [syntax_error]), the text of a TypeError, [path.resolve], the locations
    Atom reports, [minimatch(name, glob, { dot: true })],
    [atom.packages.isBundledPackage] and [String.prototype.localeCompare]. *)
Variable JSON_parse : string -> option json.
Variable syntax_error : string -> string.
Variable type_error : string.
Variable resolve : string -> string -> string.
Variable configDirPath : string.
Variable userKeymapPath : string.
Variable userStyleSheetPath : string.
Variable minimatch : string -> string -> bool.
Variable isBundledPackage : string -> bool.
Variable localeCompare : string -> string -> Z.

Variable cfg : Atom.config.

Definition flag (key : string) : bool := truthy (Atom.get cfg key).

Definition parse (text : string) : thrown json :=
  match JSON_parse text with
  | Some v => Ok v
  | None => Throw (syntax_error text)
  end.

(** [fromLegacyPackages]: an array of descriptors with a [name] becomes
    the object keyed by name. *)
Definition fromLegacyPackages (packages : json) : thrown json :=
  match packages with
  | JArr pkgs =>
      obj <- fold_left
               (fun acc pkg =>
                  obj <- acc ;;
                  if is_nullish pkg then Throw type_error
                  else Ok (assoc_set (to_key (prop_get pkg "name"))
                             (JObj (assoc_del "name" (own_entries pkg))) obj))
               pkgs (Ok []) ;;
      Ok (JObj obj)
  | _ => Ok packages
  end.

(** [filterObject(obj, filterFn)]; [Object.entries] throws on [null]. *)
Definition filterObject (obj : json) (filterFn : string * json -> thrown bool)
  : thrown json :=
  if is_nullish obj then Throw type_error
  else
    kept <- fold_left
              (fun acc p =>
                 l <- acc ;;
                 keep <- filterFn p ;;
                 Ok (if keep then l ++ [p] else l)%list)
              (entries obj) (Ok []) ;;
    Ok (JObj (fold_left (fun newObj p => assoc_set (fst p) (snd p) newObj) kept [])).

(** [([k, v]) => v.theme] *)
Definition is_theme (p : string * json) : thrown bool :=
  if is_nullish (snd p) then Throw type_error
  else Ok (truthy (prop_get (snd p) "theme")).

Definition not_theme (p : string * json) : thrown bool :=
  t <- is_theme p ;; Ok (negb t).

Definition not_bundled (p : string * json) : thrown bool :=
  Ok (negb (isBundledPackage (fst p))).

Definition parsePackages (text : string) : thrown json :=
  parsed <- parse text ;;
  packages <- fromLegacyPackages parsed ;;
  packages <- (if negb (flag "sync-settings.syncPackages")
               then filterObject packages is_theme else Ok packages) ;;
  packages <- (if negb (flag "sync-settings.syncThemes")
               then filterObject packages not_theme else Ok packages) ;;
  if flag "sync-settings.onlySyncCommunityPackages"
  then filterObject packages not_bundled else Ok packages.

Definition put_file (data : Snapshot_draft) (fileName filePath text : string)
  : Snapshot_draft :=
  {| draft_settings := draft_settings data;
     draft_packages := draft_packages data;
     draft_files := assoc_set fileName {| path := filePath; content := text |}
                      (draft_files data) |}.

Definition one_of (s : string) (l : list string) : bool :=
  existsb (String.eqb s) l.

(** The body of the [try] for one blob: the [switch] on its name.  The
    second component is [fileName] as the [catch] would see it. *)
Definition classifyBlob (data : Snapshot_draft) (fileName text : string)
  : string * thrown Snapshot_draft :=
  if String.eqb fileName "settings.json" then
    (fileName,
     if flag "sync-settings.syncSettings" then
       v <- parse text ;;
       Ok {| draft_settings := v; draft_packages := draft_packages data;
             draft_files := draft_files data |}
     else Ok data)
  else if String.eqb fileName "packages.json" then
    (fileName,
     if flag "sync-settings.syncPackages" || flag "sync-settings.syncThemes" then
       v <- parsePackages text ;;
       Ok {| draft_settings := draft_settings data; draft_packages := v;
             draft_files := draft_files data |}
     else Ok data)
  else if one_of fileName ["keymap.cson"; "keymap.json"] then
    (fileName,
     Ok (if flag "sync-settings.syncKeymap"
         then put_file data fileName userKeymapPath text else data))
  else if one_of fileName ["styles.css"; "styles.less"] then
    (fileName,
     Ok (if flag "sync-settings.syncStyles"
         then put_file data fileName userStyleSheetPath text else data))
  else if one_of fileName ["init.coffee"; "init.js"] then
    (fileName,
     Ok (if flag "sync-settings.syncInit"
         then put_file data fileName (resolve configDirPath fileName) text
         else data))
  else if one_of fileName ["snippets.cson"; "snippets.json"] then
    (fileName,
     Ok (if flag "sync-settings.syncSnippets"
         then put_file data fileName (resolve configDirPath fileName) text
         else data))
  else
    let fileName := backslash_to_slash fileName in
    let filePath := resolve configDirPath fileName in
    let extraFiles :=
      map backslash_to_slash
        (string_items (Atom.get cfg "sync-settings.extraFiles")) in
    (fileName,
     Ok (if one_of fileName extraFiles then put_file data fileName filePath text
         else
           let extraFilesGlob :=
             string_items (Atom.get cfg "sync-settings.extraFilesGlob") in
           let ignoreFilesGlob :=
             string_items (Atom.get cfg "sync-settings.ignoreFilesGlob") in
           if existsb (minimatch fileName) extraFilesGlob
              && negb (existsb (minimatch fileName) ignoreFilesGlob)
           then put_file data fileName filePath text
           else data)).

Definition parse_error (fileName err : string) : notice :=
  Error ("Sync-Settings: Error parsing the file '" ++ fileName ++ "'. ("
         ++ err ++ ")").

(** The loop over the blobs: the first one that throws ends it. *)
Fixpoint classifyBlobs (data : Snapshot_draft) (blobs : list (string * string))
  : Snapshot_draft + notice :=
  match blobs with
  | [] => inl data
  | (fileName, text) :: rest =>
      match classifyBlob data fileName text with
      | (_, Ok data') => classifyBlobs data' rest
      | (fileName', Throw err) => inr (parse_error fileName' err)
      end
  end.

(** [getBackupData(files)]: the snapshot, if any, and what was notified. *)
Definition getBackupData (blobs : list (string * string))
  : option Snapshot * list notice :=
  match classifyBlobs {| draft_settings := JNull; draft_packages := JNull;
                         draft_files := [] |} blobs with
  | inl data =>
      (Some {| settings := draft_settings data;
               packages := draft_packages data;
               files := match draft_files data with
                        | [] => None
                        | fs => Some (sortObject (by_key localeCompare) fs)
                        end |},
       [])
  | inr n => (None, [n])
  end.

End Classifier.

(** ** Walking a tree along a key path *)

(** The value under a key path all of whose keys are own properties. *)
Fixpoint at_path (keys : list string) (obj : json) : option json :=
  match keys with
  | [] => Some obj
  | k :: rest =>
      match assoc k (kp_props obj) with
      | Some o => at_path rest o
      | None => None
      end
  end.

Definition is_plain_object (v : json) : bool :=
  match v with JObj _ => true | _ => false end.

(** [setValueAtKeyPath] can write under this key path: every node it walks
    through is a plain object, until the path ends or leaves the tree. *)
Fixpoint settable (keys : list string) (obj : json) : bool :=
  match keys with
  | [] => true
  | k :: rest =>
      is_plain_object obj
      && match rest with
         | [] => true
         | _ => is_nullish (kp_get obj k) || settable rest (kp_get obj k)
         end
  end.

(** The loop of [addFilteredSettings] on the global tree itself. *)
Definition reseed (cfg : Atom.config) (keys : list string) (tree : json) : json :=
  fold_left
    (fun o blacklistedKey =>
       match Atom.get cfg blacklistedKey with
       | JUndef => o
       | v => setValueAtKeyPath o blacklistedKey v
       end)
    keys tree.

(** The global tree [updateSettings] re-seeds and applies. *)
Definition global_tree (settings : json) : json :=
  match scoped_tree settings with
  | Some tree => kp_get tree "*"
  | None => JUndef
  end.

Definition is_null (v : json) : bool :=
  match v with JNull => true | _ => false end.

(** No blacklisted key is the empty key path or reads [null] live. *)
Definition seedable (cfg : Atom.config) : bool :=
  forallb (fun k => negb (String.eqb k "") && negb (is_null (Atom.get cfg k)))
    (blacklistedKeys cfg).

(** ** Reading a tree the way [settingsToKeyPaths] flattens it *)

(** [reaches x path y]: following the properties named by [path] from [x]
    leads to [y]. *)
Inductive reaches : json -> list string -> json -> Prop :=
| reach_here x : reaches x [] x
| reach_step x k y path z :
    In (k, y) (entries x) -> reaches y path z -> reaches x (k :: path) z.

(** The key path a list of property names flattens to. *)
Definition flatten (prefix : string) (path : list string) : string :=
  fold_left nextPrefix path prefix.

(** No [null] or [undefined] anywhere in the tree. *)
Fixpoint null_free (v : json) : bool :=
  match v with
  | JUndef | JNull => false
  | JArr vs => forallb null_free vs
  | JObj ps => forallb (fun p => null_free (snd p)) ps
  | _ => true
  end.

(** How deep objects and arrays nest. *)
Fixpoint height (v : json) : nat :=
  match v with
  | JArr vs => S (list_max (map height vs))
  | JObj ps => S (list_max (map (fun p => height (snd p)) ps))
  | _ => 0
  end.

(** What [settingsToKeyPaths] emits for one property. *)
Definition property_paths (fuel : nat) (cfg : Atom.config) (prefix : string)
  (getOldValue : bool) (p : string * json) : option (list entry) :=
  let next := nextPrefix prefix (fst p) in
  let item := if is_nullish (snd p) then Atom.get cfg next else snd p in
  if typeof_object item && negb (isArray item)
  then settingsToKeyPaths fuel cfg item next getOldValue
  else Some [{| keyPath := next; value := item;
                oldValue := if getOldValue then Some (Atom.get cfg next) else None |}].

(** ** Well-formed values: no object holds a key twice *)

Fixpoint unique (ks : list string) : bool :=
  match ks with
  | [] => true
  | k :: ks' => negb (existsb (String.eqb k) ks') && unique ks'
  end.

Fixpoint wf (v : json) : bool :=
  match v with
  | JArr vs => forallb wf vs
  | JObj ps => unique (map fst ps) && forallb (fun p => wf (snd p)) ps
  | _ => true
  end.

Definition wf_files (fs : option files_map) : bool :=
  match fs with Some m => unique (map fst m) | None => true end.

Definition wf_snapshot (s : Snapshot) : bool :=
  wf (settings s) && wf (packages s) && wf_files (files s).

(** ** What a diff reports: the keys of its buckets *)

Definition names_of (o : option json) : list string :=
  match o with Some v => object_keys v | None => [] end.

Definition added_packages (d : option packages_diff) : list string :=
  match d with Some pd => names_of (packages_added pd) | None => [] end.

Definition deleted_packages (d : option packages_diff) : list string :=
  match d with Some pd => names_of (packages_deleted pd) | None => [] end.

Definition updated_packages (d : option packages_diff) : list string :=
  match d with
  | Some pd => match packages_updated pd with Some l => map fst l | None => [] end
  | None => []
  end.

Definition file_keys (m : method) (d : option files_diff) : list string :=
  match d with
  | Some fd => match bucket m fd with Some b => map fst b | None => [] end
  | None => []
  end.

Definition keyPaths_of (o : option (list entry)) : list string :=
  match o with Some l => map keyPath l | None => [] end.

Definition added_settings (d : option settings_diff) : list string :=
  match d with Some sd => keyPaths_of (settings_added sd) | None => [] end.

Definition deleted_settings (d : option settings_diff) : list string :=
  match d with Some sd => keyPaths_of (settings_deleted sd) | None => [] end.

(** The bucket the file loop of [getDiffData] puts a name in, if any. *)
Definition classify (localData backupData : Snapshot) (fileName : string)
  : option method :=
  match file_of (files backupData) fileName, file_of (files localData) fileName with
  | Some backupFile, Some localFile =>
      if negb (String.eqb (content localFile) (content backupFile))
      then Some Updated else None
  | Some _, None => Some Added
  | None, Some _ => Some Deleted
  | None, None => None
  end.

(** ** Predicates and helpers the properties are stated with *)

Local Open Scope list_scope.

Definition nest (f : json -> json -> json) (p : string * json) : item :=
  (p, fun other => f other (snd p)).

Definition self_empty (x : json) : Prop :=
  wf x = true ->
  addedDiff x x = JObj [] /\ deletedDiff x x = JObj [] /\ updatedDiff x x = JObj [].

Definition swap_keys (r : json) : Prop :=
  forall l, object_keys (addedDiff l r) = object_keys (deletedDiff r l).

Definition updated_clean (r : json) : Prop :=
  null_free r = true -> forall l, null_free (updatedDiff l r) = true.

Definition collect (f : string * json -> option (list entry))
  (acc : option (list entry)) (p : string * json) : option (list entry) :=
  match acc with
  | None => None
  | Some l => match f p with Some sub => Some (l ++ sub) | None => None end
  end.

Definition leaf_like (v : json) : bool := negb (typeof_object v && negb (isArray v)).

Definition code_unit_le (x y : string) : Prop := String.leb x y = true.

Definition code_unit_lt (a b : string) : Prop := String.compare a b = Lt.

(** The names of everything a batch holds, wherever it is. *)
Definition held (b : batch) : list string :=
  map pkg_name (pending b) ++ map pkg_name (inflight b) ++ succeeded b ++ failed b.

Record batch_inv (items : list json) (b : batch) : Prop := {
  inv_total : total b = List.length items;
  inv_held : Permutation (map pkg_name items) (held b);
  inv_cap : List.length (inflight b) <= concurrency items;
  inv_busy : pending b <> [] -> List.length (inflight b) = concurrency items
}.

(** The state a resumed worker leaves before it calls itself again. *)
Definition settled (w : wording) (n : nat) (ok : bool) (pkg : json) (b : batch) : batch :=
  {| total := total b; pending := pending b;
     inflight := remove_nth n (inflight b);
     notifications := delete_key (pkg_name pkg) (notifications b);
     succeeded := if ok then succeeded b ++ [pkg_name pkg] else succeeded b;
     failed := if ok then failed b else failed b ++ [pkg_name pkg];
     notices := if ok then notices b
                else notices b ++
                     [Warning ("Sync-Settings: failed to " ++ todo w ++ " "
                               ++ pkg_name pkg)%string false] |}.

(** The state a resumed worker leaves when it throws. *)
Definition crashed (w : wording) (n : nat) (ok : bool) (pkg : json) (b : batch) : batch :=
  {| total := total b; pending := pending b;
     inflight := remove_nth n (inflight b);
     notifications := notifications b;
     succeeded := if ok then succeeded b ++ [pkg_name pkg] else succeeded b;
     failed := if ok then failed b else failed b ++ [pkg_name pkg];
     notices := if ok then notices b
                else notices b ++
                     [Warning ("Sync-Settings: failed to " ++ todo w ++ " "
                               ++ pkg_name pkg)%string false] |}.


(** Every resumption takes exactly one item off the work still to do. *)
Definition remaining (b : batch) : nat :=
  List.length (pending b) + List.length (inflight b).

(** Outcomes alone make a schedule: always resume the oldest worker. *)
Definition oldest_first (outcomes : list bool) : list (nat * bool) :=
  map (fun ok => (0, ok)) outcomes.

(** What a schedule says of the items, apart from any bookkeeping: the
    operations that ended, oldest first, each with its outcome.  The queue
    hands the next item to the worker that resumed. *)
Fixpoint ended (queue working : list json) (schedule : list (nat * bool))
  : list (json * bool) :=
  match schedule with
  | [] => []
  | (n, ok) :: rest =>
      match nth_error working n with
      | Some pkg =>
          (pkg, ok)
          :: ended (tl queue)
               (match queue with
                | next_pkg :: _ => remove_nth n working ++ [next_pkg]
                | [] => remove_nth n working
                end)
               rest
      | None => []
      end
  end.

Definition failed_names (log : list (json * bool)) : list string :=
  map (fun p => pkg_name (fst p)) (filter (fun p => negb (snd p)) log).

(** The names of the items whose operation threw, under a schedule. *)
Definition failures (items : list json) (schedule : list (nat * bool))
  : list string :=
  failed_names
    (ended (skipn (concurrency items) items) (firstn (concurrency items) items)
       schedule).

(** The aggregate report that is due after a schedule: the success
    message with the number of items when no operation threw, else the
    dismissable warning with the names of the items whose operation threw,
    in sorted order. *)
Definition expected_report (w : wording) (items : list json)
  (schedule : list (nat * bool)) (n : notice) : Prop :=
  (failures items schedule = [] /\
   n = Success ("Sync-Settings: finished " ++ doing w ++ " "
                ++ decimal (List.length items) ++ " packages")%string)
  \/
  (failures items schedule <> [] /\
   exists sorted,
     Permutation sorted (failures items schedule) /\
     Sorted code_unit_le sorted /\
     n = Warning ("Sync-Settings: finished " ++ doing w ++ " packages ("
                  ++ decimal (List.length (failures items schedule))
                  ++ " failed: " ++ join ", " sorted ++ ")")%string true).

(** The report a finished batch must have shown: a success when nothing
    failed, else a dismissable warning with the failed names, sorted. *)
Definition final_report (w : wording) (b : batch) (n : notice) : Prop :=
  (failed b = [] /\
   n = Success ("Sync-Settings: finished " ++ doing w ++ " "
                ++ decimal (List.length (succeeded b)) ++ " packages")%string)
  \/
  (failed b <> [] /\ Sorted code_unit_le (failed b) /\
   n = Warning ("Sync-Settings: finished " ++ doing w ++ " packages ("
                ++ decimal (List.length (failed b)) ++ " failed: "
                ++ join ", " (failed b) ++ ")")%string true).

Record report_inv (w : wording) (b : batch) : Prop := {
  inv_keys : notifications b = map pkg_name (inflight b);
  inv_report :
    match inflight b with
    | [] => exists n, aggregates b = [n] /\ final_report w b n /\
                      exists earlier, notices b = earlier ++ [n]
    | _ => aggregates b = []
    end
}.

(** The categories whose blob is parsed as JSON. *)
Definition parsed_as_json (cfg : Atom.config) (fileName : string) : bool :=
  (String.eqb fileName "settings.json" && flag cfg "sync-settings.syncSettings")
  || (String.eqb fileName "packages.json"
      && (flag cfg "sync-settings.syncPackages"
          || flag cfg "sync-settings.syncThemes")).

Definition seed_one (cfg : Atom.config) (o : json) (blacklistedKey : string) : json :=
  match Atom.get cfg blacklistedKey with
  | JUndef => o
  | x => setValueAtKeyPath o blacklistedKey x
  end.

Definition reads_live (cfg : Atom.config) (k : string) : Prop :=
  k <> "" /\ Atom.get cfg k <> JNull.

Local Open Scope string_scope.

(** ** Sample data *)

Module Sample.

Definition file (p c : string) : File := {| path := p; content := c |}.

Definition no_files (s p : json) : Snapshot :=
  {| settings := s; packages := p; files := None |}.

(** A live config holding a blacklisted key next to an ordinary one. *)
Definition live : Atom.config :=
  {| Atom.cfg_settings :=
       JObj [("sync-settings", JObj [("gistId", JStr "g"); ("foo", JNum 1)])];
     Atom.cfg_scoped := [] |}.

(** The local snapshot of [live] and a backup with empty settings. *)
Definition local_of_live : Snapshot := no_files (getFilteredSettings live) JNull.
Definition empty_backup : Snapshot := no_files (JObj [("*", JObj [])]) JNull.

Definition keep_after : string -> string -> string := fun _ after => after.

(** Two full snapshots that differ in every category. *)
Definition machine : Snapshot :=
  {| settings := JObj [("*", JObj [("editor", JObj [("fontSize", JNum 14)])])];
     packages := JObj [("linter", JObj [("version", JStr "1.0")]);
                       ("minimap", JObj [("version", JStr "4.0")])];
     files := Some [("init.js", file "/atom/init.js" "x");
                    ("keymap.cson", file "/atom/keymap.cson" "k")] |}.

Definition gist : Snapshot :=
  {| settings := JObj [("*", JObj [("editor", JObj [("fontSize", JNum 16)])])];
     packages := JObj [("linter", JObj [("version", JStr "1.0")]);
                       ("emmet", JObj [("version", JStr "2.0")])];
     files := Some [("init.js", file "/atom/init.js" "y");
                    ("styles.less", file "/atom/styles.less" "z")] |}.

(** Backups that carry a value for a blacklisted key: the backup
    identifier, which [live] has, and a legacy hash, which it has not. *)
Definition forged_gistId : json :=
  JObj [("*", JObj [("sync-settings", JObj [("gistId", JStr "forged")])])].

Definition forged_hash : json :=
  JObj [("*", JObj [("sync-settings",
                     JObj [("_lastBackupHash", JStr "forged")])])].

(** [String.prototype.localeCompare] on strings of ASCII letters, after
    the root collation of the host's ICU: letters compare without regard
    to case first (a < B < c); on a tie the first difference in case
    decides, lower case first. *)
Definition fold_case (c : ascii) : nat :=
  let n := nat_of_ascii c in
  if (65 <=? n)%nat && (n <=? 90)%nat then n + 32 else n.

Fixpoint primary (a b : string) : comparison :=
  match a, b with
  | EmptyString, EmptyString => Eq
  | EmptyString, String _ _ => Lt
  | String _ _, EmptyString => Gt
  | String x a', String y b' =>
      match Nat.compare (fold_case x) (fold_case y) with
      | Eq => primary a' b'
      | c => c
      end
  end.

Fixpoint tertiary (a b : string) : comparison :=
  match a, b with
  | String x a', String y b' =>
      match Nat.compare (nat_of_ascii y) (nat_of_ascii x) with
      | Eq => tertiary a' b'
      | c => c
      end
  | _, _ => Eq
  end.

Definition localeCompare_letters (a b : string) : Z :=
  match primary a b with
  | Lt => (-1)%Z
  | Gt => 1%Z
  | Eq => match tertiary a b with Lt => (-1)%Z | Eq => 0%Z | Gt => 1%Z end
  end.

(** Two extra files, as [getBackupData] collects them. *)
Definition extra_files : files_map :=
  [("Makefile", file "/atom/Makefile" "m"); ("keymap", file "/atom/keymap" "k")].

Definition finalized (compare : string -> string -> Z) : Snapshot :=
  {| settings := JNull; packages := JNull;
     files := Some (sortObject (by_key compare) extra_files) |}.

(** The font size changed live after the local snapshot was taken. *)
Definition live_font15 : Atom.config :=
  {| Atom.cfg_settings := JObj [("editor", JObj [("fontSize", JNum 15)])];
     Atom.cfg_scoped := [] |}.

(** A backup that sets a key to [null]. *)
Definition with_a (v : json) : Snapshot :=
  no_files (JObj [("*", JObj [("a", v)])]) JNull.

Definition live_a7 : Atom.config :=
  {| Atom.cfg_settings := JObj [("a", JNum 7)]; Atom.cfg_scoped := [] |}.

(** A backup made before the scoped format. *)
Definition legacy : json := JObj [("editor", JObj [("fontSize", JNum 14)])].

(** The same package with and without an install source. *)
Definition from_registry : json := JObj [("version", JStr "1.0")].
Definition from_source : json :=
  JObj [("version", JStr "1.0"); ("apmInstallSource", JStr "src")].

Definition only (name : string) (descriptor : json) : Snapshot :=
  no_files JNull (JObj [(name, descriptor)]).

(** A stand-in for [JSON.parse] that knows two documents and rejects
    everything else; the text [{] is malformed for the real one too. *)
Definition parse_two (text : string) : option json :=
  if String.eqb text "{}" then Some (JObj [])
  else if String.eqb text "null" then Some JNull
  else None.

Definition syntax_error (text : string) : string :=
  "SyntaxError: Unexpected end of JSON input".

Definition type_error : string :=
  "TypeError: Cannot convert undefined or null to object".

Definition resolve (dir name : string) : string := dir ++ "/" ++ name.

Definition no_glob (name glob : string) : bool := false.
Definition not_bundled (name : string) : bool := false.

(** Configs that synchronise the settings, or nothing at all. *)
Definition sync_settings_on : Atom.config :=
  {| Atom.cfg_settings :=
       JObj [("sync-settings", JObj [("syncSettings", JBool true)])];
     Atom.cfg_scoped := [] |}.

Definition sync_nothing : Atom.config :=
  {| Atom.cfg_settings :=
       JObj [("sync-settings", JObj [("syncSettings", JBool false)])];
     Atom.cfg_scoped := [] |}.

Definition classify_with (cfg : Atom.config) (blobs : list (string * string))
  : option Snapshot * list notice :=
  getBackupData parse_two syntax_error type_error resolve "/atom"
    "/atom/keymap.cson" "/atom/styles.less" no_glob not_bundled
    code_unit_compare cfg blobs.

(** Ten packages to install. *)
Definition ten : list json :=
  map (fun name => with_name name (JObj [("version", JStr "1.0")]))
    ["p0"; "p1"; "p2"; "p3"; "p4"; "p5"; "p6"; "p7"; "p8"; "p9"].

End Sample.

(** * The rest of the module: observations used by further properties *)

Definition method_eqb (a b : method) : bool :=
  match a, b with
  | Added, Added | Updated, Updated | Deleted, Deleted => true
  | _, _ => false
  end.

(** [diffData.files[method][fileName]] *)
Definition file_entry (m : method) (d : option files_diff) (fileName : string)
  : option File :=
  match d with
  | Some fd => match bucket m fd with Some b => assoc fileName b | None => None end
  | None => None
  end.

(** The bucket and the object one pass of the file loop files a name
    under, if any. *)
Definition filed (createTwoFilesPatch : string -> string -> string)
  (localData backupData : Snapshot) (fileName : string) : option (method * File) :=
  match file_of (files backupData) fileName, file_of (files localData) fileName with
  | Some backupFile, Some localFile =>
      if negb (String.eqb (content localFile) (content backupFile))
      then Some (Updated,
                 {| path := path backupFile;
                    content := createTwoFilesPatch (content localFile)
                                 (content backupFile) |})
      else None
  | Some backupFile, None => Some (Added, backupFile)
  | None, Some localFile => Some (Deleted, localFile)
  | None, None => None
  end.

(** Both sides hold the file with the same content, or neither holds it. *)
Definition same_file (localData backupData : Snapshot) (fileName : string) : Prop :=
  match file_of (files backupData) fileName, file_of (files localData) fileName with
  | Some backupFile, Some localFile => content localFile = content backupFile
  | None, None => True
  | _, _ => False
  end.

(** What a bucket holds for [k] once the file loop has passed [k]. *)
Definition after_loop (createTwoFilesPatch : string -> string -> string)
  (localData backupData : Snapshot) (m : method) (before : option File)
  (k : string) : option File :=
  match filed createTwoFilesPatch localData backupData k with
  | Some (m', f) => if method_eqb m m' then Some f else before
  | None => before
  end.

(** A files sub-diff that is present has a bucket, and no bucket is empty. *)
Definition buckets_filled (d : option files_diff) : Prop :=
  forall fd, d = Some fd ->
    (exists m b, bucket m fd = Some b) /\
    (forall m b, bucket m fd = Some b -> b <> []).


(** ** What a backup's file entry may look like *)

(** The names the [switch] of [getBackupData] has a [case] for. *)
Definition case_names : list string :=
  ["settings.json"; "packages.json"; "keymap.cson"; "keymap.json";
   "styles.css"; "styles.less"; "init.coffee"; "init.js";
   "snippets.cson"; "snippets.json"].

Definition no_slash (s : string) : bool :=
  forallb (fun c => negb (Ascii.eqb c "/"%char)) (list_ascii_of_string s).


(** ** Further sample data *)

Module Desk.

(** A config that synchronises the keymap and one file of a folder,
    written the way Windows writes it. *)
Definition sync_files : Atom.config :=
  {| Atom.cfg_settings :=
       JObj [("sync-settings",
              JObj [("syncKeymap", JBool true);
                    ("extraFiles", JArr [JStr "dir\sub.txt"])])];
     Atom.cfg_scoped := [] |}.

Definition gist_blobs : list (string * string) :=
  [("keymap.cson", "k"); ("dir\sub.txt", "t"); ("settings.json", "{");
   ("styles.less", "s")].

Definition backup_files : files_map :=
  [("dir/sub.txt", Sample.file "/atom/dir/sub.txt" "t");
   ("keymap.cson", Sample.file "/atom/keymap.cson" "k")].

Definition backup : Snapshot :=
  {| settings := JNull; packages := JNull; files := Some backup_files |}.

End Desk.


Module Shelf.

(** A package list with a theme and an ordinary package, and a stand-in
    for [JSON.parse] that knows its text. *)
Definition listed : props :=
  [("linter", JObj [("version", JStr "1.0")]);
   ("one-dark-ui", JObj [("version", JStr "1.2"); ("theme", JStr "ui")])].



End Shelf.


(** * The installed packages *)

Section Installed.

(** The host: the text of a TypeError, [atom.packages.isBundledPackage],
    which looks its argument up as a property name,
    [String.prototype.localeCompare], [fs.realpathSync], which may throw,
    [atom.packages.resolvePackagePath], and the live config. *)
Variable type_error : string.
Variable isBundledPackage : string -> bool.
Variable localeCompare : string -> string -> Z.
Variable realpathSync : string -> thrown string.
Variable resolvePackagePath : string -> json.
Variable cfg : Atom.config.

(** [data] in [getPackages]: the version, and the theme and the install
    source when they are truthy. *)
Definition package_data (metadata : json) : json :=
  let version := prop_get metadata "version" in
  let theme := prop_get metadata "theme" in
  let apmInstallSource := prop_get metadata "apmInstallSource" in
  JObj ([("version", version)]
        ++ (if truthy theme then [("theme", theme)] else [])
        ++ (if truthy apmInstallSource
            then [("apmInstallSource", apmInstallSource)] else []))%list.

(** [(syncThemes && theme) || (syncPackages && !theme)], then
    [!onlySyncCommunityPackages || !atom.packages.isBundledPackage(name)] *)
Definition synced (metadata : json) : bool :=
  let name := prop_get metadata "name" in
  let theme := prop_get metadata "theme" in
  (flag cfg "sync-settings.syncThemes" && truthy theme
   || flag cfg "sync-settings.syncPackages" && negb (truthy theme))
  && (negb (flag cfg "sync-settings.onlySyncCommunityPackages")
      || negb (isBundledPackage (to_key name))).

(** The loop of [getPackages]; destructuring [null] or [undefined]
    throws. *)
Definition collectPackages (pkgMetadata : props) : thrown props :=
  fold_left
    (fun acc entry =>
       packages <- acc ;;
       let metadata := snd entry in
       if is_nullish metadata then Throw type_error
       else if synced metadata
       then Ok (assoc_set (to_key (prop_get metadata "name"))
                  (package_data metadata) packages)
       else Ok packages)
    pkgMetadata (Ok []).

Definition getPackages (pkgMetadata : props) : thrown json :=
  packages <- collectPackages pkgMetadata ;;
  Ok (JObj (sortObject (by_key localeCompare) packages)).

(** The first loop of [getAvailablePackageMetadataWithoutDuplicates]:
    [path2metadata[fs.realpathSync(path2)] = packageMetadata[i]]. *)
Fixpoint path2metadata (packageMetadata : list json) (paths : list string)
  (acc : props) : thrown props :=
  match paths with
  | [] => Ok acc
  | path2 :: paths' =>
      real <- realpathSync path2 ;;
      path2metadata (tl packageMetadata) paths'
        (assoc_set real (hd JUndef packageMetadata) acc)
  end.

Definition getAvailablePackageMetadataWithoutDuplicates
  (packageMetadata : list json) (paths pkgNames : list string) : thrown props :=
  by_path <- path2metadata packageMetadata paths [] ;;
  Ok (fold_left
        (fun packages pkgName =>
           let pkgPath := to_key (resolvePackagePath pkgName) in
           if truthy (prop_get (JObj by_path) pkgPath)
           then assoc_set pkgPath (prop_get (JObj by_path) pkgPath) packages
           else packages)
        pkgNames []).

End Installed.


Module Bench.

(** What Atom reports for two installed packages, one of them bundled,
    and a config that synchronises packages and themes but no bundled
    ones. *)
Definition metadata : props :=
  [("/atom/packages/linter",
    JObj [("name", JStr "linter"); ("version", JStr "1.0");
          ("description", JStr "lint")]);
   ("/app/tabs",
    JObj [("name", JStr "tabs"); ("version", JStr "0.1")]);
   ("/atom/packages/one-dark-ui",
    JObj [("name", JStr "one-dark-ui"); ("version", JStr "1.2");
          ("theme", JStr "ui")])].

Definition bundled (name : string) : bool := String.eqb name "tabs".

Definition community : Atom.config :=
  {| Atom.cfg_settings :=
       JObj [("sync-settings",
              JObj [("syncPackages", JBool true); ("syncThemes", JBool true);
                    ("onlySyncCommunityPackages", JBool true)])];
     Atom.cfg_scoped := [] |}.

Definition installed : props :=
  [("linter", JObj [("version", JStr "1.0")]);
   ("one-dark-ui", JObj [("version", JStr "1.2"); ("theme", JStr "ui")])].

Definition parse_installed (text : string) : option json :=
  if String.eqb text "installed" then Some (JObj installed) else None.

(** The package manager's view: metadata by index, the folders, one of
    them a link to another, and the names; one name does not resolve. *)
Definition realpath (p : string) : thrown string :=
  Ok (if String.eqb p "/dev/linter" then "/atom/packages/linter" else p).

Definition resolvePackagePath (name : string) : json :=
  if String.eqb name "linter" then JStr "/atom/packages/linter"
  else if String.eqb name "tabs" then JStr "/app/tabs"
  else JUndef.

Definition by_index : list json :=
  [JObj [("name", JStr "linter"); ("version", JStr "1.0")];
   JObj [("name", JStr "linter"); ("version", JStr "1.1")];
   JObj [("name", JStr "tabs"); ("version", JStr "0.1")]].

Definition folders : list string :=
  ["/atom/packages/linter"; "/dev/linter"; "/app/tabs"].

Definition names : list string := ["linter"; "tabs"; "ghost"].

Definition available : props :=
  [("/atom/packages/linter",
    JObj [("name", JStr "linter"); ("version", JStr "1.1")]);
   ("/app/tabs", JObj [("name", JStr "tabs"); ("version", JStr "0.1")])].

End Bench.


Module Scoped.

(** A config whose access token is also set for one scope. *)
Definition override : json :=
  JObj [("sync-settings", JObj [("personalAccessToken", JStr "secret")])].

Definition live : Atom.config :=
  {| Atom.cfg_settings :=
       JObj [("sync-settings", JObj [("personalAccessToken", JStr "secret")])];
     Atom.cfg_scoped := [(".source.js", override)] |}.

End Scoped.


(** * The local snapshot *)

(** ** Strings

    A character stands for the UTF-16 code unit of the same number. *)

(** [WhiteSpace] and [LineTerminator] below 256. *)
Definition is_space (c : ascii) : bool :=
  let n := nat_of_ascii c in
  ((9 <=? n)%nat && (n <=? 13)%nat) || (n =? 32)%nat || (n =? 160)%nat.

Fixpoint drop_space (l : list ascii) : list ascii :=
  match l with
  | c :: l' => if is_space c then drop_space l' else l
  | [] => []
  end.

(** [s.trim()] *)
Definition trim (s : string) : string :=
  string_of_list_ascii
    (rev (drop_space (rev (drop_space (list_ascii_of_string s))))).

(** [s.toLowerCase()] *)
Definition lower (c : ascii) : ascii :=
  let n := nat_of_ascii c in
  if ((65 <=? n)%nat && (n <=? 90)%nat)
     || ((192 <=? n)%nat && (n <=? 222)%nat && negb (n =? 215)%nat)
  then ascii_of_nat (n + 32) else c.

Fixpoint toLowerCase (s : string) : string :=
  match s with
  | EmptyString => EmptyString
  | String c s' => String (lower c) (toLowerCase s')
  end.

(** [s.replace(/\//g, '\\')] *)
Fixpoint slash_to_backslash (s : string) : string :=
  match s with
  | EmptyString => EmptyString
  | String c s' =>
      String (if Ascii.eqb c "/"%char then backslash else c)
        (slash_to_backslash s')
  end.

(** [file.slice(file.lastIndexOf('.'))]: from the last dot on; without a
    dot [lastIndexOf] is [-1] and the slice is the last character. *)
Fixpoint from_last_dot (s : string) : option string :=
  match s with
  | EmptyString => None
  | String c s' =>
      match from_last_dot s' with
      | Some t => Some t
      | None => if Ascii.eqb c "."%char then Some s else None
      end
  end.

Fixpoint last_char (s : string) : string :=
  match s with
  | EmptyString => EmptyString
  | String c EmptyString => s
  | String _ s' => last_char s'
  end.

Definition slice_lastIndexOf_dot (file : string) : string :=
  match from_last_dot file with Some t => t | None => last_char file end.

Section LocalSide.

(** The host: [readFile] ([None] when it rejects), [fs.access] (whether
    it succeeds), [path.resolve], [path.basename], [glob] under the
    config folder with the [ignore] list, the locations Atom reports,
    [String.prototype.localeCompare], [this.getPackages()] on the packages
    installed, and the live config. *)
Variable readFile : string -> option string.
Variable access : string -> bool.
Variable resolve : string -> string -> string.
Variable basename : string -> string.
Variable glob : string -> list string -> thrown (list string).
Variable configDirPath userKeymapPath userStyleSheetPath : string.
Variable userInitScriptPath : string.
Variable localeCompare : string -> string -> Z.
Variable installedPackages : thrown json.
Variable cfg : Atom.config.

(** [nullString || null] *)
Definition or_null (nullString : option string) : option string :=
  match nullString with
  | Some s => if String.eqb s "" then None else Some s
  | None => None
  end.

(** [fileContent(filePath, nullString)]; [None] is [null]. *)
Definition fileContent (filePath : string) (nullString : option string)
  : option string :=
  match readFile filePath with
  | Some content =>
      if negb (String.eqb (trim content) "") then Some content
      else or_null nullString
  | None => or_null nullString
  end.

(** [exists = util.promisify(fs.access)]: resolves with [undefined], or
    rejects. *)
Definition exists_ (p : string) : thrown json :=
  if access p then Ok JUndef else Throw "ENOENT".

Definition getSnippetsPath : string :=
  let jsonPath := resolve configDirPath "snippets.json" in
  let csonPath := resolve configDirPath "snippets.cson" in
  match exists_ jsonPath with
  | Ok found => if truthy found then jsonPath else csonPath
  | Throw _ => csonPath
  end.

(** [removeUnfamiliarFiles ? null : text] *)
Definition unless_removing (removeUnfamiliarFiles : bool) (text : string)
  : option string :=
  if removeUnfamiliarFiles then None else Some text.

(** [if (content) files[fileName] = { path: filePath, content }] *)
Definition keep_file (files : files_map) (fileName filePath : string)
  (content : option string) : files_map :=
  match content with
  | Some c =>
      if negb (String.eqb c "")
      then assoc_set fileName {| path := filePath; content := c |} files
      else files
  | None => files
  end.

(** [${cmtstart} ${file} (not found) ${cmtend}] *)
Definition not_found (file : string) : string :=
  let ext := toLowerCase (slice_lastIndexOf_dot file) in
  let cmtstart := "#" in
  let cmtend := "" in
  let cmtstart := if one_of ext [".less"; ".scss"; ".js"] then "//" else cmtstart in
  let cmtstart := if one_of ext [".css"] then "/*" else cmtstart in
  let cmtend := if one_of ext [".css"] then "*/" else cmtend in
  cmtstart ++ " " ++ file ++ " (not found) " ++ cmtend.

(** [addExtraFile(files, file, removeUnfamiliarFiles)]: what it returns
    and the files after it; it returns [false] after
    [notify.warnBackupConfig()].  [fileName in files] holds of the own
    keys of [files] and of the names every plain object inherits. *)
Definition addExtraFile (files : files_map) (file : string)
  (removeUnfamiliarFiles : bool) : bool * files_map :=
  let fileName := slash_to_backslash file in
  match assoc fileName files with
  | Some _ => (true, files)
  | None =>
      if inherited fileName then (true, files)
      else if String.eqb file "config.cson"
         && truthy (Atom.get cfg "sync-settings.personalAccessToken")
         && truthy (Atom.get cfg "sync-settings.hiddenSettings._warnBackupConfig")
      then (false, files)
      else
        let filePath := resolve configDirPath file in
        let content :=
          fileContent filePath
            (unless_removing removeUnfamiliarFiles (not_found file)) in
        (true, keep_file files fileName filePath content)
  end.

(** A loop of [addExtraFile]; [None] when the function returned. *)
Fixpoint addExtraFiles (files : files_map) (extra : list string)
  (removeUnfamiliarFiles : bool) : option files_map :=
  match extra with
  | [] => Some files
  | file :: extra' =>
      match addExtraFile files file removeUnfamiliarFiles with
      | (true, files') => addExtraFiles files' extra' removeUnfamiliarFiles
      | (false, _) => None
      end
  end.

(** The loop over [extraFilesGlob]. *)
Fixpoint addGlobbedFiles (files : files_map) (globs ignore : list string)
  (removeUnfamiliarFiles : bool) : thrown (option files_map) :=
  match globs with
  | [] => Ok (Some files)
  | extraGlob :: globs' =>
      extra <- glob extraGlob ignore ;;
      match addExtraFiles files extra removeUnfamiliarFiles with
      | Some files' => addGlobbedFiles files' globs' ignore removeUnfamiliarFiles
      | None => Ok None
      end
  end.

(** One of the four files Atom knows the place of. *)
Definition own_file (switch : string) (filePath placeholder : string)
  (removeUnfamiliarFiles : bool) (files : files_map) : files_map :=
  if flag cfg switch
  then keep_file files (basename filePath) filePath
         (fileContent filePath (unless_removing removeUnfamiliarFiles placeholder))
  else files.

(** [getLocalData()]; [Ok None] when it returned nothing. *)
Definition getLocalData : thrown (option Snapshot) :=
  let settings :=
    if flag cfg "sync-settings.syncSettings"
    then getFilteredSettings cfg else JNull in
  packages <- (if flag cfg "sync-settings.syncPackages"
                  || flag cfg "sync-settings.syncThemes"
               then installedPackages else Ok JNull) ;;
  let removeUnfamiliarFiles := flag cfg "sync-settings.removeUnfamiliarFiles" in
  let files := [] in
  let files := own_file "sync-settings.syncKeymap" userKeymapPath
                 "# keymap file (not found)" removeUnfamiliarFiles files in
  let files := own_file "sync-settings.syncStyles" userStyleSheetPath
                 "// styles file (not found)" removeUnfamiliarFiles files in
  let files := own_file "sync-settings.syncInit" userInitScriptPath
                 "# initialization file (not found)" removeUnfamiliarFiles files in
  let files := own_file "sync-settings.syncSnippets" getSnippetsPath
                 "# snippets file (not found)" removeUnfamiliarFiles files in
  match addExtraFiles files
          (string_items (Atom.get cfg "sync-settings.extraFiles"))
          removeUnfamiliarFiles with
  | None => Ok None
  | Some files =>
      globbed <- addGlobbedFiles files
                   (string_items (Atom.get cfg "sync-settings.extraFilesGlob"))
                   (string_items (Atom.get cfg "sync-settings.ignoreFilesGlob"))
                   removeUnfamiliarFiles ;;
      match globbed with
      | None => Ok None
      | Some files =>
          Ok (Some {| settings := settings;
                      packages := packages;
                      files := match files with
                               | [] => None
                               | _ => Some (sortObject (by_key localeCompare) files)
                               end |})
      end
  end.

End LocalSide.


Module Disk.

(** A config folder with a keymap, a file in a folder and a blank file;
    [snippets.json] is there too. *)
Definition read (p : string) : option string :=
  if String.eqb p "/atom/keymap.cson" then Some "k"
  else if String.eqb p "/atom/dir/sub.txt" then Some "t"
  else if String.eqb p "/atom/blank.txt" then Some "  "
  else None.

Definition access (p : string) : bool := String.eqb p "/atom/snippets.json".

Fixpoint basename (s : string) : string :=
  match s with
  | EmptyString => EmptyString
  | String c s' =>
      if no_slash s' then (if Ascii.eqb c "/"%char then s' else s)
      else basename s'
  end.

Definition no_match (pattern : string) (ignore : list string)
  : thrown (list string) := Ok []%list.

Definition removing : Atom.config :=
  {| Atom.cfg_settings :=
       JObj [("sync-settings",
              JObj [("syncKeymap", JBool true);
                    ("removeUnfamiliarFiles", JBool true);
                    ("extraFiles",
                     JArr [JStr "dir/sub.txt"; JStr "blank.txt";
                           JStr "gone.txt"])])];
     Atom.cfg_scoped := [] |}.

Definition local_files : files_map :=
  [("dir\sub.txt", Sample.file "/atom/dir/sub.txt" "t");
   ("keymap.cson", Sample.file "/atom/keymap.cson" "k")].

Definition localData : Snapshot :=
  {| settings := JNull; packages := JNull; files := Some local_files |}.

Definition getLocalData (cfg : Atom.config) : thrown (option Snapshot) :=
  getLocalData read access Sample.resolve basename no_match "/atom"
    "/atom/keymap.cson" "/atom/styles.less" "/atom/init.coffee"
    code_unit_compare (Ok JNull) cfg.

(** The gist after a backup of [localData], and what comes back. *)
Definition blobs : list (string * string) :=
  [("dir\sub.txt", "t"); ("keymap.cson", "k")].

Definition backupData : Snapshot :=
  {| settings := JNull; packages := JNull;
     files := Some [("dir/sub.txt", Sample.file "/atom/dir/sub.txt" "t");
                    ("keymap.cson", Sample.file "/atom/keymap.cson" "k")] |}.

End Disk.


(** * Backing up, restoring and checking *)


(** [checkForUpdate] ends with [notify.newerBackup], with the success
    notification of a manual check, or with nothing. *)
Inductive verdict : Type :=
| NewerBackup
| Synchronized
| Quiet.

Section Orchestration.

(** The host: [JSON.stringify(v, null, '\t')] and the text of the
    TypeError of a property read on [null] or [undefined]. *)
Variable stringify : json -> string.
Variable type_error : string.



(** The loop of [restore] under [removeUnfamiliarFiles]:
    [const file = localData.files[fileName]; await unlink(file.path)],
    as the paths handed to [unlink]. *)
Definition unlink_deleted (localData : Snapshot) (diffData : DiffData)
  : thrown (list string) :=
  match diff_files diffData with
  | Some fd =>
      match files_deleted fd with
      | Some deleted =>
          fold_left
            (fun acc p =>
               unlinked <- acc ;;
               match file_of (files localData) (fst p) with
               | Some file => Ok (unlinked ++ [path file])%list
               | None => Throw type_error
               end)
            deleted (Ok []%list)
      | None => Ok []%list
      end
  | None => Ok []%list
  end.

(** The end of [checkForUpdate], once the diff is there. *)
Definition checkForUpdate_verdict (autoCheck : bool) (diffData : DiffData)
  : verdict :=
  if match diff_settings diffData with Some _ => true | None => false end
     || match diff_packages diffData with Some _ => true | None => false end
     || match diff_files diffData with Some _ => true | None => false end
  then NewerBackup
  else if negb autoCheck then Synchronized else Quiet.

(** [obj[key]] on a value that is not [null] or [undefined]; of the
    inherited properties the [length] of arrays and strings is there. *)
Definition member (obj : json) (key : json) : json :=
  let k := to_key key in
  match obj with
  | JObj ps => match assoc k ps with Some v => v | None => JUndef end
  | JArr vs =>
      if String.eqb k "length" then JNum (Z.of_nat (List.length vs))
      else match assoc k (indexed 0 vs) with Some v => v | None => JUndef end
  | JStr s =>
      if String.eqb k "length" then JNum (Z.of_nat (String.length s))
      else match assoc k (indexed 0 (chars s)) with
           | Some v => v
           | None => JUndef
           end
  | _ => JUndef
  end.

(** The [while] loop of [invalidRes] on one path: [false] when a value on
    the way is falsy. *)
Fixpoint walk (obj : json) (props : list json) : bool :=
  match props with
  | [] => true
  | key :: props' =>
      let obj := member obj key in
      if negb (truthy obj) then false else walk obj props'
  end.

(** [if (!Array.isArray(props)) props = [props]] *)
Definition as_path (props : json) : list json :=
  match props with JArr keys => keys | _ => [props] end.

(** [invalidRes(res, ...paths)]: the answer and what was notified. *)
Definition invalidRes (res : json) (paths : list json) : bool * list notice :=
  let error := (true, [Error "Sync-Settings: Error retrieving your settings."]) in
  if negb (truthy res) then error
  else if forallb (fun props => walk res (as_path props)) paths
  then (false, [])
  else error.

(** [res.a.b.c] read without a check. *)
Fixpoint read_path (obj : json) (props : list json) : thrown json :=
  match props with
  | [] => Ok obj
  | key :: props' =>
      if is_nullish obj then Throw type_error
      else read_path (member obj key) props'
  end.

End Orchestration.


Module Wire.


Definition response : json :=
  JObj [("data",
         JObj [("files", JObj []);
               ("history", JArr [JObj [("committed_at", JStr "2020-01-01")]])])].

Definition checked : list json :=
  [JArr [JStr "data"; JStr "files"];
   JArr [JStr "data"; JStr "history"; JNum 0; JStr "committed_at"]].

End Wire.


Module Guarded.

(** A config that lists [config.cson] among the extra files while a token
    is set and the warning is on. *)
Definition cfg : Atom.config :=
  {| Atom.cfg_settings :=
       JObj [("sync-settings",
              JObj [("personalAccessToken", JStr "secret");
                    ("hiddenSettings", JObj [("_warnBackupConfig", JBool true)]);
                    ("syncKeymap", JBool true);
                    ("extraFiles", JArr [JStr "dir/sub.txt"; JStr "config.cson"])])];
     Atom.cfg_scoped := [] |}.

End Guarded.


Module Twins.

(** A backup whose package list has two entries that carry one name in
    their descriptor, and what is selected for installation when nothing
    is installed. *)
Definition listed : json :=
  JObj [("x", JObj [("name", JStr "a")]);
        ("y", JObj [("name", JStr "a")]);
        ("b", JObj [("version", JStr "1.0")])].

Definition items : list json := missingPackages (JObj []) listed.

End Twins.


Module Lower.

(** Two extra files whose names are lower-case letters only. *)
Definition extra_files : files_map :=
  [("snippets", Sample.file "/atom/snippets" "s");
   ("keymap", Sample.file "/atom/keymap" "k")].

Definition finalized (compare : string -> string -> Z) : Snapshot :=
  {| settings := JNull; packages := JNull;
     files := Some (sortObject (by_key compare) extra_files) |}.

End Lower.

(** [diffData.packages.added[name]] and [diffData.packages.deleted[name]],
    for a name the bucket holds itself. *)
Definition added_package (d : option packages_diff) (name : string)
  : option json :=
  match d with
  | Some pd =>
      match packages_added pd with
      | Some v => assoc name (own_entries v)
      | None => None
      end
  | None => None
  end.

Definition deleted_package (d : option packages_diff) (name : string)
  : option json :=
  match d with
  | Some pd =>
      match packages_deleted pd with
      | Some v => assoc name (own_entries v)
      | None => None
      end
  | None => None
  end.

(** The keys a diff holds under a key path; none where the diff does not
    reach. *)
Definition keys_under (path : list string) (d : json) : list string :=
  match at_path path d with
  | Some x => object_keys x
  | None => []
  end.

(** Two snapshots whose settings differ below [*.editor] and by a whole
    subtree, [*.core]. *)
Module Deep.

Definition before : Snapshot :=
  Sample.no_files
    (JObj [("*", JObj [("editor", JObj [("fontSize", JNum 14)])])]) JNull.

Definition after : Snapshot :=
  Sample.no_files
    (JObj [("*", JObj [("editor", JObj [("fontSize", JNum 14);
                                        ("tabLength", JNum 2)]);
                       ("core", JObj [("autoHideMenuBar", JBool true)])])])
    JNull.

End Deep.

(** * Properties *)

Local Open Scope list_scope.

(** ** The embedding at work *)

Example splitKeyPath_dots :
  splitKeyPath "sync-settings.hiddenSettings._lastBackupTime"
  = ["sync-settings"; "hiddenSettings"; "_lastBackupTime"].
Proof. reflexivity. Qed.

Example splitKeyPath_escaped_dot : splitKeyPath "some\.key" = ["some.key"].
Proof. reflexivity. Qed.

Example splitKeyPath_leading_dot : splitKeyPath ".source.js" = [""; "source"; "js"].
Proof. reflexivity. Qed.

Example addedDiff_new_key :
  addedDiff (JObj [("a", JNum 1)]) (JObj [("a", JNum 1); ("b", JArr [JNum 2])])
  = JObj [("b", JArr [JNum 2])].
Proof. reflexivity. Qed.

Example updatedDiff_array_item :
  updatedDiff (JObj [("a", JArr [JNum 1; JNum 2])])
              (JObj [("a", JArr [JNum 1; JNum 3])])
  = JObj [("a", JObj [("1", JNum 3)])].
Proof. reflexivity. Qed.

Example deletedDiff_array_item :
  deletedDiff (JObj [("a", JArr [JNum 1; JNum 2])]) (JObj [("a", JArr [JNum 1])])
  = JObj [("a", JObj [("1", JUndef)])].
Proof. reflexivity. Qed.

(** The end-to-end example: one file changed, one only in the backup. *)
Example diff_files_example :
  diffFiles Sample.keep_after
    {| settings := JNull; packages := JNull;
       files := Some [("a", Sample.file "/atom/a" "x")] |}
    {| settings := JNull; packages := JNull;
       files := Some [("a", Sample.file "/atom/a" "y");
                      ("b", Sample.file "/atom/b" "z")] |}
  = Some {| files_added := Some [("b", Sample.file "/atom/b" "z")];
            files_updated := Some [("a", Sample.file "/atom/a" "y")];
            files_deleted := None |}.
Proof. reflexivity. Qed.

(** ** Induction over nested values *)

Lemma json_ind' (P : json -> Prop) :
  P JUndef -> P JNull -> (forall b, P (JBool b)) -> (forall n, P (JNum n)) ->
  (forall s, P (JStr s)) ->
  (forall vs, Forall P vs -> P (JArr vs)) ->
  (forall ps, Forall (fun p => P (snd p)) ps -> P (JObj ps)) ->
  forall v, P v.
Proof.
  intros Hu Hn Hb Hz Hs Ha Ho.
  fix IH 1. intros [ | | b | n | s | vs | ps ].
  - exact Hu.
  - exact Hn.
  - apply Hb.
  - apply Hz.
  - apply Hs.
  - apply Ha. induction vs as [|v vs IHvs]; constructor; [apply IH | exact IHvs].
  - apply Ho. induction ps as [|[k v] ps IHps]; constructor; [apply IH | exact IHps].
Qed.

Lemma index_key_inj i j : index_key i = index_key j -> i = j.
Proof.
  unfold index_key. intros H.
  apply (f_equal NilEmpty.uint_of_string) in H.
  rewrite !NilEmpty.usu in H. injection H as H.
  now apply Unsigned.to_uint_inj.
Qed.

(** ** Association lists with unique keys *)

Lemma assoc_In {A} k (v : A) ps : assoc k ps = Some v -> In (k, v) ps.
Proof.
  induction ps as [|[k' v'] ps IH]; simpl; [discriminate|].
  destruct (String.eqb_spec k k') as [->|Hne]; intros H.
  - injection H as ->. now left.
  - right. auto.
Qed.

Lemma assoc_None_notin {A} k (ps : list (string * A)) :
  assoc k ps = None <-> ~ In k (map fst ps).
Proof.
  induction ps as [|[k' v'] ps IH]; simpl; [tauto|].
  destruct (String.eqb_spec k k') as [->|Hne].
  - split; [discriminate | intros H; exfalso; apply H; now left].
  - rewrite IH. split; intros H; [intros [E|I]; [congruence | tauto] | tauto].
Qed.

Lemma existsb_eqb_In k ks : existsb (String.eqb k) ks = true <-> In k ks.
Proof.
  rewrite existsb_exists. split.
  - intros (x & Hx & E). apply String.eqb_eq in E. now subst.
  - intros H. exists k. split; [assumption | apply String.eqb_refl].
Qed.

Lemma unique_NoDup ks : unique ks = true <-> NoDup ks.
Proof.
  induction ks as [|k ks IH]; simpl.
  - split; [constructor | reflexivity].
  - rewrite andb_true_iff, negb_true_iff, IH. split.
    + intros [H1 H2]. constructor; [|assumption].
      intros I. apply existsb_eqb_In in I. congruence.
    + intros H. inversion H as [|? ? Hn Hd]; subst. split; [|assumption].
      destruct (existsb (String.eqb k) ks) eqn:E; [|reflexivity].
      apply existsb_eqb_In in E. contradiction.
Qed.

Lemma In_assoc_unique {A} k (v : A) ps :
  unique (map fst ps) = true -> In (k, v) ps -> assoc k ps = Some v.
Proof.
  induction ps as [|[k' v'] ps IH]; simpl; [contradiction|].
  rewrite andb_true_iff, negb_true_iff. intros [Hn Hu] [E|I].
  - injection E as -> ->. now rewrite String.eqb_refl.
  - destruct (String.eqb_spec k k') as [->|Hne]; [|auto].
    exfalso. apply (in_map fst) in I. simpl in I.
    apply existsb_eqb_In in I. congruence.
Qed.

Lemma indexed_keys_ge i vs k :
  In k (map fst (indexed i vs)) -> exists j, k = index_key j /\ i <= j.
Proof.
  revert i. induction vs as [|v vs IH]; simpl; intros i; [contradiction|].
  intros [E|I].
  - exists i. split; [now symmetry | lia].
  - destruct (IH _ I) as (j & -> & Hj). exists j. split; [reflexivity | lia].
Qed.

Lemma unique_indexed i vs : unique (map fst (indexed i vs)) = true.
Proof.
  apply unique_NoDup. revert i.
  induction vs as [|v vs IH]; simpl; intros i; constructor; [|apply IH].
  intros I. apply indexed_keys_ge in I as (j & E & Hj).
  apply index_key_inj in E. lia.
Qed.

Lemma indexed_snd i vs : map snd (indexed i vs) = vs.
Proof.
  revert i. induction vs as [|v vs IH]; simpl; intros i; [reflexivity|].
  now rewrite IH.
Qed.

Lemma wf_own_entries x :
  wf x = true ->
  unique (map fst (own_entries x)) = true /\
  Forall (fun p => wf (snd p) = true) (own_entries x).
Proof.
  destruct x as [ | | | | | vs | ps]; simpl; intros H;
    try (split; [reflexivity | constructor]).
  - split; [apply unique_indexed|].
    rewrite forallb_forall in H. apply Forall_forall. intros p Hp.
    apply H. rewrite <- (indexed_snd 0 vs). now apply in_map.
  - apply andb_true_iff in H as [Hu Hf]. split; [assumption|].
    rewrite forallb_forall in Hf. now apply Forall_forall.
Qed.

Lemma own_entries_ind (P : json -> Prop) x :
  match x with
  | JArr vs => Forall P vs
  | JObj ps => Forall (fun p => P (snd p)) ps
  | _ => True
  end ->
  Forall (fun p => P (snd p)) (own_entries x).
Proof.
  destruct x as [ | | | | | vs | ps]; simpl; intros H; try constructor; try assumption.
  rewrite Forall_forall in *. intros p Hp. apply H.
  rewrite <- (indexed_snd 0 vs). now apply in_map.
Qed.

(** ** Unfolding the structural diff *)

Lemma with_keys_indexed (G : json -> json -> json) i vs :
  with_keys (indexed i vs) (map G vs)
  = map (fun p => (p, G (snd p))) (indexed i vs).
Proof.
  unfold with_keys. revert i.
  induction vs as [|v vs IH]; simpl; intros i; [reflexivity|].
  now rewrite IH.
Qed.

Lemma with_keys_props (G : json -> json -> json) (ps : props) :
  with_keys ps (map (fun p => G (snd p)) ps) = map (fun p => (p, G (snd p))) ps.
Proof.
  unfold with_keys. induction ps as [|p ps IH]; simpl; [reflexivity|].
  now rewrite IH.
Qed.

Lemma addedDiff_eq lhs rhs :
  addedDiff lhs rhs =
  if strict_eq lhs rhs || negb (isObject lhs) || negb (isObject rhs)
  then JObj []
  else JObj (added_reduce lhs (map (nest addedDiff) (own_entries rhs))).
Proof.
  destruct rhs as [ | | | | | vs | ps]; simpl;
    try (destruct (strict_eq lhs _ || negb (isObject lhs) || _); reflexivity).
  - rewrite (with_keys_indexed (fun rv l => addedDiff l rv)). reflexivity.
  - rewrite (with_keys_props (fun rv l => addedDiff l rv)). reflexivity.
Qed.

Lemma updatedDiff_eq lhs rhs :
  updatedDiff lhs rhs =
  if strict_eq lhs rhs then JObj []
  else if negb (isObject lhs) || negb (isObject rhs) then rhs
  else JObj (updated_reduce lhs (map (nest updatedDiff) (own_entries rhs))).
Proof.
  destruct rhs as [ | | | | | vs | ps]; simpl;
    try (destruct (strict_eq lhs _); [reflexivity|];
         destruct (negb (isObject lhs) || _); reflexivity).
  - rewrite (with_keys_indexed (fun rv l => updatedDiff l rv)). reflexivity.
  - rewrite (with_keys_props (fun rv l => updatedDiff l rv)). reflexivity.
Qed.

Lemma deletedDiff_eq lhs rhs :
  deletedDiff lhs rhs =
  if strict_eq lhs rhs || negb (isObject lhs) || negb (isObject rhs)
  then JObj []
  else JObj (deleted_reduce rhs
               (map (nest (fun r l => deletedDiff l r)) (own_entries lhs))).
Proof.
  destruct lhs as [ | | | | | vs | ps]; simpl;
    try (destruct (strict_eq _ rhs || _ || negb (isObject rhs)); reflexivity);
    try reflexivity.
  - rewrite (with_keys_indexed (fun lv r => deletedDiff lv r)). reflexivity.
  - rewrite (with_keys_props (fun lv r => deletedDiff lv r)). reflexivity.
Qed.

(** ** Equal inputs have an empty structural diff *)

Lemma own_lookup x p :
  unique (map fst (own_entries x)) = true -> In p (own_entries x) ->
  hasOwn x (fst p) = true /\ prop_get x (fst p) = snd p.
Proof.
  intros Hu Hp. destruct p as [k v]. unfold hasOwn, prop_get. simpl fst. simpl snd.
  now rewrite (In_assoc_unique _ _ _ Hu Hp).
Qed.

Section ReduceSelf.

Variable x : json.
Variable f : json -> json -> json.

Lemma added_reduce_self qs :
  Forall (fun p => hasOwn x (fst p) = true /\
                   f (prop_get x (fst p)) (snd p) = JObj []) qs ->
  added_reduce x (map (nest f) qs) = [].
Proof.
  induction 1 as [|[k v] qs [Hh Hf] _ IH]; simpl in *; [reflexivity|].
  now rewrite Hh, Hf.
Qed.

Lemma updated_reduce_self qs :
  Forall (fun p => hasOwn x (fst p) = true /\
                   f (prop_get x (fst p)) (snd p) = JObj []) qs ->
  updated_reduce x (map (nest f) qs) = [].
Proof.
  induction 1 as [|[k v] qs [Hh Hf] _ IH]; simpl in *; [reflexivity|].
  now rewrite Hh, Hf.
Qed.

Lemma deleted_reduce_self qs :
  Forall (fun p => hasOwn x (fst p) = true /\
                   f (prop_get x (fst p)) (snd p) = JObj []) qs ->
  deleted_reduce x (map (nest f) qs) = [].
Proof.
  induction 1 as [|[k v] qs [Hh Hf] _ IH]; simpl in *; [reflexivity|].
  now rewrite Hh, Hf.
Qed.

End ReduceSelf.

Lemma strict_eq_refl_prim x : isObject x = false -> strict_eq x x = true.
Proof.
  destruct x; simpl; try reflexivity; try discriminate; intros _.
  - apply Bool.eqb_reflx.
  - apply Z.eqb_refl.
  - apply String.eqb_refl.
Qed.

Lemma self_empty_node x :
  isObject x = true ->
  Forall (fun p => self_empty (snd p)) (own_entries x) ->
  self_empty x.
Proof.
  intros Hobj IH Hwf.
  destruct (wf_own_entries x Hwf) as [Hu Hsub].
  assert (Hs : strict_eq x x = false) by (destruct x; simpl in *; congruence).
  assert (Hall : forall g : json -> json -> json,
             (forall v, self_empty v -> wf v = true -> g v v = JObj []) ->
             Forall (fun p => hasOwn x (fst p) = true /\
                              g (prop_get x (fst p)) (snd p) = JObj [])
               (own_entries x)).
  { intros g Hg. apply Forall_forall. intros p Hp.
    destruct (own_lookup x p Hu Hp) as [Hh Hget]. split; [assumption|].
    rewrite Hget. rewrite Forall_forall in IH, Hsub.
    apply Hg; [apply IH | apply Hsub]; assumption. }
  rewrite addedDiff_eq, deletedDiff_eq, updatedDiff_eq, Hs, Hobj. simpl.
  repeat split.
  - rewrite added_reduce_self; [reflexivity|].
    apply Hall. intros v Hv Hw. now destruct (Hv Hw).
  - rewrite (deleted_reduce_self x (fun r l => deletedDiff l r)); [reflexivity|].
    apply (Hall (fun r l => deletedDiff l r)).
    intros v Hv Hw. now destruct (Hv Hw) as (_ & ? & _).
  - rewrite updated_reduce_self; [reflexivity|].
    apply Hall. intros v Hv Hw. now destruct (Hv Hw) as (_ & _ & ?).
Qed.

Lemma diff_self x : self_empty x.
Proof.
  induction x as [ | | b | n | s | vs IH | ps IH] using json_ind';
    try (intros _; rewrite addedDiff_eq, deletedDiff_eq, updatedDiff_eq;
         rewrite strict_eq_refl_prim by reflexivity; now simpl).
  - apply self_empty_node; [reflexivity|].
    now apply (own_entries_ind self_empty (JArr vs)).
  - apply self_empty_node; [reflexivity|].
    now apply (own_entries_ind self_empty (JObj ps)).
Qed.

Lemma fold_left_fixed {A B} (f : A -> B -> A) (l : list B) (a : A) :
  (forall b, In b l -> f a b = a) -> fold_left f l a = a.
Proof.
  induction l as [|b l IH]; simpl; intros H; [reflexivity|].
  rewrite H by now left. apply IH. intros b' Hb'. apply H. now right.
Qed.

Section EqualSnapshots.

Variable createTwoFilesPatch : string -> string -> string.
Variable fuel : nat.
Variable cfg : Atom.config.

Lemma diffSettings_same A :
  wf (settings A) = true -> diffSettings fuel cfg A A = Some None.
Proof.
  intros Hwf. unfold diffSettings, detailedDiff. simpl.
  destruct (diff_self (settings A) Hwf) as (-> & -> & ->).
  destruct (truthy (settings A)); reflexivity.
Qed.

Lemma diffPackages_same A :
  wf (packages A) = true -> diffPackages A A = None.
Proof.
  intros Hwf. unfold diffPackages, detailedDiff. simpl.
  destruct (diff_self (packages A) Hwf) as (-> & -> & ->).
  destruct (truthy (packages A)); reflexivity.
Qed.

Lemma diffFiles_same A : diffFiles createTwoFilesPatch A A = None.
Proof.
  unfold diffFiles. destruct (files A) as [m|] eqn:E; [|reflexivity].
  apply fold_left_fixed. intros name _. unfold diffFile. rewrite E.
  destruct (file_of (Some m) name); [|reflexivity].
  now rewrite String.eqb_refl.
Qed.

End EqualSnapshots.

(** C2: the diff of a snapshot with an equal snapshot has no settings, no
    packages and no files sub-diff: all three are [null], whatever the live
    config and the fuel. *)
Theorem getDiffData_equal_snapshots_absent :
  forall createTwoFilesPatch fuel cfg A,
    wf_snapshot A = true ->
    getDiffData createTwoFilesPatch fuel cfg A A
    = Some {| diff_settings := None; diff_packages := None; diff_files := None |}.
Proof.
  intros patch fuel cfg A Hwf. unfold wf_snapshot in Hwf.
  apply andb_true_iff in Hwf as [Hwf _].
  apply andb_true_iff in Hwf as [Hs Hp].
  unfold getDiffData.
  rewrite diffSettings_same by assumption.
  rewrite diffPackages_same by assumption.
  rewrite diffFiles_same. reflexivity.
Qed.

(** ** Added on one side is deleted on the other *)

Lemma strict_eq_sym a b : strict_eq a b = strict_eq b a.
Proof.
  destruct a, b; simpl; try reflexivity.
  - destruct b, b0; reflexivity.
  - apply Z.eqb_sym.
  - apply String.eqb_sym.
Qed.

Lemma addedDiff_obj l r : exists ps, addedDiff l r = JObj ps.
Proof.
  rewrite addedDiff_eq.
  destruct (strict_eq l r || negb (isObject l) || negb (isObject r)); eauto.
Qed.

Lemma deletedDiff_obj l r : exists ps, deletedDiff l r = JObj ps.
Proof.
  rewrite deletedDiff_eq.
  destruct (strict_eq l r || negb (isObject l) || negb (isObject r)); eauto.
Qed.

Lemma isEmpty_keys a b : object_keys a = object_keys b -> isEmpty a = isEmpty b.
Proof. unfold isEmpty. now intros ->. Qed.

Lemma reduce_swap_keys l qs :
  Forall (fun p => swap_keys (snd p)) qs ->
  map fst (added_reduce l (map (nest addedDiff) qs))
  = map fst (deleted_reduce l (map (nest (fun r0 l0 => deletedDiff l0 r0)) qs)).
Proof.
  induction 1 as [|[k rv] qs Hk _ IH]; simpl in *; [reflexivity|].
  destruct (hasOwn l k); [|simpl; now rewrite IH].
  specialize (Hk (prop_get l k)).
  rewrite (isEmpty_keys _ _ Hk).
  destruct (addedDiff_obj (prop_get l k) rv) as [pa ->].
  destruct (deletedDiff_obj rv (prop_get l k)) as [pd Ed]. rewrite Ed in *.
  simpl isObject. simpl andb.
  destruct (isEmpty (JObj pd)); simpl; now rewrite IH.
Qed.

Lemma swap_keys_node r :
  Forall (fun p => swap_keys (snd p)) (own_entries r) -> swap_keys r.
Proof.
  intros IH l. rewrite addedDiff_eq, deletedDiff_eq.
  rewrite (strict_eq_sym r l).
  replace (strict_eq l r || negb (isObject r) || negb (isObject l))
    with (strict_eq l r || negb (isObject l) || negb (isObject r))
    by (destruct (strict_eq l r), (isObject l), (isObject r); reflexivity).
  destruct (strict_eq l r || negb (isObject l) || negb (isObject r));
    [reflexivity|].
  unfold object_keys. simpl entries. now apply reduce_swap_keys.
Qed.

Lemma added_deleted_keys : forall r, swap_keys r.
Proof.
  induction r as [ | | b | n | s | vs IH | ps IH] using json_ind';
    try (apply swap_keys_node; constructor).
  - apply swap_keys_node. now apply (own_entries_ind swap_keys (JArr vs)).
  - apply swap_keys_node. now apply (own_entries_ind swap_keys (JObj ps)).
Qed.

Lemma isEmpty_no_keys v : isEmpty v = true -> object_keys v = [].
Proof. unfold isEmpty. now destruct (object_keys v). Qed.

Lemma names_pruned ps :
  names_of (if_truthy (prune (JObj ps))) = object_keys (JObj ps).
Proof.
  unfold prune. destruct (isEmpty (JObj ps)) eqn:E; simpl; [|reflexivity].
  now rewrite (isEmpty_no_keys _ E).
Qed.

Lemma added_packages_both A B :
  truthy (packages B) && truthy (packages A) = true ->
  added_packages (diffPackages A B)
  = object_keys (addedDiff (packages A) (packages B)).
Proof.
  intros T. unfold diffPackages. rewrite T. unfold detailedDiff. simpl.
  destruct (addedDiff_obj (packages A) (packages B)) as [pa ->].
  pose proof (names_pruned pa) as H.
  destruct (prune (JObj pa)), (prune (updatedDiff (packages A) (packages B))),
    (prune (deletedDiff (packages A) (packages B))); simpl in *; exact H.
Qed.

Lemma deleted_packages_both A B :
  truthy (packages B) && truthy (packages A) = true ->
  deleted_packages (diffPackages A B)
  = object_keys (deletedDiff (packages A) (packages B)).
Proof.
  intros T. unfold diffPackages. rewrite T. unfold detailedDiff. simpl.
  destruct (deletedDiff_obj (packages A) (packages B)) as [pd ->].
  assert (K : forall o, names_of (option_map
             (fun v => JObj (map (fun name => (name, prop_get (packages A) name))
                               (object_keys v))) o) = names_of o).
  { intros [v|]; simpl; [|reflexivity].
    unfold object_keys at 1. simpl. rewrite map_map. simpl. apply map_id. }
  pose proof (names_pruned pd) as H.
  destruct (prune (addedDiff (packages A) (packages B))),
    (prune (updatedDiff (packages A) (packages B))), (prune (JObj pd));
    simpl; rewrite ?K; simpl in *; exact H.
Qed.

Lemma packages_added_deleted_swap A B :
  added_packages (diffPackages A B) = deleted_packages (diffPackages B A).
Proof.
  destruct (truthy (packages A)) eqn:TA, (truthy (packages B)) eqn:TB.
  - rewrite added_packages_both, deleted_packages_both by (rewrite TA, TB; reflexivity).
    apply added_deleted_keys.
  - unfold diffPackages. rewrite TA, TB. reflexivity.
  - unfold diffPackages. rewrite TA, TB. reflexivity.
  - unfold diffPackages. rewrite TA, TB. reflexivity.
Qed.

(** ** Sorting keeps the elements; the file loop classifies each name once *)

Lemma js_insert_perm {A} (cmp : A -> A -> Z) x l :
  Permutation (x :: l) (js_insert cmp x l).
Proof.
  induction l as [|y l IH]; simpl; [reflexivity|].
  destruct (cmp x y <=? 0)%Z; [reflexivity|].
  rewrite perm_swap. now constructor.
Qed.

Lemma js_sort_perm {A} (cmp : A -> A -> Z) l : Permutation l (js_sort cmp l).
Proof.
  induction l as [|x l IH]; simpl; [constructor|].
  rewrite <- js_insert_perm. now constructor.
Qed.

Lemma In_dedupe k l : In k (dedupe l) <-> In k l.
Proof.
  induction l as [|x l IH]; simpl; [tauto|].
  rewrite filter_In, IH, negb_true_iff.
  destruct (String.eqb_spec x k) as [->|Hne]; split; intros H; auto.
  - destruct H as [E|[I _]]; auto.
  - destruct H as [E|I]; [contradiction|]. right. split; [assumption|reflexivity].
Qed.

Lemma In_assoc_set_keys {A} k n (v : A) b :
  In k (map fst (assoc_set n v b)) <-> k = n \/ In k (map fst b).
Proof.
  induction b as [|[k' v'] b IH]; simpl.
  - intuition.
  - destruct (String.eqb_spec n k') as [->|Hne]; simpl; [intuition|].
    rewrite IH. intuition.
Qed.

Section FileLoop.

Variable createTwoFilesPatch : string -> string -> string.
Variables localData backupData : Snapshot.


Lemma file_keys_addDiffFile m m' acc n f k :
  In k (file_keys m (addDiffFile acc m' n f))
  <-> In k (file_keys m acc) \/ (k = n /\ m' = m).
Proof.
  unfold addDiffFile, file_keys.
  destruct acc as [fd|]; destruct m, m'; simpl;
    try (destruct (files_added fd)); try (destruct (files_updated fd));
    try (destruct (files_deleted fd)); simpl;
    rewrite ?In_assoc_set_keys; simpl; intuition congruence.
Qed.

Lemma file_keys_diffFile m acc n k :
  In k (file_keys m (diffFile createTwoFilesPatch localData backupData acc n))
  <-> In k (file_keys m acc) \/ (k = n /\ classify localData backupData n = Some m).
Proof.
  unfold diffFile, classify.
  destruct (file_of (files backupData) n) as [bf|],
           (file_of (files localData) n) as [lf|];
    try (destruct (negb (content lf =? content bf)));
    rewrite ?file_keys_addDiffFile; intuition congruence.
Qed.

Lemma file_keys_fold m names acc k :
  In k (file_keys m (fold_left (diffFile createTwoFilesPatch localData backupData)
                       names acc))
  <-> In k (file_keys m acc) \/ (In k names /\ classify localData backupData k = Some m).
Proof.
  revert acc. induction names as [|n names IH]; simpl; intros acc.
  - intuition.
  - rewrite IH, file_keys_diffFile. intuition (subst; auto).
Qed.

Lemma classified_in_fileNames k m :
  classify localData backupData k = Some m -> In k (fileNames localData backupData).
Proof.
  unfold classify, fileNames, sort_default. intros H.
  apply (Permutation_in _ (js_sort_perm _ _)). apply In_dedupe, in_or_app.
  unfold file_of, keys_of in *.
  destruct (files backupData) as [mb|], (files localData) as [ml|];
    try discriminate.
  - destruct (assoc k mb) as [bf|] eqn:Eb.
    + right. apply assoc_In in Eb. now apply (in_map fst) in Eb.
    + destruct (assoc k ml) as [lf|] eqn:El; [|discriminate].
      left. apply assoc_In in El. now apply (in_map fst) in El.
  - destruct (assoc k mb) as [bf|] eqn:Eb; [|discriminate].
    right. apply assoc_In in Eb. now apply (in_map fst) in Eb.
  - destruct (assoc k ml) as [lf|] eqn:El; [|discriminate].
    left. apply assoc_In in El. now apply (in_map fst) in El.
Qed.

(** A name is in bucket [m] of the files diff exactly when it classifies
    as [m]. *)
Lemma file_keys_diffFiles m k :
  In k (file_keys m (diffFiles createTwoFilesPatch localData backupData))
  <-> classify localData backupData k = Some m.
Proof.
  assert (F : In k (file_keys m
                (fold_left (diffFile createTwoFilesPatch localData backupData)
                   (fileNames localData backupData) None))
              <-> classify localData backupData k = Some m).
  { rewrite file_keys_fold. simpl. split.
    - intros [[]|[_ H]]. exact H.
    - intros H. right. split; [|assumption].
      now apply classified_in_fileNames with m. }
  unfold diffFiles.
  destruct (files localData) as [ml|] eqn:El; [exact F|].
  destruct (files backupData) as [mb|] eqn:Eb; [exact F|].
  simpl. unfold classify. rewrite El, Eb. simpl.
  split; [contradiction|discriminate].
Qed.

End FileLoop.

Lemma classify_swap A B k :
  classify A B k = Some Added <-> classify B A k = Some Deleted.
Proof.
  unfold classify.
  destruct (file_of (files A) k) as [fa|], (file_of (files B) k) as [fb|];
    try (destruct (negb (content fa =? content fb)));
    try (destruct (negb (content fb =? content fa)));
    split; congruence.
Qed.

Lemma files_added_deleted_swap patch A B k :
  In k (file_keys Added (diffFiles patch A B))
  <-> In k (file_keys Deleted (diffFiles patch B A)).
Proof. rewrite !file_keys_diffFiles. apply classify_swap. Qed.

Lemma getDiffData_equal_snapshots_absent_witness :
  wf_snapshot Sample.machine = true /\
  getDiffData Sample.keep_after 0 Sample.live Sample.machine Sample.machine
  = Some {| diff_settings := None; diff_packages := None; diff_files := None |}.
Proof.
  split; [reflexivity|].
  apply (getDiffData_equal_snapshots_absent Sample.keep_after 0 Sample.live
           Sample.machine).
  reflexivity.
Defined.

Section SettingsSwap.

Variable fuel : nat.
Variable cfg : Atom.config.

(** When one of the two snapshots has no settings, the other's whole tree
    is flattened the same way as added and as deleted. *)
Lemma settings_one_sided_swap A B :
  truthy (settings A) = false \/ truthy (settings B) = false ->
  option_map added_settings (diffSettings fuel cfg A B)
  = option_map deleted_settings (diffSettings fuel cfg B A).
Proof.
  unfold diffSettings.
  intros [T|T]; rewrite T; rewrite ?andb_false_r; simpl.
  - destruct (truthy (settings B)); [|reflexivity].
    now destruct (settingsToKeyPaths fuel cfg (settings B) "" false).
  - destruct (truthy (settings A)); [|reflexivity].
    now destruct (settingsToKeyPaths fuel cfg (settings A) "" false).
Qed.

End SettingsSwap.

(** ** The structural diff under a key path *)

Lemma addedDiff_isObject l r : isObject (addedDiff l r) = true.
Proof. destruct (addedDiff_obj l r) as [pa ->]. reflexivity. Qed.

Lemma deletedDiff_isObject l r : isObject (deletedDiff l r) = true.
Proof. destruct (deletedDiff_obj l r) as [pd ->]. reflexivity. Qed.

Lemma added_reduce_absent f l qs k :
  assoc k qs = None -> assoc k (added_reduce l (map (nest f) qs)) = None.
Proof.
  induction qs as [|[k' v'] qs IH]; simpl; [reflexivity|].
  destruct (String.eqb_spec k k') as [->|Hk]; [discriminate|]. intros A.
  destruct (hasOwn l k'); [destruct (isObject _ && isEmpty _)|]; simpl;
    rewrite ?(proj2 (String.eqb_neq k k') Hk); auto.
Qed.

Lemma deleted_reduce_absent f r qs k :
  assoc k qs = None -> assoc k (deleted_reduce r (map (nest f) qs)) = None.
Proof.
  induction qs as [|[k' v'] qs IH]; simpl; [reflexivity|].
  destruct (String.eqb_spec k k') as [->|Hk]; [discriminate|]. intros A.
  destruct (hasOwn r k'); [destruct (isObject _ && isEmpty _)|]; simpl;
    rewrite ?(proj2 (String.eqb_neq k k') Hk); auto.
Qed.

Lemma unique_head_absent {A} k (v : A) qs :
  unique (map fst ((k, v) :: qs)) = true -> assoc k qs = None.
Proof.
  simpl. rewrite andb_true_iff, negb_true_iff. intros [Hn _].
  apply assoc_None_notin. intros I. apply existsb_eqb_In in I. congruence.
Qed.

(** What the added diff of two objects holds under a key of both. *)
Lemma added_reduce_at l qs k rv :
  unique (map fst qs) = true -> assoc k qs = Some rv -> hasOwn l k = true ->
  assoc k (added_reduce l (map (nest addedDiff) qs))
  = if isEmpty (addedDiff (prop_get l k) rv) then None
    else Some (addedDiff (prop_get l k) rv).
Proof.
  intros U A Hh. induction qs as [|[k' v'] qs IH]; [discriminate A|].
  pose proof (unique_head_absent _ _ _ U) as Hn.
  simpl in U, A |- *. apply andb_true_iff in U as [_ U].
  destruct (String.eqb_spec k k') as [<-|Hk].
  - injection A as ->. rewrite Hh, addedDiff_isObject. cbn [andb].
    destruct (isEmpty (addedDiff (prop_get l k) rv)).
    + now apply added_reduce_absent.
    + simpl. now rewrite String.eqb_refl.
  - destruct (hasOwn l k'); [destruct (isObject _ && isEmpty _)|]; simpl;
      rewrite ?(proj2 (String.eqb_neq k k') Hk); exact (IH U A).
Qed.

(** What the deleted diff of two objects holds under a key of both. *)
Lemma deleted_reduce_at r qs k lv :
  unique (map fst qs) = true -> assoc k qs = Some lv -> hasOwn r k = true ->
  assoc k (deleted_reduce r
             (map (nest (fun other mine => deletedDiff mine other)) qs))
  = if isEmpty (deletedDiff lv (prop_get r k)) then None
    else Some (deletedDiff lv (prop_get r k)).
Proof.
  intros U A Hh. induction qs as [|[k' v'] qs IH]; [discriminate A|].
  pose proof (unique_head_absent _ _ _ U) as Hn.
  simpl in U, A |- *. apply andb_true_iff in U as [_ U].
  destruct (String.eqb_spec k k') as [<-|Hk].
  - injection A as ->. rewrite Hh, deletedDiff_isObject. cbn [andb].
    destruct (isEmpty (deletedDiff lv (prop_get r k))).
    + now apply deleted_reduce_absent.
    + simpl. now rewrite String.eqb_refl.
  - destruct (hasOwn r k'); [destruct (isObject _ && isEmpty _)|]; simpl;
      rewrite ?(proj2 (String.eqb_neq k k') Hk); exact (IH U A).
Qed.

(** Under a key path that both trees hold, what is added one way has the
    keys of what is deleted the other way. *)
Lemma keys_under_swap : forall keys l r a b,
  wf r = true ->
  at_path keys l = Some a -> at_path keys r = Some b ->
  keys_under keys (addedDiff l r) = keys_under keys (deletedDiff r l).
Proof.
  induction keys as [|k keys IH]; intros l r a b W Hl Hr.
  - unfold keys_under. simpl. apply added_deleted_keys.
  - simpl in Hl, Hr.
    destruct l as [ | | | | | |lps]; try discriminate Hl.
    destruct r as [ | | | | | |rps]; try discriminate Hr.
    cbn [kp_props] in Hl, Hr.
    destruct (assoc k lps) as [l'|] eqn:Al; [|discriminate Hl].
    destruct (assoc k rps) as [r'|] eqn:Ar; [|discriminate Hr].
    simpl in W. apply andb_true_iff in W as [U F].
    assert (W' : wf r' = true).
    { rewrite forallb_forall in F. exact (F _ (assoc_In _ _ _ Ar)). }
    assert (Hh : hasOwn (JObj lps) k = true)
      by (unfold hasOwn; cbn [own_entries]; now rewrite Al).
    assert (Hg : prop_get (JObj lps) k = l')
      by (unfold prop_get; cbn [own_entries]; now rewrite Al).
    rewrite addedDiff_eq, deletedDiff_eq.
    cbn [strict_eq isObject negb orb own_entries].
    unfold keys_under. cbn [at_path kp_props].
    rewrite (added_reduce_at (JObj lps) rps k r' U Ar Hh).
    rewrite (deleted_reduce_at (JObj lps) rps k r' U Ar Hh).
    rewrite Hg.
    rewrite (isEmpty_keys _ _ (added_deleted_keys r' l')).
    destruct (isEmpty (deletedDiff r' l')); [reflexivity|].
    exact (IH l' r' a b W' Hl Hr).
Qed.

(** Below a key that only one side holds the two diffs part: the added
    diff carries the new subtree whole, the deleted diff marks the key
    alone. *)
Example keys_below_new_key_differ :
  let l := JObj [] in
  let r := JObj [("a", JObj [("b", JNum 1)])] in
  keys_under ["a"] (added (detailedDiff l r)) = ["b"] /\
  keys_under ["a"] (deleted (detailedDiff r l)) = [].
Proof. split; reflexivity. Qed.

(** C7 (as amended): swapping the two sides turns added into deleted for the
    package names of the diff, when no package is called [__proto__] (the
    deleted bucket is filled by assignment, which files nothing under that
    name), and for the file names of the diff, when no file has a name
    every object inherits; for settings this holds for the keys of the
    structural diff of the two settings trees before flattening, at the
    top level and under every key path that both trees hold, and for the
    flattened key paths when one of the two snapshots has no settings. *)
Theorem getDiffData_swap_added_deleted :
  forall createTwoFilesPatch fuel cfg A B d1 d2,
    getDiffData createTwoFilesPatch fuel cfg A B = Some d1 ->
    getDiffData createTwoFilesPatch fuel cfg B A = Some d2 ->
    (~ In "__proto__" (object_keys (packages B)) ->
     added_packages (diff_packages d1) = deleted_packages (diff_packages d2)) /\
    ((forall n, In n (keys_of (files A) ++ keys_of (files B)) ->
                inherited n = false) ->
     forall name, In name (file_keys Added (diff_files d1))
                  <-> In name (file_keys Deleted (diff_files d2))) /\
    (wf (settings B) = true ->
     forall keys a b,
       at_path keys (settings A) = Some a ->
       at_path keys (settings B) = Some b ->
       keys_under keys (added (detailedDiff (settings A) (settings B)))
       = keys_under keys (deleted (detailedDiff (settings B) (settings A)))) /\
    (truthy (settings A) = false \/ truthy (settings B) = false ->
     added_settings (diff_settings d1) = deleted_settings (diff_settings d2)).
Proof.
  intros patch fuel cfg A B d1 d2 H1 H2. unfold getDiffData in *.
  pose proof (settings_one_sided_swap fuel cfg A B) as HS.
  destruct (diffSettings fuel cfg A B) as [s1|]; [|discriminate].
  destruct (diffSettings fuel cfg B A) as [s2|]; [|discriminate].
  simpl in H1, H2. injection H1 as <-. injection H2 as <-. simpl.
  split; [intros _; apply packages_added_deleted_swap|].
  split; [intros _ name; apply files_added_deleted_swap|].
  split.
  - intros W keys a b Ha Hb. exact (keys_under_swap keys _ _ a b W Ha Hb).
  - intros T. specialize (HS T). simpl in HS. congruence.
Qed.

Lemma getDiffData_swap_added_deleted_witness :
  added_packages (diffPackages Sample.machine Sample.gist) = ["emmet"] /\
  deleted_packages (diffPackages Sample.gist Sample.machine) = ["emmet"] /\
  (exists d1 d2,
    getDiffData Sample.keep_after 5 Sample.live Sample.machine Sample.gist = Some d1 /\
    getDiffData Sample.keep_after 5 Sample.live Sample.gist Sample.machine = Some d2 /\
    added_packages (diff_packages d1) = deleted_packages (diff_packages d2) /\
    (forall name, In name (file_keys Added (diff_files d1))
                  <-> In name (file_keys Deleted (diff_files d2)))) /\
  keys_under ["*"; "editor"]
    (added (detailedDiff (settings Deep.before) (settings Deep.after)))
  = ["tabLength"] /\
  keys_under ["*"; "editor"]
    (added (detailedDiff (settings Deep.before) (settings Deep.after)))
  = keys_under ["*"; "editor"]
      (deleted (detailedDiff (settings Deep.after) (settings Deep.before))).
Proof.
  split; [reflexivity|]. split; [reflexivity|]. split; [|split; [reflexivity|]].
  - destruct (getDiffData Sample.keep_after 5 Sample.live Sample.machine Sample.gist)
      as [d1|] eqn:E1; [|discriminate].
    destruct (getDiffData Sample.keep_after 5 Sample.live Sample.gist Sample.machine)
      as [d2|] eqn:E2; [|discriminate].
    exists d1, d2.
    destruct (getDiffData_swap_added_deleted _ _ _ _ _ _ _ E1 E2) as (HP & HF & _).
    assert (Hp : ~ In "__proto__" (object_keys (packages Sample.gist)))
      by (simpl; intuition discriminate).
    assert (Hf : forall n,
              In n (keys_of (files Sample.machine) ++ keys_of (files Sample.gist)) ->
              inherited n = false).
    { intros n I. simpl in I.
      repeat (destruct I as [<-|I]; [reflexivity|]). destruct I. }
    split; [reflexivity|]. split; [reflexivity|].
    split; [exact (HP Hp) | exact (HF Hf)].
  - destruct (getDiffData Sample.keep_after 5 Sample.live Deep.before Deep.after)
      as [d1|] eqn:E1; [|discriminate].
    destruct (getDiffData Sample.keep_after 5 Sample.live Deep.after Deep.before)
      as [d2|] eqn:E2; [|discriminate].
    destruct (getDiffData_swap_added_deleted _ _ _ _ _ _ _ E1 E2)
      as (_ & _ & HK & _).
    exact (HK eq_refl ["*"; "editor"]
             (JObj [("fontSize", JNum 14)])
             (JObj [("fontSize", JNum 14); ("tabLength", JNum 2)])
             eq_refl eq_refl).
Defined.

(** C7 fails for settings as stated: with the local snapshot of a live
    config and a backup with empty settings, the key paths reported as
    deleted one way include the blacklisted [sync-settings.gistId], read
    back from the live config, which the added key paths of the other way
    do not. *)
Lemma settings_swap_counterexample :
  exists d1 d2,
    getDiffData Sample.keep_after 10 Sample.live
      Sample.empty_backup Sample.local_of_live = Some d1 /\
    getDiffData Sample.keep_after 10 Sample.live
      Sample.local_of_live Sample.empty_backup = Some d2 /\
    added_settings (diff_settings d1) = ["sync-settings.foo"] /\
    deleted_settings (diff_settings d2) = ["sync-settings.gistId"; "sync-settings.foo"] /\
    ~ (forall k, In k (added_settings (diff_settings d1))
                 <-> In k (deleted_settings (diff_settings d2))).
Proof.
  eexists. eexists.
  split; [vm_compute; reflexivity|]. split; [vm_compute; reflexivity|].
  split; [reflexivity|]. split; [reflexivity|].
  intros H. specialize (H "sync-settings.gistId"). simpl in H.
  destruct H as [_ H]. destruct H as [E|[]]; [now left | discriminate E].
Qed.

(** ** The batch executor: invariants *)

Lemma nth_error_remove_perm {A} n (l : list A) x :
  nth_error l n = Some x -> Permutation l (x :: remove_nth n l).
Proof.
  revert l. induction n as [|n IH]; intros [|y l]; simpl; try discriminate.
  - intros [= ->]. reflexivity.
  - intros H. rewrite perm_swap. constructor. now apply IH.
Qed.

Lemma remove_nth_length {A} n (l : list A) x :
  nth_error l n = Some x -> S (List.length (remove_nth n l)) = List.length l.
Proof.
  revert l. induction n as [|n IH]; intros [|y l]; simpl; try discriminate.
  - reflexivity.
  - intros H. now rewrite (IH _ H).
Qed.

Section Executor.

Variable w : wording.

Lemma next_held b : Permutation (held b) (held (next w b)).
Proof.
  unfold next. destruct (pending b) as [|pkg rest] eqn:E.
  - destruct (notifications b); [|reflexivity].
    unfold report. destruct (failed b) as [|f fs] eqn:F; unfold held; simpl;
      rewrite F; [reflexivity|].
    do 3 apply Permutation_app_head.
    apply (js_sort_perm code_unit_compare (f :: fs)).
  - unfold held. simpl. rewrite E, map_app. simpl.
    rewrite <- !app_assoc. simpl.
    rewrite !(app_assoc (map pkg_name rest)). apply Permutation_middle.
Qed.

Lemma report_same b :
  total (report w b) = total b /\ pending (report w b) = pending b /\
  inflight (report w b) = inflight b /\
  notifications (report w b) = notifications b /\
  succeeded (report w b) = succeeded b.
Proof. unfold report. destruct (failed b); simpl; auto. Qed.

Lemma next_total b : total (next w b) = total b.
Proof.
  unfold next. destruct (pending b); [|reflexivity].
  destruct (notifications b); [|reflexivity]. apply report_same.
Qed.

Lemma next_pending b :
  pending (next w b) = tl (pending b).
Proof.
  unfold next. destruct (pending b) eqn:E; [|reflexivity].
  destruct (notifications b); [|exact E].
  destruct (report_same b) as (_ & -> & _). exact E.
Qed.

Lemma next_inflight b :
  inflight (next w b)
  = match pending b with pkg :: _ => inflight b ++ [pkg] | [] => inflight b end.
Proof.
  unfold next. destruct (pending b) as [|pkg rest] eqn:E; [|reflexivity].
  destruct (notifications b); [|reflexivity]. apply report_same.
Qed.

Lemma iter_next_shape k b :
  k <= List.length (pending b) ->
  pending (Nat.iter k (next w) b) = skipn k (pending b) /\
  inflight (Nat.iter k (next w) b) = inflight b ++ firstn k (pending b).
Proof.
  induction k as [|k IH]; intros Hk.
  - simpl. now rewrite app_nil_r.
  - destruct IH as [IHp IHi]; [lia|].
    change (Nat.iter (S k) (next w) b) with (next w (Nat.iter k (next w) b)).
    rewrite next_pending, next_inflight, IHp, IHi.
    assert (Hs : exists x rest, skipn k (pending b) = x :: rest
                                /\ firstn (S k) (pending b) = firstn k (pending b) ++ [x]
                                /\ skipn (S k) (pending b) = rest).
    { clear -Hk. revert Hk. generalize (pending b) as l.
      induction k as [|k IH]; intros [|y l] Hk; simpl in *; try lia.
      - eauto.
      - destruct (IH l) as (x & rest & E1 & E2 & E3); [lia|].
        exists x, rest. rewrite E1, E2. simpl in E3. rewrite E3. auto. }
    destruct Hs as (x & rest & E1 & E2 & E3).
    rewrite E1, E2, E3. simpl. now rewrite app_assoc.
Qed.

Lemma concurrency_le items : concurrency items <= List.length items.
Proof. unfold concurrency. lia. Qed.

Lemma iter_next_held k b :
  Permutation (held b) (held (Nat.iter k (next w) b)).
Proof.
  induction k as [|k IH]; [reflexivity|].
  change (Nat.iter (S k) (next w) b) with (next w (Nat.iter k (next w) b)).
  now rewrite <- next_held.
Qed.

Lemma iter_next_total k b : total (Nat.iter k (next w) b) = total b.
Proof.
  induction k as [|k IH]; [reflexivity|].
  change (Nat.iter (S k) (next w) b) with (next w (Nat.iter k (next w) b)).
  now rewrite next_total.
Qed.

Lemma launch_shape items :
  pending (launch w items) = skipn (concurrency items) items /\
  inflight (launch w items) = firstn (concurrency items) items.
Proof.
  unfold launch.
  destruct (iter_next_shape (concurrency items)
              {| total := List.length items; pending := items; inflight := [];
                 notifications := []; succeeded := []; failed := [];
                 notices := [] |}) as [Hp Hi].
  - apply concurrency_le.
  - now rewrite Hp, Hi.
Qed.

Lemma inv_launch items : batch_inv items (launch w items).
Proof.
  destruct (launch_shape items) as [Hp Hi].
  constructor.
  - unfold launch. now rewrite iter_next_total.
  - unfold launch. rewrite <- iter_next_held. unfold held. simpl.
    now rewrite app_nil_r.
  - rewrite Hi, length_firstn. pose proof (concurrency_le items). lia.
  - intros _. rewrite Hi, length_firstn. pose proof (concurrency_le items). lia.
Qed.

Lemma next_succeeded b : succeeded (next w b) = succeeded b.
Proof.
  unfold next. destruct (pending b); [|reflexivity].
  destruct (notifications b); [|reflexivity]. apply report_same.
Qed.

Lemma next_failed b : Permutation (failed (next w b)) (failed b).
Proof.
  unfold next. destruct (pending b); [|reflexivity].
  destruct (notifications b); [|reflexivity].
  unfold report. destruct (failed b) as [|f fs] eqn:F; simpl;
    [reflexivity|].
  apply Permutation_sym. apply (js_sort_perm code_unit_compare (f :: fs)).
Qed.

Lemma next_failed_nil b : failed b = [] -> failed (next w b) = [].
Proof.
  intros F. unfold next. destruct (pending b); [|exact F].
  destruct (notifications b); [|exact F].
  unfold report. rewrite F. reflexivity.
Qed.


Lemma iter_next_books k b :
  succeeded b = [] -> failed b = [] ->
  succeeded (Nat.iter k (next w) b) = [] /\ failed (Nat.iter k (next w) b) = [].
Proof.
  intros Hs Hf. induction k as [|k [IHs IHf]]; [now split|].
  change (Nat.iter (S k) (next w) b) with (next w (Nat.iter k (next w) b)).
  split; [now rewrite next_succeeded | now apply next_failed_nil].
Qed.

Lemma launch_books items :
  succeeded (launch w items) = [] /\ failed (launch w items) = [].
Proof. unfold launch. now apply iter_next_books. Qed.


End Executor.


Section ExecutorSteps.

Variable w : wording.
Variable items : list json.

Lemma resume_cases n ok b r :
  resume w n ok b = Some r ->
  exists pkg,
    nth_error (inflight b) n = Some pkg /\
    ((In (pkg_name pkg) (notifications b) /\
      r = Returned (next w (settled w n ok pkg b))) \/
     (~ In (pkg_name pkg) (notifications b) /\
      r = Threw (crashed w n ok pkg b))).
Proof.
  unfold resume. destruct (nth_error (inflight b) n) as [pkg|]; [|discriminate].
  destruct (existsb (String.eqb (pkg_name pkg)) (notifications b)) eqn:E;
    intros H; inversion H; subst r; exists pkg; (split; [reflexivity|]).
  - left. split; [now apply existsb_eqb_In | reflexivity].
  - right. split; [|reflexivity].
    intros I. apply existsb_eqb_In in I. congruence.
Qed.

Lemma resume_settled n ok b b' :
  resume w n ok b = Some (Returned b') ->
  exists pkg, nth_error (inflight b) n = Some pkg /\ b' = next w (settled w n ok pkg b).
Proof.
  intros R. destruct (resume_cases _ _ _ _ R) as (pkg & Hn & [[_ E]|[_ E]]);
    inversion E. now exists pkg.
Qed.

Lemma settled_held n ok pkg b :
  nth_error (inflight b) n = Some pkg ->
  Permutation (held b) (held (settled w n ok pkg b)).
Proof.
  intros H. unfold held. simpl. apply Permutation_app_head.
  pose proof (Permutation_map pkg_name (nth_error_remove_perm n _ _ H)) as P.
  simpl in P. rewrite P. simpl. destruct ok.
  - rewrite <- !app_assoc. simpl.
    rewrite !(app_assoc (map pkg_name (remove_nth n (inflight b)))).
    apply Permutation_middle.
  - rewrite !app_assoc. apply Permutation_cons_append.
Qed.

Lemma inv_resume n ok b b' :
  batch_inv items b -> resume w n ok b = Some (Returned b') -> batch_inv items b'.
Proof.
  intros [Ht Hh Hc Hb] R.
  destruct (resume_settled _ _ _ _ R) as (pkg & Hn & ->).
  pose proof (remove_nth_length n _ _ Hn) as Hl.
  constructor.
  - now rewrite next_total.
  - rewrite <- next_held, <- settled_held; assumption.
  - rewrite next_inflight. simpl.
    destruct (pending b); rewrite ?length_app; simpl; lia.
  - rewrite next_pending, next_inflight. simpl.
    destruct (pending b) as [|x rest] eqn:E; [intros C; now elim C|].
    intros _. rewrite length_app. simpl.
    assert (List.length (inflight b) = concurrency items) by (apply Hb; discriminate).
    lia.
Qed.




Lemma resume_remaining n ok b b' :
  resume w n ok b = Some (Returned b') -> S (remaining b') = remaining b.
Proof.
  intros R. destruct (resume_settled _ _ _ _ R) as (pkg & Hn & ->).
  pose proof (remove_nth_length n _ _ Hn) as Hl.
  unfold remaining. rewrite next_pending, next_inflight. simpl.
  destruct (pending b); simpl; rewrite ?length_app; simpl; lia.
Qed.

Lemma run_reachable schedule b r :
  reachable w items b -> run w schedule b = Some r -> reachable w items (state_of r).
Proof.
  revert b. induction schedule as [|[n ok] rest IH]; cbn [run]; intros b Hb.
  - intros H. inversion H. exact Hb.
  - destruct (resume w n ok b) as [[b1|b1]|] eqn:R; [| |discriminate].
    + apply IH. exact (reach_resume w items b n ok (Returned b1) Hb R).
    + intros H. inversion H.
      exact (reach_resume w items b n ok (Threw b1) Hb R).
Qed.

Lemma launch_remaining : remaining (launch w items) = List.length items.
Proof.
  destruct (launch_shape w items) as [Hp Hi]. unfold remaining.
  rewrite Hp, Hi, length_skipn, length_firstn.
  pose proof (concurrency_le items). lia.
Qed.

Lemma completed_done b :
  items <> [] -> batch_inv items b -> completed b = true ->
  pending b = [] /\
  List.length (succeeded b) + List.length (failed b) = List.length items.
Proof.
  intros Hne [Ht Hh Hc Hb] C. unfold completed in C.
  destruct (inflight b) eqn:E; [|discriminate].
  assert (Hp : pending b = []).
  { destruct (pending b) eqn:P; [reflexivity|].
    assert (0 = concurrency items) by (apply Hb; discriminate).
    unfold concurrency in *. destruct items; [congruence | simpl in *; lia]. }
  split; [assumption|].
  apply Permutation_length in Hh. unfold held in Hh.
  rewrite E, Hp in Hh. simpl in Hh. now rewrite length_map, length_app in Hh.
Qed.

(** The names recorded as failed are those of the operations the schedule
    lets throw. *)
Lemma run_failed schedule : forall b b',
  run w schedule b = Some (Returned b') ->
  Permutation (failed b')
    (failed b ++ failed_names (ended (pending b) (inflight b) schedule)).
Proof.
  induction schedule as [|[n ok] rest IH]; intros b b' H; cbn [run] in H.
  - inversion H. simpl. now rewrite app_nil_r.
  - destruct (resume w n ok b) as [[b1|b1]|] eqn:R; try discriminate H.
    destruct (resume_settled _ _ _ _ R) as (pkg & Hn & ->).
    specialize (IH _ _ H). rewrite next_pending, next_inflight in IH.
    cbn [settled pending inflight] in IH.
    cbn [ended]. rewrite Hn.
    etransitivity; [exact IH|].
    etransitivity; [apply Permutation_app_tail; apply next_failed|].
    unfold failed_names. cbn [settled failed filter snd fst].
    destruct ok; cbn [negb map fst]; [reflexivity|].
    now rewrite <- app_assoc.
Qed.

End ExecutorSteps.

(** ** The aggregate report *)

Lemma leb_of_compare x y :
  (code_unit_compare x y <=? 0)%Z = String.leb x y.
Proof. unfold code_unit_compare, String.leb. now destruct (String.compare x y). Qed.

Lemma js_insert_sorted x l :
  Sorted code_unit_le l -> Sorted code_unit_le (js_insert code_unit_compare x l).
Proof.
  induction 1 as [|y l Hs IH Hh]; simpl.
  - repeat constructor.
  - rewrite leb_of_compare. destruct (String.leb x y) eqn:E.
    + repeat constructor; assumption.
    + constructor; [assumption|].
      assert (Hyx : code_unit_le y x).
      { destruct (String.leb_total x y) as [H|H]; [congruence | exact H]. }
      destruct l as [|z l]; simpl.
      * now constructor.
      * rewrite leb_of_compare. destruct (String.leb x z); constructor;
          [assumption | now inversion Hh].
Qed.

Lemma sort_default_sorted l : Sorted code_unit_le (sort_default l).
Proof.
  unfold sort_default, js_sort. induction l as [|x l IH]; simpl.
  - constructor.
  - now apply js_insert_sorted.
Qed.

Lemma add_key_fresh k ks : ~ In k ks -> add_key k ks = ks ++ [k].
Proof.
  intros H. unfold add_key.
  destruct (existsb (String.eqb k) ks) eqn:E; [|reflexivity].
  apply existsb_eqb_In in E. contradiction.
Qed.

Lemma delete_key_absent k ks : ~ In k ks -> delete_key k ks = ks.
Proof.
  induction ks as [|x ks IH]; simpl; intros H; [reflexivity|].
  destruct (String.eqb_spec k x) as [->|Hne]; simpl.
  - exfalso. apply H. now left.
  - f_equal. apply IH. tauto.
Qed.

Lemma delete_key_nth n (l : list json) pkg :
  NoDup (map pkg_name l) -> nth_error l n = Some pkg ->
  delete_key (pkg_name pkg) (map pkg_name l) = map pkg_name (remove_nth n l).
Proof.
  revert l. induction n as [|n IH]; intros [|x l]; simpl; try discriminate;
    intros Hd H; inversion Hd as [|? ? Hn Hd']; subst.
  - injection H as ->. rewrite String.eqb_refl. simpl.
    now apply delete_key_absent.
  - destruct (String.eqb_spec (pkg_name pkg) (pkg_name x)) as [E|Hne]; simpl.
    + exfalso. apply Hn. rewrite <- E. apply nth_error_In in H.
      now apply in_map.
    + f_equal. now apply IH.
Qed.

Lemma aggregates_app b l :
  filter is_aggregate (notices b ++ l) = aggregates b ++ filter is_aggregate l.
Proof. unfold aggregates. apply filter_app. Qed.

Lemma report_final w b :
  aggregates b = [] ->
  exists n, aggregates (report w b) = [n] /\ final_report w (report w b) n /\
            exists earlier, notices (report w b) = earlier ++ [n].
Proof.
  intros Ha. unfold report, final_report.
  destruct (failed b) as [|f fs] eqn:Ef; eexists; (split; [|split]).
  - unfold aggregates. simpl. rewrite aggregates_app, Ha. reflexivity.
  - left. simpl. split; reflexivity.
  - eexists. reflexivity.
  - unfold aggregates. cbn [notices]. rewrite aggregates_app, Ha. reflexivity.
  - right. cbn [failed succeeded]. split; [|split].
    + intros E0.
      pose proof (Permutation_length
                    (js_sort_perm code_unit_compare (f :: fs))) as L.
      unfold sort_default in E0. rewrite E0 in L. discriminate L.
    + apply sort_default_sorted.
    + reflexivity.
  - eexists. reflexivity.
Qed.

Section Report.

Variable w : wording.
Variable items : list json.
Hypothesis distinct : NoDup (map pkg_name items).
Hypothesis nonempty : items <> [].

Lemma held_distinct b : batch_inv items b -> NoDup (held b).
Proof. intros [_ Hh _ _]. eapply Permutation_NoDup; eassumption. Qed.

(** A call that finds the queue non-empty shows a counter only. *)
Lemma next_pop pkg rest b :
  pending b = pkg :: rest -> NoDup (held b) ->
  notifications b = map pkg_name (inflight b) ->
  notifications (next w b) = map pkg_name (inflight (next w b)) /\
  aggregates (next w b) = aggregates b /\
  inflight (next w b) = inflight b ++ [pkg].
Proof.
  intros E Hd Hk. unfold next. rewrite E. simpl. repeat split.
  - rewrite Hk, map_app. simpl. apply add_key_fresh.
    unfold held in Hd. rewrite E in Hd. simpl in Hd.
    inversion Hd as [|? ? Hn _]; subst. intros I. apply Hn.
    apply in_or_app. right. apply in_or_app. now left.
  - unfold aggregates at 1. simpl. rewrite aggregates_app. simpl.
    apply app_nil_r.
Qed.

Lemma iter_next_report k b :
  k <= List.length (pending b) -> NoDup (held b) ->
  notifications b = map pkg_name (inflight b) ->
  notifications (Nat.iter k (next w) b)
  = map pkg_name (inflight (Nat.iter k (next w) b)) /\
  aggregates (Nat.iter k (next w) b) = aggregates b.
Proof.
  intros Hk Hd Hn. induction k as [|k IH]; [now split|].
  destruct IH as [IHn IHa]; [lia|].
  change (Nat.iter (S k) (next w) b) with (next w (Nat.iter k (next w) b)).
  destruct (iter_next_shape w k b) as [Hp _]; [lia|].
  destruct (skipn k (pending b)) as [|pkg rest] eqn:E.
  - apply (f_equal (@List.length json)) in E. rewrite length_skipn in E.
    simpl in E. lia.
  - destruct (next_pop pkg rest _ Hp) as (H1 & H2 & _).
    + eapply Permutation_NoDup; [apply iter_next_held | exact Hd].
    + exact IHn.
    + split; [exact H1 | congruence].
Qed.

Lemma report_launch : report_inv w (launch w items).
Proof.
  unfold launch.
  set (b0 := {| total := List.length items; pending := items; inflight := [];
                notifications := []; succeeded := []; failed := [];
                notices := [] |}).
  destruct (iter_next_report (concurrency items) b0) as [Hn Ha].
  - apply concurrency_le.
  - unfold held, b0. simpl. now rewrite app_nil_r.
  - reflexivity.
  - constructor; [exact Hn|].
    destruct (launch_shape w items) as [_ Hi]. unfold launch in Hi. fold b0 in Hi.
    rewrite Hi. destruct items as [|x l]; [congruence|]. exact Ha.
Qed.

Lemma report_resume n ok b b' :
  batch_inv items b -> report_inv w b ->
  resume w n ok b = Some (Returned b') -> report_inv w b'.
Proof.
  intros Hi [Hk Hr] R.
  destruct (resume_settled _ _ _ _ _ R) as (pkg & Hn & ->).
  pose proof (held_distinct _ Hi) as Hd.
  assert (Hdi : NoDup (map pkg_name (inflight b))).
  { unfold held in Hd. apply NoDup_app_remove_l in Hd.
    now apply NoDup_app_remove_r in Hd. }
  assert (Hk1 : notifications (settled w n ok pkg b)
                = map pkg_name (inflight (settled w n ok pkg b))).
  { simpl. rewrite Hk. now apply delete_key_nth. }
  assert (Ha1 : aggregates (settled w n ok pkg b) = []).
  { destruct (inflight b) eqn:E; [destruct n; discriminate|].
    unfold aggregates in *. simpl. destruct ok; [exact Hr|].
    rewrite filter_app, Hr. reflexivity. }
  assert (Hd1 : NoDup (held (settled w n ok pkg b))).
  { eapply Permutation_NoDup; [apply settled_held; eassumption | exact Hd]. }
  destruct (pending (settled w n ok pkg b)) as [|x rest] eqn:Ep.
  - (* the queue is empty: report if nobody else is in flight *)
    unfold next. rewrite Ep.
    destruct (notifications (settled w n ok pkg b)) as [|k ks] eqn:En.
    + assert (Ei : inflight (settled w n ok pkg b) = []).
      { symmetry in Hk1. apply map_eq_nil in Hk1. exact Hk1. }
      destruct (report_same w (settled w n ok pkg b)) as (_ & _ & Hif & Hnf & Hsf).
      constructor; [now rewrite Hnf, Hif, En, Ei|].
      rewrite Hif, Ei. now apply report_final.
    + constructor; [now rewrite En|].
      destruct (inflight (settled w n ok pkg b)) eqn:Ei; [|exact Ha1].
      discriminate.
  - destruct (next_pop x rest _ Ep Hd1 Hk1) as (H1 & H2 & H3).
    constructor; [exact H1|]. rewrite H3, H2.
    destruct (inflight (settled w n ok pkg b)); exact Ha1.
Qed.

(** With distinct names a worker finds its own key, so none throws. *)
Lemma resume_good n ok b r :
  batch_inv items b -> report_inv w b -> resume w n ok b = Some r ->
  exists b', r = Returned b' /\ batch_inv items b' /\ report_inv w b'.
Proof.
  intros Hi Hr R.
  destruct (resume_cases _ _ _ _ _ R) as (pkg & Hn & [[_ E]|[N _]]).
  - subst r. exists (next w (settled w n ok pkg b)).
    split; [reflexivity|]. split.
    + eapply inv_resume; eassumption.
    + eapply report_resume; eassumption.
  - exfalso. apply N. rewrite (inv_keys _ _ Hr).
    apply in_map. eapply nth_error_In. exact Hn.
Qed.

Lemma run_good schedule : forall b r,
  batch_inv items b -> report_inv w b -> run w schedule b = Some r ->
  exists b', r = Returned b' /\ batch_inv items b' /\ report_inv w b' /\
             remaining b' + List.length schedule = remaining b.
Proof.
  induction schedule as [|[n ok] rest IH]; intros b r Hi Hr H; cbn [run] in H.
  - inversion H. exists b. split; [reflexivity|]. split; [exact Hi|].
    split; [exact Hr|]. simpl. lia.
  - destruct (resume w n ok b) as [r1|] eqn:R; [|discriminate H].
    destruct (resume_good _ _ _ _ Hi Hr R) as (b1 & -> & Hi1 & Hr1).
    destruct (IH _ _ Hi1 Hr1 H) as (b' & -> & Hi' & Hr' & L).
    exists b'. split; [reflexivity|]. split; [exact Hi'|]. split; [exact Hr'|].
    apply resume_remaining in R. simpl. lia.
Qed.

(** While work is left a worker is suspended. *)
Lemma busy b : batch_inv items b -> 0 < remaining b -> inflight b <> [].
Proof.
  intros [_ _ _ Hb] L E. unfold remaining in L. rewrite E in *. simpl in L.
  destruct (pending b); [simpl in L; lia|].
  assert (0 = concurrency items) by (apply Hb; discriminate).
  unfold concurrency in *. destruct items; [congruence | simpl in *; lia].
Qed.


(** What a run comes to, by the number of resumptions. *)
Lemma run_reports schedule r :
  run w schedule (launch w items) = Some r ->
  exists b,
    r = Returned b /\
    if (List.length schedule <? List.length items)%nat
    then inflight b <> [] /\ aggregates b = []
    else completed b = true /\
         List.length (succeeded b) + List.length (failed b) = List.length items /\
         pending b = [] /\ inflight b = [] /\ notifications b = [] /\
         exists n earlier,
           notices b = earlier ++ [n] /\ aggregates b = [n] /\
           expected_report w items schedule n.
Proof.
  intros H.
  destruct (run_good schedule _ _ (inv_launch w items) report_launch H)
    as (b & -> & Hi & Hr & L).
  rewrite launch_remaining in L.
  exists b. split; [reflexivity|].
  destruct (Nat.ltb_spec (List.length schedule) (List.length items)) as [Lt|Ge].
  - assert (B : inflight b <> []) by (apply busy; [assumption | lia]).
    split; [exact B|]. destruct Hr as [_ Hr].
    destruct (inflight b); [congruence | exact Hr].
  - assert (R0 : remaining b = 0) by lia. unfold remaining in R0.
    assert (Ei : inflight b = []) by (destruct (inflight b); [reflexivity | simpl in R0; lia]).
    assert (C : completed b = true) by (unfold completed; now rewrite Ei).
    destruct (completed_done items b nonempty Hi C) as [Hp Hsum].
    split; [exact C|]. split; [exact Hsum|].
    split; [exact Hp|]. split; [exact Ei|].
    destruct Hr as [Hk Hr]. rewrite Ei in Hk, Hr. split; [exact Hk|].
    destruct Hr as (n & Ha & Hf & earlier & He).
    exists n, earlier. split; [exact He|]. split; [exact Ha|].
    pose proof (run_failed w schedule _ _ H) as P.
    destruct (launch_shape w items) as [Sp Si].
    destruct (launch_books w items) as [_ Lf].
    rewrite Sp, Si, Lf in P. cbn [app] in P.
    fold (failures items schedule) in P.
    unfold expected_report. destruct Hf as [[F ->]|(F & Hs & ->)].
    + left. rewrite F in P. apply Permutation_nil in P.
      split; [exact P|]. rewrite F in Hsum. simpl in Hsum.
      rewrite Nat.add_0_r in Hsum. now rewrite Hsum.
    + right. split.
      * intros E. rewrite E in P. apply Permutation_sym, Permutation_nil in P.
        contradiction.
      * exists (failed b). split; [exact P|]. split; [exact Hs|].
        now rewrite (Permutation_length P).
Qed.

End Report.




(** C6 (as amended): in a batch over a non-empty list of items with
    distinct names, all strings and none [__proto__], no worker throws; as long as fewer operations have ended
    than there are items a worker is suspended and no aggregate report has
    been shown; when all have ended the queue and the notification set are
    empty and exactly one aggregate report has been shown, as the last
    notice: the success message with the number of items if no operation
    threw, else the dismissable warning naming, in sorted order, the items
    whose operation threw. *)
Theorem batch_reports_once :
  forall (w : wording) (items : list json),
    items <> [] ->
    string_names items ->
    NoDup (map pkg_name items) ->
    (forall schedule r,
       run w schedule (launch w items) = Some r ->
       exists b,
         r = Returned b /\
         if (List.length schedule <? List.length items)%nat
         then inflight b <> [] /\ aggregates b = []
         else pending b = [] /\ inflight b = [] /\ notifications b = [] /\
              exists n earlier,
                notices b = earlier ++ [n] /\ aggregates b = [n] /\
                expected_report w items schedule n) /\
    (forall schedule shown,
       List.length schedule = List.length items ->
       batch_notices w items schedule = Some shown ->
       exists n earlier,
         shown = earlier ++ [n] /\ filter is_aggregate shown = [n] /\
         expected_report w items schedule n).
Proof.
  intros w items Hne _ Hd. split.
  - intros schedule r H.
    destruct (run_reports w items Hd Hne schedule r H) as (b & -> & Hb).
    exists b. split; [reflexivity|].
    destruct (List.length schedule <? List.length items)%nat; [exact Hb|].
    destruct Hb as (_ & _ & Hb). exact Hb.
  - intros schedule shown Hl Hs. unfold batch_notices in Hs.
    destruct items as [|x l] eqn:Ei; [congruence|]. rewrite <- Ei in *.
    destruct (run w schedule (launch w items)) as [r|] eqn:R; [|discriminate].
    simpl in Hs. inversion Hs. subst shown.
    destruct (run_reports w items Hd Hne schedule r R) as (b & -> & Hb).
    rewrite Hl, Nat.ltb_irrefl in Hb.
    destruct Hb as (_ & _ & _ & _ & _ & n & earlier & He & Ha & Hx).
    exists n, earlier. cbn [state_of]. auto.
Qed.

Lemma batch_reports_once_witness :
  Sample.ten <> [] /\ NoDup (map pkg_name Sample.ten) /\
  failures Sample.ten
    (oldest_first [true; false; true; true; true; false; true; true; true; true])
  = ["p1"; "p5"]%string /\
  exists shown n earlier,
    batch_notices installing Sample.ten
      (oldest_first [true; false; true; true; true; false; true; true; true; true])
    = Some shown /\
    shown = earlier ++ [n] /\
    filter is_aggregate shown = [n] /\
    expected_report installing Sample.ten
      (oldest_first [true; false; true; true; true; false; true; true; true; true])
      n.
Proof.
  assert (Hne : Sample.ten <> []) by (vm_compute; discriminate).
  assert (Hd : NoDup (map pkg_name Sample.ten))
    by (apply unique_NoDup; vm_compute; reflexivity).
  assert (Hs : string_names Sample.ten).
  { intros pkg I. vm_compute in I.
    repeat (destruct I as [<-|I];
            [eexists; split; [reflexivity | discriminate]|]).
    destruct I. }
  split; [exact Hne|]. split; [exact Hd|]. split; [reflexivity|].
  destruct (batch_reports_once installing Sample.ten Hne Hs Hd) as [_ H].
  destruct (batch_notices installing Sample.ten
              (oldest_first [true; false; true; true; true; false; true; true; true; true]))
    as [shown|] eqn:E; [|vm_compute in E; discriminate E].
  exists shown.
  destruct (H (oldest_first [true; false; true; true; true; false; true; true; true; true])
              shown eq_refl E) as (n & earlier & H1 & H2 & H3).
  exists n, earlier. split; [reflexivity|]. auto.
Defined.

(** C6 fails as stated when nothing is selected: every backed-up package is
    installed already, the function returns before any worker starts and no
    aggregate report is shown. *)
Lemma empty_batch_reports_nothing :
  missingPackages (packages Sample.machine) (packages Sample.machine) = [] /\
  batch_notices installing
    (missingPackages (packages Sample.machine) (packages Sample.machine)) []
  = Some [] /\
  ~ (exists shown n,
       batch_notices installing
         (missingPackages (packages Sample.machine) (packages Sample.machine)) []
       = Some shown /\ filter is_aggregate shown = [n]).
Proof.
  split; [reflexivity|]. split; [reflexivity|].
  intros (shown & n & Hs & Hn). vm_compute in Hs. injection Hs as <-.
  discriminate Hn.
Qed.

(** ** Package descriptors that differ in their install source *)

Lemma added_reduce_new l qs k rv :
  In (k, rv) qs -> hasOwn l k = false ->
  In k (map fst (added_reduce l (map (nest addedDiff) qs))).
Proof.
  induction qs as [|[k' v'] qs IH]; simpl; [contradiction|].
  intros [E|I] Hh.
  - injection E as -> ->. rewrite Hh. now left.
  - destruct (hasOwn l k'); [|right; auto].
    destruct (isObject _ && isEmpty _); [|right]; auto.
Qed.

Lemma added_reduce_changed l qs k rv :
  In (k, rv) qs -> isEmpty (addedDiff (prop_get l k) rv) = false ->
  In k (map fst (added_reduce l (map (nest addedDiff) qs))).
Proof.
  induction qs as [|[k' v'] qs IH]; simpl; [contradiction|].
  intros [E|I] Hne.
  - injection E as -> ->. rewrite Hne, andb_false_r.
    destruct (hasOwn l k); now left.
  - destruct (hasOwn l k'); [|right; auto].
    destruct (isObject _ && isEmpty _); [|right]; auto.
Qed.

Lemma not_isEmpty_with_key v k : In k (object_keys v) -> isEmpty v = false.
Proof. unfold isEmpty. destruct (object_keys v); [contradiction | reflexivity]. Qed.

(** A descriptor that gained a field is an added entry of the diff. *)
Lemma addedDiff_gained_field lps rps name pl pb field v :
  assoc name lps = Some (JObj pl) ->
  assoc name rps = Some (JObj pb) ->
  assoc field pb = Some v -> assoc field pl = None ->
  In name (object_keys (addedDiff (JObj lps) (JObj rps))).
Proof.
  intros Hl Hr Hb Hp. rewrite addedDiff_eq. cbn [strict_eq isObject negb orb].
  unfold object_keys. cbn [entries own_entries].
  apply added_reduce_changed with (JObj pb); [now apply assoc_In|].
  unfold prop_get. cbn [own_entries]. rewrite Hl.
  apply not_isEmpty_with_key with field.
  rewrite addedDiff_eq. cbn [strict_eq isObject negb orb].
  unfold object_keys. cbn [entries own_entries].
  apply added_reduce_new with v; [now apply assoc_In|].
  unfold hasOwn. cbn [own_entries]. now rewrite Hp.
Qed.

Lemma added_reduce_fresh l qs k :
  hasOwn l k = false ->
  assoc k (added_reduce l (map (nest addedDiff) qs)) = assoc k qs.
Proof.
  intros Hh. induction qs as [|[k' v'] qs IH]; simpl; [reflexivity|].
  destruct (String.eqb_spec k k') as [<-|Hk].
  - rewrite Hh. simpl. now rewrite String.eqb_refl.
  - destruct (hasOwn l k');
      [destruct (isObject _ && isEmpty _)|]; simpl;
      rewrite ?(proj2 (String.eqb_neq k k') Hk); exact IH.
Qed.

Lemma added_reduce_lookup l qs k rv :
  assoc k qs = Some rv -> hasOwn l k = true ->
  isEmpty (addedDiff (prop_get l k) rv) = false ->
  assoc k (added_reduce l (map (nest addedDiff) qs))
  = Some (addedDiff (prop_get l k) rv).
Proof.
  intros A Hh Hne. induction qs as [|[k' v'] qs IH]; simpl in *;
    [discriminate A|].
  destruct (String.eqb_spec k k') as [<-|Hk].
  - injection A as ->. rewrite Hh, Hne, andb_false_r. simpl.
    now rewrite String.eqb_refl.
  - destruct (hasOwn l k');
      [destruct (isObject _ && isEmpty _)|]; simpl;
      rewrite ?(proj2 (String.eqb_neq k k') Hk); exact (IH A).
Qed.

Lemma assoc_by_key {A} (g : string -> A) k ks :
  In k ks -> assoc k (map (fun n => (n, g n)) ks) = Some (g k).
Proof.
  induction ks as [|n ks IH]; simpl; [contradiction|].
  destruct (String.eqb_spec k n) as [->|Hk]; [reflexivity|].
  intros [E|I]; [congruence | now apply IH].
Qed.

Lemma added_package_both A B name :
  truthy (packages B) && truthy (packages A) = true ->
  added_package (diffPackages A B) name
  = assoc name (own_entries (addedDiff (packages A) (packages B))).
Proof.
  intros T. unfold diffPackages. rewrite T. unfold detailedDiff. simpl.
  destruct (addedDiff_obj (packages A) (packages B)) as [pa ->].
  unfold prune. destruct (isEmpty (JObj pa)) eqn:E.
  - apply isEmpty_no_keys in E. unfold object_keys in E. simpl in E.
    destruct pa; [|discriminate E]. simpl.
    destruct (isEmpty (updatedDiff (packages A) (packages B))),
      (isEmpty (deletedDiff (packages A) (packages B))); reflexivity.
  - reflexivity.
Qed.

Lemma deleted_package_both A B name :
  truthy (packages B) && truthy (packages A) = true ->
  In name (object_keys (deletedDiff (packages A) (packages B))) ->
  deleted_package (diffPackages A B) name = Some (prop_get (packages A) name).
Proof.
  intros T I. unfold diffPackages. rewrite T. unfold detailedDiff. simpl.
  destruct (deletedDiff_obj (packages A) (packages B)) as [pd Ed].
  rewrite Ed in *. unfold prune.
  rewrite (not_isEmpty_with_key _ _ I).
  destruct (isEmpty (addedDiff (packages A) (packages B))),
    (isEmpty (updatedDiff (packages A) (packages B))); simpl;
    now apply assoc_by_key.
Qed.

(** C3 (as amended): two descriptors of one package, not called
    [__proto__], of which exactly one has the install-source field are
    never equal for the package diff.  When only the backup's descriptor
    has the field, the name is reported as added, and the entry holds the
    field with the backup's value; when only the local descriptor has it,
    the name is reported as deleted, and the entry is the local
    descriptor.  (The buckets are filled by assignment, which files
    nothing under [__proto__].) *)
Theorem install_source_mismatch_reported :
  forall (localData backupData : Snapshot) lps bps name pl pb,
    packages localData = JObj lps ->
    packages backupData = JObj bps ->
    assoc name lps = Some (JObj pl) ->
    assoc name bps = Some (JObj pb) ->
    name <> "__proto__" ->
    let d := diffPackages localData backupData in
    (assoc "apmInstallSource" pl = None ->
     forall v, assoc "apmInstallSource" pb = Some v ->
     In name (added_packages d) /\
     exists entry,
       added_package d name = Some entry /\
       assoc "apmInstallSource" (own_entries entry) = Some v) /\
    (assoc "apmInstallSource" pl <> None ->
     assoc "apmInstallSource" pb = None ->
     In name (deleted_packages d) /\
     deleted_package d name = Some (JObj pl)).
Proof.
  intros A B lps bps name pl pb EA EB Hl Hb _ d. unfold d.
  assert (T : truthy (packages B) && truthy (packages A) = true)
    by (rewrite EA, EB; reflexivity).
  split.
  - intros H1 v H2.
    assert (I : In name (object_keys (addedDiff (JObj lps) (JObj bps))))
      by (eapply addedDiff_gained_field; eassumption).
    split; [rewrite added_packages_both by assumption; now rewrite EA, EB|].
    rewrite added_package_both by assumption. rewrite EA, EB.
    assert (F : assoc "apmInstallSource"
                  (own_entries (addedDiff (JObj pl) (JObj pb))) = Some v).
    { rewrite addedDiff_eq. cbn [strict_eq isObject negb orb own_entries].
      rewrite added_reduce_fresh; [exact H2|].
      unfold hasOwn. cbn [own_entries]. now rewrite H1. }
    exists (addedDiff (JObj pl) (JObj pb)). split; [|exact F].
    rewrite addedDiff_eq. cbn [strict_eq isObject negb orb own_entries].
    replace (JObj pl) with (prop_get (JObj lps) name)
      by (unfold prop_get; cbn [own_entries]; now rewrite Hl).
    apply added_reduce_lookup.
    + exact Hb.
    + unfold hasOwn. cbn [own_entries]. now rewrite Hl.
    + unfold prop_get. cbn [own_entries]. rewrite Hl.
      apply not_isEmpty_with_key with "apmInstallSource".
      unfold object_keys. cbn [entries].
      destruct (addedDiff_obj (JObj pl) (JObj pb)) as [pa Ea].
      rewrite Ea in *. cbn [own_entries entries] in *.
      apply assoc_In in F. apply in_map_iff.
      now exists ("apmInstallSource", v).
  - intros H1 H2.
    assert (I : In name (object_keys (deletedDiff (JObj lps) (JObj bps)))).
    { rewrite <- added_deleted_keys.
      destruct (assoc "apmInstallSource" pl) as [v|] eqn:E; [|congruence].
      eapply addedDiff_gained_field; eassumption. }
    split; [rewrite deleted_packages_both by assumption; now rewrite EA, EB|].
    rewrite deleted_package_both; [|assumption|now rewrite EA, EB].
    rewrite EA. unfold prop_get. cbn [own_entries]. now rewrite Hl.
Qed.

Lemma install_source_mismatch_reported_witness :
  (In "foo" (added_packages
               (diffPackages (Sample.only "foo" Sample.from_registry)
                             (Sample.only "foo" Sample.from_source))) /\
   exists entry,
     added_package
       (diffPackages (Sample.only "foo" Sample.from_registry)
                     (Sample.only "foo" Sample.from_source)) "foo"
     = Some entry /\
     assoc "apmInstallSource" (own_entries entry) = Some (JStr "src")) /\
  (In "foo" (deleted_packages
               (diffPackages (Sample.only "foo" Sample.from_source)
                             (Sample.only "foo" Sample.from_registry))) /\
   deleted_package
     (diffPackages (Sample.only "foo" Sample.from_source)
                   (Sample.only "foo" Sample.from_registry)) "foo"
   = Some Sample.from_source).
Proof.
  split.
  - apply (install_source_mismatch_reported
             (Sample.only "foo" Sample.from_registry)
             (Sample.only "foo" Sample.from_source)
             [("foo", Sample.from_registry)] [("foo", Sample.from_source)] "foo"
             [("version", JStr "1.0")]
             [("version", JStr "1.0"); ("apmInstallSource", JStr "src")]
             eq_refl eq_refl eq_refl eq_refl);
      [discriminate | reflexivity | reflexivity].
  - apply (install_source_mismatch_reported
             (Sample.only "foo" Sample.from_source)
             (Sample.only "foo" Sample.from_registry)
             [("foo", Sample.from_source)] [("foo", Sample.from_registry)] "foo"
             [("version", JStr "1.0"); ("apmInstallSource", JStr "src")]
             [("version", JStr "1.0")]
             eq_refl eq_refl eq_refl eq_refl);
      [discriminate | discriminate | reflexivity].
Defined.

(** C3 fails as stated: the backup's descriptor of [foo] has an install
    source and the installed one has none, name and version equal.  The
    diff reports [foo] as added, with the new field only, and has no updated
    bucket; the filter of [installMissingPackages] reads the install source
    of the package's name instead of its descriptor, and selects nothing. *)
Lemma install_source_mismatch_counterexample :
  diffPackages (Sample.only "foo" Sample.from_registry)
               (Sample.only "foo" Sample.from_source)
  = Some {| packages_added :=
              Some (JObj [("foo", JObj [("apmInstallSource", JStr "src")])]);
            packages_updated := None;
            packages_deleted := None |} /\
  ~ In "foo" (updated_packages
                (diffPackages (Sample.only "foo" Sample.from_registry)
                              (Sample.only "foo" Sample.from_source))) /\
  missingPackages (JObj [("foo", Sample.from_registry)])
                  (JObj [("foo", Sample.from_source)]) = [].
Proof.
  split; [reflexivity|]. split; [|reflexivity].
  simpl. tauto.
Qed.

(** ** Malformed JSON in a backup *)

Section ClassifierProps.

Variable JSON_parse : string -> option json.
Variable syntax_error : string -> string.
Variable type_error : string.
Variable resolve : string -> string -> string.
Variable configDirPath userKeymapPath userStyleSheetPath : string.
Variable minimatch : string -> string -> bool.
Variable isBundledPackage : string -> bool.
Variable localeCompare : string -> string -> Z.
Variable cfg : Atom.config.

Let blob :=
  classifyBlob JSON_parse syntax_error type_error resolve configDirPath
    userKeymapPath userStyleSheetPath minimatch isBundledPackage cfg.
Let blobs_loop :=
  classifyBlobs JSON_parse syntax_error type_error resolve configDirPath
    userKeymapPath userStyleSheetPath minimatch isBundledPackage cfg.

Lemma malformed_throws data fileName text :
  parsed_as_json cfg fileName = true -> JSON_parse text = None ->
  blob data fileName text = (fileName, Throw (syntax_error text)).
Proof.
  unfold parsed_as_json, blob, classifyBlob. intros H Hp.
  destruct (String.eqb_spec fileName "settings.json") as [->|Hs].
  - simpl in H. rewrite orb_false_r in H. rewrite H.
    unfold parse. now rewrite Hp.
  - simpl in H.
    destruct (String.eqb_spec fileName "packages.json") as [->|Hq];
      [|discriminate].
    simpl in H. rewrite H. unfold parsePackages, parse. now rewrite Hp.
Qed.

Lemma only_json_throws data fileName text name err :
  blob data fileName text = (name, Throw err) ->
  name = fileName /\ parsed_as_json cfg fileName = true.
Proof.
  unfold parsed_as_json, blob, classifyBlob.
  destruct (String.eqb_spec fileName "settings.json") as [->|Hs].
  - destruct (flag cfg "sync-settings.syncSettings"); [|discriminate].
    intros [= <- _]. auto.
  - destruct (String.eqb_spec fileName "packages.json") as [->|Hq].
    + destruct (flag cfg "sync-settings.syncPackages"
                || flag cfg "sync-settings.syncThemes"); [|discriminate].
      intros [= <- _]. auto.
    + repeat match goal with
             | |- context [if ?c then (_, _) else _] => destruct c
             end; discriminate.
Qed.

Lemma classifyBlobs_malformed blobs data fileName text :
  In (fileName, text) blobs ->
  parsed_as_json cfg fileName = true -> JSON_parse text = None ->
  exists offending err,
    blobs_loop data blobs = inr (parse_error offending err) /\
    parsed_as_json cfg offending = true /\
    exists data' text',
      In (offending, text') blobs /\
      blob data' offending text' = (offending, Throw err).
Proof.
  revert data. induction blobs as [|[f t] rest IH]; simpl; [contradiction|].
  intros data [E|I] Hj Hp.
  - injection E as -> ->. fold blob.
    rewrite (malformed_throws data _ _ Hj Hp).
    exists fileName, (syntax_error text). repeat split; try assumption.
    exists data, text. split; [now left | now apply malformed_throws].
  - fold blob.
    destruct (blob data f t) as [name [data'|err]] eqn:E.
    + destruct (IH data' I Hj Hp) as (o & e & H1 & H2 & d & t' & H3 & H4).
      exists o, e. repeat split; try assumption.
      exists d, t'. split; [now right | assumption].
    + destruct (only_json_throws _ _ _ _ _ E) as [-> Hf].
      exists f, err. repeat split; try assumption.
      exists data, t. split; [now left | assumption].
Qed.

End ClassifierProps.

(** C4 (as amended): when the settings blob is malformed JSON and settings
    are synchronised, or the packages blob is and packages or themes are
    synchronised, [getBackupData] returns no snapshot and notifies exactly
    one error, which names a blob of the backup that is parsed as JSON and
    whose parsing threw, with the text of what it threw. *)
Theorem getBackupData_malformed_json_aborts :
  forall JSON_parse syntax_error type_error resolve configDirPath
         userKeymapPath userStyleSheetPath minimatch isBundledPackage
         localeCompare cfg blobs fileName text,
    In (fileName, text) blobs ->
    parsed_as_json cfg fileName = true ->
    JSON_parse text = None ->
    exists offending err,
      getBackupData JSON_parse syntax_error type_error resolve configDirPath
        userKeymapPath userStyleSheetPath minimatch isBundledPackage
        localeCompare cfg blobs
      = (None, [parse_error offending err]) /\
      parsed_as_json cfg offending = true /\
      exists data text',
        In (offending, text') blobs /\
        classifyBlob JSON_parse syntax_error type_error resolve configDirPath
          userKeymapPath userStyleSheetPath minimatch isBundledPackage cfg
          data offending text'
        = (offending, Throw err).
Proof.
  intros JSON_parse syntax_error type_error resolve configDirPath
         userKeymapPath userStyleSheetPath minimatch isBundledPackage
         localeCompare cfg blobs fileName text HI HJ HP.
  destruct (classifyBlobs_malformed JSON_parse syntax_error type_error resolve
              configDirPath userKeymapPath userStyleSheetPath minimatch
              isBundledPackage cfg blobs
              {| draft_settings := JNull; draft_packages := JNull;
                 draft_files := [] |} fileName text HI HJ HP)
    as (o & e & H1 & H2 & H3).
  exists o, e. unfold getBackupData. rewrite H1. auto.
Qed.

Lemma getBackupData_malformed_json_aborts_witness :
  exists offending err,
    Sample.classify_with Sample.sync_settings_on
      [("keymap.cson", "k"); ("settings.json", "{"); ("packages.json", "{}")]
    = (None, [parse_error offending err]) /\
    parsed_as_json Sample.sync_settings_on offending = true.
Proof.
  destruct (getBackupData_malformed_json_aborts
              Sample.parse_two Sample.syntax_error Sample.type_error
              Sample.resolve "/atom" "/atom/keymap.cson" "/atom/styles.less"
              Sample.no_glob Sample.not_bundled code_unit_compare
              Sample.sync_settings_on
              [("keymap.cson", "k"); ("settings.json", "{"); ("packages.json", "{}")]
              "settings.json" "{")
    as (o & e & H1 & H2 & _).
  - simpl. auto.
  - reflexivity.
  - reflexivity.
  - exists o, e. split; [exact H1 | exact H2].
Defined.

(** C4 fails as stated when the category is switched off: with settings not
    synchronised a malformed settings blob is never parsed, a snapshot is
    returned and nothing is notified. *)
Lemma malformed_settings_skipped_when_disabled :
  Sample.parse_two "{" = None /\
  Sample.classify_with Sample.sync_nothing
    [("settings.json", "{"); ("init.js", "x")]
  = (Some {| settings := JNull; packages := JNull; files := None |}, []).
Proof. split; reflexivity. Qed.

(** ** Key paths: deleting and setting *)

Lemma assoc_del_same {A} k (ps : list (string * A)) : assoc k (assoc_del k ps) = None.
Proof.
  induction ps as [|[k' v] ps IH]; simpl; [reflexivity|].
  destruct (String.eqb_spec k k') as [->|Hne]; [assumption|].
  simpl. destruct (String.eqb_spec k k'); [contradiction | assumption].
Qed.

Lemma assoc_del_other {A} k k' (ps : list (string * A)) :
  k <> k' -> assoc k (assoc_del k' ps) = assoc k ps.
Proof.
  intros Hne. induction ps as [|[x v] ps IH]; simpl; [reflexivity|].
  destruct (String.eqb_spec k' x) as [->|Hx].
  - destruct (String.eqb_spec k x); [contradiction | assumption].
  - simpl. destruct (String.eqb_spec k x); [reflexivity | assumption].
Qed.

Lemma assoc_set_same {A} k (v : A) ps : assoc k (assoc_set k v ps) = Some v.
Proof.
  induction ps as [|[k' v'] ps IH]; simpl.
  - now rewrite String.eqb_refl.
  - destruct (String.eqb_spec k k') as [->|Hne]; simpl.
    + now rewrite String.eqb_refl.
    + destruct (String.eqb_spec k k'); [contradiction | assumption].
Qed.

Lemma assoc_set_other {A} k k' (v : A) ps :
  k <> k' -> assoc k (assoc_set k' v ps) = assoc k ps.
Proof.
  intros Hne. induction ps as [|[x v'] ps IH]; simpl.
  - destruct (String.eqb_spec k k'); [contradiction | reflexivity].
  - destruct (String.eqb_spec k' x) as [->|Hx]; simpl.
    + destruct (String.eqb_spec k x); [contradiction | reflexivity].
    + destruct (String.eqb_spec k x); [reflexivity | assumption].
Qed.

Lemma assoc_set_idem {A} k (v : A) ps : assoc k ps = Some v -> assoc_set k v ps = ps.
Proof.
  induction ps as [|[k' v'] ps IH]; simpl; [discriminate|].
  destruct (String.eqb_spec k k') as [->|Hne].
  - now intros [= ->].
  - intros H. now rewrite IH.
Qed.

Lemma has_keys_at_path keys obj :
  has_keys keys obj = match at_path keys obj with Some _ => true | None => false end.
Proof.
  revert obj. induction keys as [|k rest IH]; simpl; intros obj; [reflexivity|].
  destruct (assoc k (kp_props obj)); [apply IH | reflexivity].
Qed.

Lemma kp_props_put obj k v :
  kp_props (kp_put obj k v)
  = match obj with JObj ps => assoc_set k v ps | _ => [] end.
Proof. now destruct obj. Qed.

Lemma kp_get_nullish_or_found obj k :
  is_nullish (kp_get obj k) = false -> assoc k (kp_props obj) = Some (kp_get obj k).
Proof. unfold kp_get. now destruct (assoc k (kp_props obj)). Qed.

(** Deleting a key path removes it. *)
Lemma delete_keys_removes keys obj :
  keys <> [] -> has_keys keys (delete_keys keys obj) = false.
Proof.
  revert obj. induction keys as [|k rest IH]; [congruence|]. intros obj _.
  destruct rest as [|k2 rest].
  - simpl. destruct obj; simpl; try reflexivity. now rewrite assoc_del_same.
  - change (delete_keys (k :: k2 :: rest) obj)
      with (if is_nullish (kp_get obj k) then obj
            else kp_put obj k (delete_keys (k2 :: rest) (kp_get obj k))).
    destruct (is_nullish (kp_get obj k)) eqn:E.
    + unfold kp_get in E. cbn [has_keys].
      destruct (assoc k (kp_props obj)) as [o|]; [|reflexivity].
      destruct o; try discriminate; reflexivity.
    + pose proof (kp_get_nullish_or_found _ _ E) as F.
      destruct obj as [ | | | | | | ps]; try discriminate F.
      change (has_keys (k :: k2 :: rest) (kp_put (JObj ps) k
                (delete_keys (k2 :: rest) (kp_get (JObj ps) k))))
        with (match assoc k (assoc_set k (delete_keys (k2 :: rest)
                                            (kp_get (JObj ps) k)) ps) with
              | Some o => has_keys (k2 :: rest) o
              | None => false
              end).
      rewrite assoc_set_same. apply IH. discriminate.
Qed.

(** Deleting never makes a key path appear. *)
Lemma delete_keys_keeps_absent keys' keys obj :
  has_keys keys obj = false -> has_keys keys (delete_keys keys' obj) = false.
Proof.
  revert keys obj. induction keys' as [|k' rest' IH]; intros keys obj H;
    [exact H|].
  destruct keys as [|k rest]; [discriminate H|].
  destruct rest' as [|k2 rest'].
  - simpl delete_keys. destruct obj as [ | | | | | | ps]; try exact H.
    simpl in *. destruct (String.eqb_spec k k') as [->|Hne].
    + now rewrite assoc_del_same.
    + now rewrite assoc_del_other.
  - change (delete_keys (k' :: k2 :: rest') obj)
      with (if is_nullish (kp_get obj k') then obj
            else kp_put obj k' (delete_keys (k2 :: rest') (kp_get obj k'))).
    destruct (is_nullish (kp_get obj k')) eqn:E; [exact H|].
    pose proof (kp_get_nullish_or_found _ _ E) as F.
    destruct obj as [ | | | | | | ps]; try discriminate F.
    simpl in *. destruct (String.eqb_spec k k') as [->|Hne].
    + rewrite assoc_set_same. apply IH. now rewrite F in H.
    + now rewrite assoc_set_other.
Qed.

Lemma raw_split_nonempty escaped acc s : raw_split escaped acc s <> [].
Proof.
  revert escaped acc. induction s as [|c s IH]; simpl; intros; [discriminate|].
  destruct (Ascii.eqb c dot && negb escaped); [discriminate | apply IH].
Qed.

Lemma splitKeyPath_nonempty keyPath : splitKeyPath keyPath <> [].
Proof.
  unfold splitKeyPath. intros H. apply map_eq_nil in H.
  now apply raw_split_nonempty in H.
Qed.

Lemma kp_get_mutate_at k f obj :
  kp_get (mutate_at k f obj) k
  = match assoc k (kp_props obj) with Some o => f o | None => JUndef end.
Proof.
  unfold mutate_at, kp_get.
  destruct (assoc k (kp_props obj)) as [o|] eqn:E; [|now rewrite E].
  destruct obj as [ | | | | | | ps]; try discriminate E.
  simpl. now rewrite assoc_set_same.
Qed.

Lemma has_keys_undef keys : keys <> [] -> has_keys keys JUndef = false.
Proof. destruct keys; [congruence | reflexivity]. Qed.

Section Outbound.

Variable keyPath : string.

Let absent (settings : json) : Prop :=
  hasKeyPath (kp_get settings "*") keyPath = false.

Let strip (settings : json) (blacklistedKey : string) : json :=
  mutate_at "*" (fun o => deleteValueAtKeyPath o blacklistedKey) settings.

Lemma strip_removes settings : absent (strip settings keyPath).
Proof.
  unfold absent, strip, hasKeyPath. rewrite kp_get_mutate_at.
  destruct (assoc "*" (kp_props settings)).
  - apply delete_keys_removes, splitKeyPath_nonempty.
  - apply has_keys_undef, splitKeyPath_nonempty.
Qed.

Lemma strip_keeps settings other : absent settings -> absent (strip settings other).
Proof.
  unfold absent, strip, hasKeyPath. rewrite kp_get_mutate_at. unfold kp_get.
  destruct (assoc "*" (kp_props settings)); intros H.
  - now apply delete_keys_keeps_absent.
  - apply has_keys_undef, splitKeyPath_nonempty.
Qed.

Lemma strip_all keys settings :
  In keyPath keys \/ absent settings -> absent (fold_left strip keys settings).
Proof.
  revert settings. induction keys as [|k keys IH]; simpl; intros settings H.
  - destruct H as [[]|H]. exact H.
  - apply IH. destruct H as [[->|I]|H]; auto.
    + right. apply strip_removes.
    + right. now apply strip_keeps.
Qed.

Lemma getFilteredSettings_excludes cfg :
  In keyPath (blacklistedKeys cfg) ->
  hasKeyPath (kp_get (getFilteredSettings cfg) "*") keyPath = false.
Proof. intros H. unfold getFilteredSettings. apply strip_all. now left. Qed.

End Outbound.

Lemma set_keys_cons2 k k2 rest v obj :
  set_keys (k :: k2 :: rest) v obj
  = kp_put obj k (set_keys (k2 :: rest) v
                    (if is_nullish (kp_get obj k) then JObj [] else kp_get obj k)).
Proof. reflexivity. Qed.

Lemma at_path_cons_inv k rest obj v :
  at_path (k :: rest) obj = Some v ->
  exists ps o, obj = JObj ps /\ assoc k ps = Some o /\ at_path rest o = Some v.
Proof.
  simpl. destruct (assoc k (kp_props obj)) as [o|] eqn:E; [|discriminate].
  destruct obj as [ | | | | | | ps]; try discriminate E. eauto.
Qed.

Lemma at_path_plain k rest obj v :
  at_path (k :: rest) obj = Some v -> is_nullish obj = false.
Proof.
  intros H. destruct (at_path_cons_inv _ _ _ _ H) as (ps & o & -> & _). reflexivity.
Qed.

(** A value under a path of own properties is what [getValueAtKeyPath]
    reads; conversely a value read that is neither [undefined] nor [null]
    sits under such a path. *)
Lemma at_path_get_keys keys obj v :
  at_path keys obj = Some v -> get_keys keys obj = v.
Proof.
  revert obj. induction keys as [|k rest IH]; simpl; intros obj.
  - now intros [= ->].
  - unfold kp_get. destruct (assoc k (kp_props obj)) as [o|]; [|discriminate].
    intros H. destruct (is_nullish o) eqn:E; [|now apply IH].
    destruct rest as [|k2 rest]; [simpl in H; congruence|].
    apply at_path_plain in H. congruence.
Qed.

Lemma get_keys_at_path keys obj :
  is_nullish (get_keys keys obj) = false ->
  at_path keys obj = Some (get_keys keys obj).
Proof.
  revert obj. induction keys as [|k rest IH]; simpl; intros obj; [reflexivity|].
  unfold kp_get. destruct (assoc k (kp_props obj)) as [o|]; [|discriminate].
  destruct (is_nullish o) eqn:E; [congruence | apply IH].
Qed.

Lemma at_path_settable keys obj v :
  at_path keys obj = Some v -> settable keys obj = true.
Proof.
  revert obj. induction keys as [|k rest IH]; intros obj H; [reflexivity|].
  destruct (at_path_cons_inv _ _ _ _ H) as (ps & o & -> & Ho & Hr).
  cbn [settable is_plain_object andb]. destruct rest; [reflexivity|].
  unfold kp_get. cbn [kp_props]. rewrite Ho. rewrite (IH _ Hr). apply orb_true_r.
Qed.

Lemma settable_empty keys : settable keys (JObj []) = true.
Proof. destruct keys as [|k [|k2 rest]]; reflexivity. Qed.

(** Writing under a settable key path puts the value there. *)
Lemma set_keys_at_path keys v obj :
  keys <> [] -> settable keys obj = true ->
  at_path keys (set_keys keys v obj) = Some v.
Proof.
  revert obj. induction keys as [|k rest IH]; [congruence|]. intros obj _ Hs.
  cbn [settable] in Hs. apply andb_true_iff in Hs as [Hp Hs].
  destruct obj as [ | | | | | | ps]; try discriminate Hp.
  destruct rest as [|k2 rest].
  - simpl. now rewrite assoc_set_same.
  - rewrite set_keys_cons2. cbn [at_path kp_put kp_props].
    rewrite assoc_set_same. apply IH; [discriminate|].
    destruct (is_nullish (kp_get (JObj ps) k)); [apply settable_empty | exact Hs].
Qed.

(** Writing the value a path already holds changes nothing. *)
Lemma set_keys_same keys v obj :
  keys <> [] -> at_path keys obj = Some v -> set_keys keys v obj = obj.
Proof.
  revert obj. induction keys as [|k rest IH]; [congruence|]. intros obj _ H.
  destruct (at_path_cons_inv _ _ _ _ H) as (ps & o & -> & Ho & Hr).
  destruct rest as [|k2 rest].
  - simpl in *. injection Hr as ->. now rewrite assoc_set_idem.
  - rewrite set_keys_cons2. unfold kp_get. cbn [kp_props]. rewrite Ho.
    rewrite (at_path_plain _ _ _ _ Hr).
    rewrite IH by (discriminate || assumption).
    cbn [kp_put]. now rewrite assoc_set_idem.
Qed.

Lemma kp_get_put_same ps k v : kp_get (kp_put (JObj ps) k v) k = v.
Proof. unfold kp_get. simpl. now rewrite assoc_set_same. Qed.

Lemma kp_get_put_other ps k k' v :
  k <> k' -> kp_get (kp_put (JObj ps) k' v) k = kp_get (JObj ps) k.
Proof. intros H. unfold kp_get. simpl. now rewrite assoc_set_other. Qed.

(** Two key paths and the values the live tree holds under them. *)
Lemma set_keys_frame keys' :
  forall keys live tree v' v,
    keys' <> [] ->
    at_path keys' live = Some v' -> at_path keys live = Some v ->
    at_path keys tree = Some v ->
    at_path keys (set_keys keys' v' tree) = Some v.
Proof.
  induction keys' as [|k' rest' IH]; [congruence|].
  intros keys live tree v' v _ Hl' Hl Ht.
  destruct keys as [|k rest].
  - simpl in Hl, Ht. injection Hl as <-. injection Ht as ->.
    cbn [at_path]. f_equal. apply set_keys_same; [discriminate | assumption].
  - destruct (at_path_cons_inv _ _ _ _ Hl') as (lps & lo' & -> & Hlo' & Hlr').
    destruct (at_path_cons_inv _ _ _ _ Hl) as (lps2 & lo & E & Hlo & Hlr).
    injection E as <-.
    destruct (at_path_cons_inv _ _ _ _ Ht) as (tps & to & -> & Hto & Htr).
    destruct (String.eqb_spec k k') as [->|Hne].
    + rewrite Hlo in Hlo'. injection Hlo' as <-.
      destruct rest' as [|k2' rest'].
      * simpl in Hlr'. injection Hlr' as <-.
        simpl. now rewrite assoc_set_same.
      * rewrite set_keys_cons2. unfold kp_get. cbn [kp_props kp_put at_path].
        rewrite Hto, assoc_set_same.
        assert (Hn : is_nullish to = false).
        { destruct rest as [|k2 rest].
          - simpl in Hlr, Htr. injection Hlr as <-. injection Htr as ->.
            now apply at_path_plain in Hlr'.
          - now apply at_path_plain in Htr. }
        rewrite Hn. apply IH with lo; (discriminate || assumption).
    + destruct rest' as [|k2' rest'].
      * simpl. rewrite assoc_set_other by assumption. now rewrite Hto.
      * rewrite set_keys_cons2. cbn [kp_props kp_put at_path].
        rewrite assoc_set_other by assumption. now rewrite Hto.
Qed.

Lemma set_keys_plain keys v obj :
  is_plain_object (set_keys keys v obj) = is_plain_object obj.
Proof.
  destruct keys as [|k [|k2 rest]]; [reflexivity | |];
    try rewrite set_keys_cons2; destruct obj; reflexivity.
Qed.

Lemma set_keys_settable keys' :
  forall keys live tree v' v,
    keys' <> [] ->
    at_path keys' live = Some v' -> at_path keys live = Some v ->
    settable keys tree = true ->
    settable keys (set_keys keys' v' tree) = true.
Proof.
  induction keys' as [|k' rest' IH]; [congruence|].
  intros keys live tree v' v _ Hl' Hl Hs.
  destruct keys as [|k rest]; [reflexivity|].
  cbn [settable] in *. apply andb_true_iff in Hs as [Hp Hs].
  rewrite set_keys_plain, Hp. cbn [andb].
  destruct rest as [|k2 rest]; [reflexivity|].
  destruct tree as [ | | | | | | tps]; try discriminate Hp.
  destruct (at_path_cons_inv _ _ _ _ Hl') as (lps & lo' & -> & Hlo' & Hlr').
  destruct (at_path_cons_inv _ _ _ _ Hl) as (lps2 & lo & E & Hlo & Hlr).
  injection E as <-.
  destruct (String.eqb_spec k k') as [->|Hne].
  - rewrite Hlo in Hlo'. injection Hlo' as <-.
    destruct rest' as [|k2' rest'].
    + simpl in Hlr'. injection Hlr' as <-.
      change (set_keys [k'] lo (JObj tps)) with (kp_put (JObj tps) k' lo).
      rewrite kp_get_put_same.
      rewrite (at_path_settable _ _ _ Hlr). apply orb_true_r.
    + rewrite set_keys_cons2, kp_get_put_same.
      apply orb_true_iff. right. apply IH with lo v; try (discriminate || assumption).
      destruct (is_nullish (kp_get (JObj tps) k')) eqn:En;
        [apply settable_empty|].
      exact Hs.
  - assert (Hsame : kp_get (set_keys (k' :: rest') v' (JObj tps)) k
                    = kp_get (JObj tps) k).
    { destruct rest' as [|k2' rest']; [|rewrite set_keys_cons2];
        [change (set_keys [k'] v' (JObj tps)) with (kp_put (JObj tps) k' v')|];
        now apply kp_get_put_other. }
    rewrite Hsame. exact Hs.
Qed.


(** ** Re-seeding the inbound tree *)

Section Reseed.

Variable cfg : Atom.config.
Variable target : string.
Variable v : json.

Let live := Atom.cfg_settings cfg.

Hypothesis target_live : at_path (splitKeyPath target) live = Some v.

Lemma live_at_path k :
  reads_live cfg k -> Atom.get cfg k <> JUndef ->
  at_path (splitKeyPath k) live = Some (Atom.get cfg k).
Proof.
  intros [Hk Hn] Hu. unfold Atom.get, getValueAtKeyPath in *.
  destruct (String.eqb_spec k "") as [|_]; [contradiction|].
  apply get_keys_at_path.
  destruct (get_keys (splitKeyPath k) (Atom.cfg_settings cfg));
    try reflexivity; congruence.
Qed.

Lemma seed_one_cases o k :
  (Atom.get cfg k = JUndef /\ seed_one cfg o k = o) \/
  (Atom.get cfg k <> JUndef /\
   seed_one cfg o k = set_keys (splitKeyPath k) (Atom.get cfg k) o).
Proof.
  unfold seed_one, setValueAtKeyPath.
  destruct (Atom.get cfg k); (left; split; reflexivity) || (right; split; [discriminate | reflexivity]).
Qed.

Lemma seed_one_keeps o k :
  reads_live cfg k ->
  at_path (splitKeyPath target) o = Some v ->
  at_path (splitKeyPath target) (seed_one cfg o k) = Some v.
Proof.
  intros Hk Ho. destruct (seed_one_cases o k) as [[_ ->]|[Hu ->]]; [exact Ho|].
  apply set_keys_frame with live.
  - apply splitKeyPath_nonempty.
  - now apply live_at_path.
  - exact target_live.
  - exact Ho.
Qed.

Lemma seed_one_settable o k :
  reads_live cfg k ->
  settable (splitKeyPath target) o = true ->
  settable (splitKeyPath target) (seed_one cfg o k) = true.
Proof.
  intros Hk Ho. destruct (seed_one_cases o k) as [[_ ->]|[Hu ->]]; [exact Ho|].
  apply set_keys_settable with live v.
  - apply splitKeyPath_nonempty.
  - now apply live_at_path.
  - exact target_live.
  - exact Ho.
Qed.

Lemma reseed_keeps keys o :
  Forall (reads_live cfg) keys ->
  at_path (splitKeyPath target) o = Some v ->
  at_path (splitKeyPath target) (reseed cfg keys o) = Some v.
Proof.
  intros H. revert o. induction H as [|k keys Hk _ IH]; intros o Ho; [exact Ho|].
  apply (IH (seed_one cfg o k)). now apply seed_one_keeps.
Qed.

Lemma reseed_sets keys o :
  Forall (reads_live cfg) keys -> In target keys ->
  Atom.get cfg target = v -> v <> JUndef ->
  settable (splitKeyPath target) o = true ->
  at_path (splitKeyPath target) (reseed cfg keys o) = Some v.
Proof.
  intros H. revert o. induction H as [|k keys Hk Hks IH]; intros o HI Hv Hu Ho;
    [contradiction|].
  change (reseed cfg (k :: keys) o) with (reseed cfg keys (seed_one cfg o k)).
  destruct (String.eqb_spec k target) as [->|Hne].
  - apply reseed_keeps; [assumption|].
    destruct (seed_one_cases o target) as [[E _]|[_ ->]]; [congruence|].
    rewrite Hv. apply set_keys_at_path; [apply splitKeyPath_nonempty | exact Ho].
  - destruct HI as [E|HI]; [contradiction|].
    apply IH; try assumption. now apply seed_one_settable.
Qed.

End Reseed.

(** ** What [updateSettings] hands to the config store *)

Lemma assoc_set_twice {A} k (v1 v2 : A) ps :
  assoc_set k v2 (assoc_set k v1 ps) = assoc_set k v2 ps.
Proof.
  induction ps as [|[k' v'] ps IH]; simpl.
  - now rewrite String.eqb_refl.
  - destruct (String.eqb_spec k k') as [->|Hne]; simpl.
    + now rewrite String.eqb_refl.
    + destruct (String.eqb_spec k k'); [contradiction|]. now rewrite IH.
Qed.

Lemma assoc_set_keys {A} k (v v0 : A) ps :
  assoc k ps = Some v0 -> map fst (assoc_set k v ps) = map fst ps.
Proof.
  induction ps as [|[k' v'] ps IH]; simpl; [discriminate|].
  destruct (String.eqb_spec k k') as [->|Hne]; simpl; [reflexivity|].
  intros H. now rewrite IH.
Qed.

Lemma addFilteredSettings_fold cfg keys ps t :
  assoc "*" ps = Some t ->
  fold_left
    (fun settings blacklistedKey =>
       match Atom.get cfg blacklistedKey with
       | JUndef => settings
       | v => mutate_at "*" (fun o => setValueAtKeyPath o blacklistedKey v) settings
       end) keys (JObj ps)
  = JObj (assoc_set "*" (reseed cfg keys t) ps).
Proof.
  revert ps t. induction keys as [|k keys IH]; intros ps t H.
  - simpl. now rewrite assoc_set_idem.
  - cbn [fold_left].
    assert (E : match Atom.get cfg k with
                | JUndef => JObj ps
                | v => mutate_at "*" (fun o => setValueAtKeyPath o k v) (JObj ps)
                end = JObj (assoc_set "*" (seed_one cfg t k) ps)).
    { unfold seed_one, mutate_at. cbn [kp_props]. rewrite H.
      destruct (Atom.get cfg k); try reflexivity. now rewrite assoc_set_idem. }
    rewrite E. rewrite (IH _ (seed_one cfg t k)) by apply assoc_set_same.
    now rewrite assoc_set_twice.
Qed.

Lemma addFilteredSettings_star cfg ps t :
  assoc "*" ps = Some t ->
  addFilteredSettings cfg (JObj ps)
  = JObj (assoc_set "*" (reseed cfg (blacklistedKeys cfg) t) ps).
Proof. apply addFilteredSettings_fold. Qed.

Lemma set_null_other_scopes qs c :
  ~ In "*" (map fst qs) ->
  Atom.cfg_settings (fold_left (fun c p => Atom.set_null c (snd p) (fst p)) qs c)
  = Atom.cfg_settings c.
Proof.
  revert c. induction qs as [|[k x] qs IH]; simpl; intros c H; [reflexivity|].
  rewrite IH by tauto. unfold Atom.set_null.
  destruct (String.eqb_spec k "*") as [->|_]; [|reflexivity].
  exfalso. apply H. now left.
Qed.

Lemma set_null_global qs c t :
  unique (map fst qs) = true -> assoc "*" qs = Some t ->
  Atom.cfg_settings (fold_left (fun c p => Atom.set_null c (snd p) (fst p)) qs c)
  = t.
Proof.
  revert c. induction qs as [|[k x] qs IH];
    cbn [assoc unique map fst snd fold_left]; intros c Hu H; [discriminate|].
  apply andb_true_iff in Hu as [Hn Hu].
  destruct (String.eqb_spec "*" k) as [<-|Hne].
  - injection H as ->. rewrite set_null_other_scopes.
    + unfold Atom.set_null. now rewrite String.eqb_refl.
    + intros I. apply existsb_eqb_In in I. rewrite I in Hn. discriminate.
  - now apply IH.
Qed.

Lemma some_inj {A} (a b : A) : Some a = Some b -> a = b.
Proof. now intros [= ->]. Qed.

Lemma updateSettings_global cfg inbound cfg' :
  wf inbound = true -> updateSettings cfg inbound = Some cfg' ->
  Atom.cfg_settings cfg' = reseed cfg (blacklistedKeys cfg) (global_tree inbound).
Proof.
  unfold updateSettings, updateSettings_calls, global_tree, scoped_tree.
  intros Hwf.
  destruct (has_star inbound) as [[|]|] eqn:Hs; [| |discriminate].
  - destruct inbound as [ | | | | | | ps]; try discriminate Hs.
    simpl in Hs. destruct (assoc "*" ps) as [t|] eqn:E; [|discriminate].
    rewrite (addFilteredSettings_star cfg ps t E).
    intros H. apply some_inj in H. subst cfg'.
    unfold kp_get. cbn [kp_props entries]. rewrite E.
    simpl in Hwf. apply andb_true_iff in Hwf as [Hu _].
    apply set_null_global; [|apply assoc_set_same].
    now rewrite (assoc_set_keys _ _ t _ E).
  - rewrite (addFilteredSettings_star cfg [("*", inbound)] inbound eq_refl).
    intros H. apply some_inj in H. subst cfg'.
    apply set_null_global; reflexivity.
Qed.

(** C10: a restored tree without a top-level [*] key is wrapped as the
    global scope before the blacklisted keys are re-seeded: the config store
    gets a single call, for the scope [*], with the whole re-seeded tree, as
    for the backup [{ '*': tree }]. *)
Theorem updateSettings_wraps_legacy :
  forall (cfg : Atom.config) (settings : json),
    has_star settings = Some false ->
    updateSettings_calls cfg settings
    = Some [("*", reseed cfg (blacklistedKeys cfg) settings)] /\
    updateSettings cfg settings
    = Some (Atom.set_null cfg (reseed cfg (blacklistedKeys cfg) settings) "*") /\
    updateSettings cfg settings = updateSettings cfg (JObj [("*", settings)]).
Proof.
  intros cfg settings H.
  assert (E : updateSettings_calls cfg settings
              = Some [("*", reseed cfg (blacklistedKeys cfg) settings)]).
  { unfold updateSettings_calls, scoped_tree. rewrite H.
    now rewrite (addFilteredSettings_star cfg [("*", settings)] settings eq_refl). }
  assert (E' : updateSettings_calls cfg (JObj [("*", settings)])
               = Some [("*", reseed cfg (blacklistedKeys cfg) settings)]).
  { unfold updateSettings_calls, scoped_tree. simpl has_star. cbv iota.
    now rewrite (addFilteredSettings_star cfg [("*", settings)] settings eq_refl). }
  split; [exact E|]. unfold updateSettings. rewrite E, E'. split; reflexivity.
Qed.

Lemma updateSettings_wraps_legacy_witness :
  updateSettings_calls Sample.live Sample.legacy
  = Some [("*", JObj [("editor", JObj [("fontSize", JNum 14)]);
                      ("sync-settings", JObj [("gistId", JStr "g")])])].
Proof.
  destruct (updateSettings_wraps_legacy Sample.live Sample.legacy eq_refl)
    as (H & _ & _).
  rewrite H. reflexivity.
Defined.

Lemma seedable_reads_live cfg :
  seedable cfg = true -> Forall (reads_live cfg) (blacklistedKeys cfg).
Proof.
  unfold seedable. rewrite forallb_forall. intros H. apply Forall_forall.
  intros k Hk. specialize (H k Hk). apply andb_true_iff in H as [H1 H2].
  split.
  - intros ->. discriminate H1.
  - intros E. rewrite E in H2. discriminate H2.
Qed.

(** C5 (as amended): the local snapshot's global settings tree contains no
    blacklisted key path; and restoring a backup leaves the live value of a
    blacklisted key unchanged whenever that key has a live value (no
    blacklisted key being empty or reading [null]) and the inbound tree holds
    objects along the key path, because the live value is written into the
    tree before it is applied. *)
Theorem blacklist_excluded_and_reseeded :
  forall cfg : Atom.config,
    (forall k, In k (blacklistedKeys cfg) ->
       hasKeyPath (kp_get (getFilteredSettings cfg) "*") k = false) /\
    (forall inbound cfg' k,
       wf inbound = true ->
       seedable cfg = true ->
       In k (blacklistedKeys cfg) ->
       Atom.get cfg k <> JUndef ->
       settable (splitKeyPath k) (global_tree inbound) = true ->
       updateSettings cfg inbound = Some cfg' ->
       Atom.get cfg' k = Atom.get cfg k).
Proof.
  intros cfg. split.
  - intros k Hk. now apply getFilteredSettings_excludes.
  - intros inbound cfg' k Hwf Hseed Hk Hv Hset Hup.
    pose proof (seedable_reads_live cfg Hseed) as Hall.
    assert (Hlive : reads_live cfg k)
      by (rewrite Forall_forall in Hall; now apply Hall).
    pose proof (live_at_path cfg k Hlive Hv) as Hat.
    pose proof (reseed_sets cfg k (Atom.get cfg k) Hat (blacklistedKeys cfg)
                  (global_tree inbound) Hall Hk eq_refl Hv Hset) as Hfinal.
    unfold Atom.get at 1. rewrite (updateSettings_global _ _ _ Hwf Hup).
    unfold getValueAtKeyPath. destruct Hlive as [Hne _].
    destruct (String.eqb_spec k "") as [|_]; [contradiction|].
    now apply at_path_get_keys.
Qed.

Lemma blacklist_excluded_and_reseeded_witness :
  hasKeyPath (kp_get (getFilteredSettings Sample.live) "*") "sync-settings.gistId"
  = false /\
  exists cfg',
    updateSettings Sample.live Sample.forged_gistId = Some cfg' /\
    Atom.get cfg' "sync-settings.gistId" = JStr "g".
Proof.
  destruct (blacklist_excluded_and_reseeded Sample.live) as [Hout Hin].
  split.
  - apply Hout. simpl. auto.
  - destruct (updateSettings Sample.live Sample.forged_gistId) as [cfg'|] eqn:E;
      [|discriminate E].
    exists cfg'. split; [reflexivity|].
    rewrite (Hin Sample.forged_gistId cfg' "sync-settings.gistId");
      try reflexivity; try assumption.
    + simpl. auto.
    + discriminate.
Defined.

(** C5 fails as stated for a key without a live value: the legacy hash is
    blacklisted and unset locally, so nothing is re-seeded and the value the
    backup carries for it is applied. *)
Lemma unset_blacklisted_key_overwritten :
  In "sync-settings._lastBackupHash" (blacklistedKeys Sample.live) /\
  Atom.get Sample.live "sync-settings._lastBackupHash" = JUndef /\
  exists cfg',
    updateSettings Sample.live Sample.forged_hash = Some cfg' /\
    Atom.get cfg' "sync-settings._lastBackupHash" = JStr "forged" /\
    Atom.get cfg' "sync-settings._lastBackupHash"
    <> Atom.get Sample.live "sync-settings._lastBackupHash".
Proof.
  split; [simpl; tauto|]. split; [reflexivity|].
  eexists. split; [reflexivity|]. split; [reflexivity | discriminate].
Qed.

(** ** Flattening the settings diff *)

Lemma fold_left_ext {A B} (f g : A -> B -> A) l a :
  (forall x y, f x y = g x y) -> fold_left f l a = fold_left g l a.
Proof.
  intros H. revert a. induction l as [|b l IH]; simpl; intros a; [reflexivity|].
  now rewrite H, IH.
Qed.

Lemma settingsToKeyPaths_eq fuel cfg obj prefix g :
  settingsToKeyPaths (S fuel) cfg obj prefix g
  = fold_left (collect (property_paths fuel cfg prefix g)) (entries obj) (Some []).
Proof.
  cbn [settingsToKeyPaths]. apply fold_left_ext. intros [l|] p; [|reflexivity].
  unfold collect, property_paths. cbv zeta.
  destruct (typeof_object _ && negb (isArray _)); reflexivity.
Qed.

Lemma collect_none f l : fold_left (collect f) l None = None.
Proof. induction l; simpl; auto. Qed.

Lemma collect_spec f l acc es :
  fold_left (collect f) l (Some acc) = Some es ->
  forall e, In e es ->
    In e acc \/ exists p sub, In p l /\ f p = Some sub /\ In e sub.
Proof.
  revert acc. induction l as [|p l IH]; simpl; intros acc H e He.
  - injection H as <-. now left.
  - destruct (f p) as [sub|] eqn:E; [|now rewrite collect_none in H].
    destruct (IH _ H e He) as [I|(q & s & Hq & Hs & Hi)].
    + apply in_app_or in I as [I|I]; [now left|].
      right. exists p, sub. auto.
    + right. exists q, s. auto.
Qed.

Lemma collect_total f l acc :
  (forall p, In p l -> exists sub, f p = Some sub) ->
  exists es, fold_left (collect f) l (Some acc) = Some es.
Proof.
  revert acc. induction l as [|p l IH]; simpl; intros acc H; [eauto|].
  destruct (H p) as [sub ->]; [now left|]. apply IH. intros q Hq. apply H. now right.
Qed.

(** Every entry emitted with [getOldValue] carries the live config value at
    its key path. *)
Lemma oldValue_is_live cfg fuel :
  forall obj prefix es,
    settingsToKeyPaths fuel cfg obj prefix true = Some es ->
    forall e, In e es -> oldValue e = Some (Atom.get cfg (keyPath e)).
Proof.
  induction fuel as [|fuel IH]; intros obj prefix es H e He; [discriminate|].
  rewrite settingsToKeyPaths_eq in H.
  destruct (collect_spec _ _ _ _ H e He) as [[]|(p & sub & _ & Hs & Hi)].
  unfold property_paths in Hs. cbv zeta in Hs.
  destruct (typeof_object _ && negb (isArray _)).
  - eapply IH; eassumption.
  - injection Hs as <-. destruct Hi as [<-|[]]. reflexivity.
Qed.

Lemma null_free_not_nullish v : null_free v = true -> is_nullish v = false.
Proof. destruct v; simpl; congruence. Qed.

Lemma chars_null_free s : forallb null_free (chars s) = true.
Proof. induction s; simpl; auto. Qed.

Lemma indexed_null_free i vs :
  forallb null_free vs = true ->
  forallb (fun p => null_free (snd p)) (indexed i vs) = true.
Proof.
  revert i. induction vs as [|v vs IH]; simpl; intros i H; [reflexivity|].
  apply andb_true_iff in H as [-> H]. simpl. now apply IH.
Qed.

Lemma null_free_entries obj :
  null_free obj = true -> forallb (fun p => null_free (snd p)) (entries obj) = true.
Proof.
  destruct obj; simpl; try reflexivity; intros H.
  - apply indexed_null_free, chars_null_free.
  - now apply indexed_null_free.
  - exact H.
Qed.

(** Without nulls every entry carries the value the tree holds under the
    path its key path flattens. *)
Lemma value_is_read cfg g fuel :
  forall obj prefix es,
    null_free obj = true ->
    settingsToKeyPaths fuel cfg obj prefix g = Some es ->
    forall e, In e es ->
      exists path, keyPath e = flatten prefix path /\
                   reaches obj path (value e) /\ leaf_like (value e) = true.
Proof.
  induction fuel as [|fuel IH]; intros obj prefix es Hn H e He; [discriminate|].
  rewrite settingsToKeyPaths_eq in H.
  destruct (collect_spec _ _ _ _ H e He) as [[]|([k x] & sub & Hp & Hs & Hi)].
  pose proof (null_free_entries _ Hn) as Hall. rewrite forallb_forall in Hall.
  specialize (Hall _ Hp). simpl in Hall.
  unfold property_paths in Hs. cbv zeta in Hs. cbn [fst snd] in Hs.
  rewrite (null_free_not_nullish _ Hall) in Hs.
  destruct (typeof_object x && negb (isArray x)) eqn:E.
  - destruct (IH _ _ _ Hall Hs e Hi) as (path & Hk & Hr & Hl).
    exists (k :: path). repeat split; try assumption.
    econstructor; eassumption.
  - injection Hs as <-. destruct Hi as [<-|[]]. exists [k]. simpl.
    repeat split.
    + econstructor; [eassumption | constructor].
    + unfold leaf_like. now rewrite E.
Qed.

Lemma list_max_In n l : In n l -> n <= list_max l.
Proof.
  intros H. pose proof (proj1 (list_max_le l (list_max l)) (le_n _)) as F.
  rewrite Forall_forall in F. now apply F.
Qed.

Lemma indexed_In i vs k x : In (k, x) (indexed i vs) -> In x vs.
Proof.
  intros H. apply (in_map snd) in H. now rewrite indexed_snd in H.
Qed.

Lemma chars_strings s x : In x (chars s) -> exists c, x = JStr c.
Proof.
  induction s as [|c s IH]; simpl; [contradiction|]. intros [<-|I]; eauto.
Qed.

Lemma height_entry obj k x :
  In (k, x) (entries obj) -> is_plain_object x = true -> height x < height obj.
Proof.
  intros Hin Hx. destruct obj as [ | | | | s | vs | ps]; simpl in Hin;
    try contradiction.
  - apply indexed_In, chars_strings in Hin as [c ->]. discriminate.
  - apply indexed_In in Hin. simpl. apply Nat.lt_succ_r, list_max_In.
    now apply in_map.
  - simpl. apply Nat.lt_succ_r, list_max_In.
    change (height x) with ((fun p => height (snd p)) (k, x)). now apply in_map.
Qed.

(** Without nulls the flattening needs no more fuel than the tree is deep. *)
Lemma settingsToKeyPaths_total cfg g fuel :
  forall obj prefix,
    null_free obj = true -> height obj < fuel ->
    exists es, settingsToKeyPaths fuel cfg obj prefix g = Some es.
Proof.
  induction fuel as [|fuel IH]; intros obj prefix Hn Hh; [lia|].
  rewrite settingsToKeyPaths_eq. apply collect_total. intros [k x] Hp.
  pose proof (null_free_entries _ Hn) as Hall. rewrite forallb_forall in Hall.
  specialize (Hall _ Hp). simpl in Hall.
  unfold property_paths. cbv zeta. cbn [fst snd].
  rewrite (null_free_not_nullish _ Hall).
  destruct (typeof_object x && negb (isArray x)) eqn:E; [|eauto].
  apply IH; [assumption|].
  assert (is_plain_object x = true) by (destruct x; simpl in *; congruence).
  pose proof (height_entry _ _ _ Hp H). lia.
Qed.

(** ** The updated bucket comes from the backup *)

Lemma updated_reduce_In l qs k y :
  In (k, y) (updated_reduce l (map (nest updatedDiff) qs)) ->
  exists rv, In (k, rv) qs /\ y = updatedDiff (prop_get l k) rv.
Proof.
  induction qs as [|[k' v'] qs IH]; simpl; [contradiction|].
  destruct (hasOwn l k').
  - destruct (isObject _ && isEmpty _).
    + intros H. destruct (IH H) as (rv & ? & ?). eauto.
    + intros [E|H].
      * injection E as <- <-. eauto.
      * destruct (IH H) as (rv & ? & ?). eauto.
  - intros H. destruct (IH H) as (rv & ? & ?). eauto.
Qed.

Lemma entries_own v : isObject v = true -> entries v = own_entries v.
Proof. destruct v; simpl; congruence. Qed.

Lemma updatedDiff_cases l r :
  updatedDiff l r = JObj [] \/ updatedDiff l r = r \/
  (isObject r = true /\
   updatedDiff l r = JObj (updated_reduce l (map (nest updatedDiff) (own_entries r)))).
Proof.
  rewrite updatedDiff_eq. destruct (strict_eq l r); [now left|].
  destruct (isObject l), (isObject r); simpl; auto.
Qed.

(** A leaf reached in the updated bucket is reached in the backup's tree
    under the same path. *)
Lemma updated_reaches path :
  forall l r v,
    leaf_like v = true -> reaches (updatedDiff l r) path v -> reaches r path v.
Proof.
  induction path as [|k path IH]; intros l r v Hv H.
  - inversion H; subst.
    destruct (updatedDiff_cases l r) as [E|[E|[_ E]]]; rewrite E in *;
      try discriminate Hv. constructor.
  - inversion H as [|? ? y ? ? Hin Hr]; subst.
    destruct (updatedDiff_cases l r) as [E|[E|[Ho E]]]; rewrite E in *.
    + contradiction.
    + econstructor; eassumption.
    + simpl in Hin. apply updated_reduce_In in Hin as (rv & Hrv & ->).
      econstructor; [rewrite entries_own by assumption; eassumption|].
      eapply IH; eassumption.
Qed.

Lemma Forall_own_null_free r :
  null_free r = true -> Forall (fun p => null_free (snd p) = true) (own_entries r).
Proof.
  intros H. apply Forall_forall. intros p Hp.
  destruct r; simpl in Hp; try contradiction.
  - pose proof (indexed_null_free 0 _ H) as F. rewrite forallb_forall in F. auto.
  - simpl in H. rewrite forallb_forall in H. auto.
Qed.

Lemma updated_reduce_null_free l qs :
  Forall (fun p => updated_clean (snd p)) qs ->
  Forall (fun p => null_free (snd p) = true) qs ->
  forallb (fun p => null_free (snd p))
    (updated_reduce l (map (nest updatedDiff) qs)) = true.
Proof.
  induction 1 as [|[k rv] qs Hc _ IH]; intros Hn; [reflexivity|].
  inversion Hn as [|? ? Hrv Hn']; subst. simpl in *.
  destruct (hasOwn l k); [|auto].
  destruct (isObject _ && isEmpty _); [auto|].
  simpl. rewrite (Hc Hrv). auto.
Qed.

Lemma updated_clean_node r :
  Forall (fun p => updated_clean (snd p)) (own_entries r) -> updated_clean r.
Proof.
  intros IH Hn l.
  destruct (updatedDiff_cases l r) as [E|[E|[_ E]]]; rewrite E; try easy.
  simpl. apply updated_reduce_null_free; [assumption|].
  now apply Forall_own_null_free.
Qed.

Lemma updated_null_free : forall r, updated_clean r.
Proof.
  induction r as [ | | b | n | s | vs IH | ps IH] using json_ind';
    try (apply updated_clean_node; constructor).
  - apply updated_clean_node. now apply (own_entries_ind updated_clean (JArr vs)).
  - apply updated_clean_node. now apply (own_entries_ind updated_clean (JObj ps)).
Qed.

Lemma if_truthy_prune v w : if_truthy (prune v) = Some w -> w = v.
Proof.
  unfold prune, if_truthy. destruct (isEmpty v); [discriminate|].
  destruct (truthy v); [now intros [= ->] | discriminate].
Qed.

Lemma bucket_of_Some {A B} (o : option A) (f : A -> option B) b :
  bucket_of o f = Some (Some b) -> exists a, o = Some a /\ f a = Some b.
Proof.
  unfold bucket_of. destruct o as [a|]; [|discriminate].
  destruct (f a) eqn:E; [|discriminate]. intros [= ->]. eauto.
Qed.

(** Where the updated bucket of the settings diff comes from. *)
Lemma settings_updated_source fuel cfg localData backupData sd es :
  diffSettings fuel cfg localData backupData = Some (Some sd) ->
  settings_updated sd = Some es ->
  settingsToKeyPaths fuel cfg
    (updatedDiff (settings localData) (settings backupData)) "" true = Some es.
Proof.
  unfold diffSettings, detailedDiff. cbn [added updated deleted].
  destruct (truthy (settings backupData) && truthy (settings localData)).
  - set (a := prune (addedDiff _ _)). set (u := prune (updatedDiff _ _)).
    set (x := prune (deletedDiff _ _)).
    intros H Hu.
    assert (H' : opt_bind (bucket_of (if_truthy a)
                             (fun v => settingsToKeyPaths fuel cfg v "" false))
                   (fun sa =>
                 opt_bind (bucket_of (if_truthy u)
                             (fun v => settingsToKeyPaths fuel cfg v "" true))
                   (fun su =>
                 opt_bind (bucket_of (if_truthy x)
                             (fun v => settingsToKeyPaths fuel cfg v "" false))
                   (fun sd0 =>
                 Some (Some {| settings_added := sa; settings_updated := su;
                               settings_deleted := sd0 |}))))
                 = Some (Some sd)).
    { destruct a, u, x; try exact H. discriminate H. }
    clear H. unfold opt_bind in H'.
    destruct (bucket_of (if_truthy a) _) as [sa|]; [|discriminate].
    destruct (bucket_of (if_truthy u) _) as [su|] eqn:Eu; [|discriminate].
    destruct (bucket_of (if_truthy x) _) as [sx|]; [|discriminate].
    apply some_inj in H'. apply some_inj in H'. subst sd. simpl in Hu. subst su.
    apply bucket_of_Some in Eu as (v & Hv & Hs).
    apply if_truthy_prune in Hv. now subst v.
  - destruct (truthy (settings backupData)).
    + unfold opt_bind. destruct (settingsToKeyPaths _ _ _ _ _); [|discriminate].
      intros H. apply some_inj in H. apply some_inj in H. subst sd. discriminate.
    + destruct (truthy (settings localData)); [|discriminate].
      unfold opt_bind. destruct (settingsToKeyPaths _ _ _ _ _); [|discriminate].
      intros H. apply some_inj in H. apply some_inj in H. subst sd. discriminate.
Qed.

(** C8 (as amended): every entry of the updated bucket of the settings diff
    carries as [oldValue] the live config value at its flattened key path,
    whatever the local snapshot holds; when the backup's settings contain no
    [null] its [value] is the value the backup holds under that path, and the
    flattening returns with fuel above the depth of the bucket. *)
Theorem updated_entries_carry_live_old_value :
  forall createTwoFilesPatch fuel cfg localData backupData d sd es,
    getDiffData createTwoFilesPatch fuel cfg localData backupData = Some d ->
    diff_settings d = Some sd ->
    settings_updated sd = Some es ->
    (forall e, In e es -> oldValue e = Some (Atom.get cfg (keyPath e))) /\
    (null_free (settings backupData) = true ->
     (forall e, In e es ->
        exists path, keyPath e = flatten "" path /\
                     reaches (settings backupData) path (value e)) /\
     (forall n,
        height (updatedDiff (settings localData) (settings backupData)) < n ->
        exists es',
          settingsToKeyPaths n cfg
            (updatedDiff (settings localData) (settings backupData)) "" true
          = Some es')).
Proof.
  intros patch fuel cfg L B d sd es Hd Hs Hu.
  unfold getDiffData, opt_bind in Hd.
  destruct (diffSettings fuel cfg L B) as [s|] eqn:E; [|discriminate].
  apply some_inj in Hd. subst d. simpl in Hs. subst s.
  pose proof (settings_updated_source _ _ _ _ _ _ E Hu) as Hsrc.
  split.
  - intros e He. eapply oldValue_is_live; eassumption.
  - intros Hn. pose proof (updated_null_free _ Hn (settings L)) as Hclean. split.
    + intros e He.
      destruct (value_is_read cfg true fuel _ _ _ Hclean Hsrc e He)
        as (path & Hk & Hr & Hl).
      exists path. split; [assumption|]. eapply updated_reaches; eassumption.
    + intros n Hh. now apply settingsToKeyPaths_total.
Qed.

Lemma updated_entries_carry_live_old_value_witness :
  exists d sd,
    getDiffData Sample.keep_after 10 Sample.live_font15 Sample.machine Sample.gist
    = Some d /\
    diff_settings d = Some sd /\
    settings_updated sd
    = Some [{| keyPath := "editor.fontSize"; value := JNum 16;
               oldValue := Some (JNum 15) |}] /\
    forall e,
      In e [{| keyPath := "editor.fontSize"; value := JNum 16;
               oldValue := Some (JNum 15) |}] ->
      oldValue e = Some (Atom.get Sample.live_font15 (keyPath e)).
Proof.
  eexists. eexists. split; [vm_compute; reflexivity|].
  split; [reflexivity|]. split; [reflexivity|].
  apply (updated_entries_carry_live_old_value Sample.keep_after 10
           Sample.live_font15 Sample.machine Sample.gist _ _ _
           eq_refl eq_refl eq_refl).
Defined.

(** C8 fails as stated for a new value that is [null]: the backup sets [a]
    to [null], the entry emitted for [a] carries the live config value as its
    [value], not the backup's. *)
Lemma updated_null_value_replaced :
  exists d sd,
    getDiffData Sample.keep_after 10 Sample.live_a7
      (Sample.with_a (JNum 1)) (Sample.with_a JNull) = Some d /\
    diff_settings d = Some sd /\
    settings_updated sd
    = Some [{| keyPath := "a"; value := JNum 7; oldValue := Some (JNum 7) |}] /\
    prop_get (prop_get (settings (Sample.with_a JNull)) "*") "a" = JNull.
Proof.
  eexists. eexists. split; [vm_compute; reflexivity|].
  split; [reflexivity|]. split; reflexivity.
Qed.

(** ** The order of file names *)

Lemma js_insert_by_key {A} cmp (p : string * A) l :
  map fst (js_insert (by_key cmp) p l) = js_insert cmp (fst p) (map fst l).
Proof.
  induction l as [|q l IH]; simpl; [reflexivity|]. unfold by_key at 1.
  destruct (cmp (fst p) (fst q) <=? 0)%Z; simpl; [reflexivity|]. now rewrite IH.
Qed.

Lemma js_sort_by_key {A} cmp (l : list (string * A)) :
  map fst (js_sort (by_key cmp) l) = js_sort cmp (map fst l).
Proof.
  induction l as [|p l IH]; simpl; [reflexivity|].
  now rewrite js_insert_by_key, IH.
Qed.

Lemma assoc_set_fresh {A} k (v : A) acc :
  ~ In k (map fst acc) -> assoc_set k v acc = acc ++ [(k, v)].
Proof.
  induction acc as [|[k' v'] acc IH]; simpl; intros H; [reflexivity|].
  destruct (String.eqb_spec k k') as [->|_]; [tauto|]. rewrite IH; tauto.
Qed.

Lemma rebuild_unique {A} (l acc : list (string * A)) :
  NoDup (map fst (acc ++ l)) ->
  fold_left (fun newObj p => assoc_set (fst p) (snd p) newObj) l acc = acc ++ l.
Proof.
  revert acc. induction l as [|[k v] l IH]; simpl; intros acc H.
  - now rewrite app_nil_r.
  - rewrite assoc_set_fresh.
    + rewrite IH; rewrite <- app_assoc; [reflexivity | exact H].
    + rewrite map_app in H. simpl in H. apply NoDup_remove_2 in H.
      intros I. apply H. apply in_or_app. now left.
Qed.

Lemma filter_none {A} (f : A -> bool) l :
  (forall x, In x l -> f x = false) -> filter f l = [].
Proof.
  induction l as [|x l IH]; simpl; intros H; [reflexivity|].
  rewrite (H x (or_introl eq_refl)). apply IH. intros y I. apply H. now right.
Qed.

Lemma filter_every {A} (f : A -> bool) l :
  (forall x, In x l -> f x = true) -> filter f l = l.
Proof.
  induction l as [|x l IH]; simpl; intros H; [reflexivity|].
  rewrite (H x (or_introl eq_refl)), IH; [reflexivity|].
  intros y I. apply H. now right.
Qed.

(** Without array indices among the names an object lists its properties
    as they were created. *)
Lemma own_order_plain {A} (ps : list (string * A)) :
  (forall k, In k (map fst ps) -> is_index k = false) -> own_order ps = ps.
Proof.
  intros H. unfold own_order.
  assert (G : forall p, In p ps -> is_index (fst p) = false)
    by (intros p I; apply H; now apply in_map).
  rewrite filter_none by exact G.
  rewrite filter_every; [reflexivity|].
  intros p I. now rewrite (G p I).
Qed.

Lemma filter_split_perm {A} (f : A -> bool) l :
  Permutation l (filter f l ++ filter (fun x => negb (f x)) l).
Proof.
  induction l as [|x l IH]; simpl; [constructor|].
  destruct (f x); simpl; [now constructor|].
  etransitivity; [apply perm_skip; exact IH|]. apply Permutation_middle.
Qed.

Lemma own_order_perm {A} (ps : list (string * A)) :
  Permutation ps (own_order ps).
Proof.
  unfold own_order.
  etransitivity; [apply (filter_split_perm (fun p => is_index (fst p)))|].
  apply Permutation_app_tail. apply js_sort_perm.
Qed.

(** A snapshot's files are kept in the order of the comparator given to
    [sortObject], as long as no name is an array index. *)
Lemma sortObject_keys {A} cmp (m : list (string * A)) :
  unique (map fst m) = true ->
  (forall k, In k (map fst m) -> is_index k = false) ->
  map fst (sortObject (by_key cmp) m) = js_sort cmp (map fst m).
Proof.
  intros H Hi. unfold sortObject. rewrite rebuild_unique.
  - rewrite own_order_plain; [apply js_sort_by_key|].
    simpl. intros k I. apply Hi.
    eapply Permutation_in; [|exact I].
    apply Permutation_sym. apply Permutation_map. apply js_sort_perm.
  - simpl. rewrite js_sort_by_key. apply unique_NoDup in H.
    eapply Permutation_NoDup; [apply js_sort_perm | exact H].
Qed.

Lemma sortObject_perm {A} cmp (m : list (string * A)) :
  NoDup (map fst m) -> Permutation m (sortObject cmp m).
Proof.
  intros H. unfold sortObject. rewrite rebuild_unique.
  - simpl. etransitivity; [apply js_sort_perm | apply own_order_perm].
  - simpl. eapply Permutation_NoDup; [|exact H].
    apply Permutation_map. apply js_sort_perm.
Qed.

Lemma NoDup_dedupe l : NoDup (dedupe l).
Proof.
  induction l as [|x l IH]; simpl; constructor.
  - rewrite filter_In, String.eqb_refl. intros [_ H]. discriminate.
  - now apply NoDup_filter.
Qed.

Lemma code_unit_lt_trans a b c :
  code_unit_lt a b -> code_unit_lt b c -> code_unit_lt a c.
Proof.
  unfold code_unit_lt. intros H1 H2.
  apply String_as_OT.cmp_lt in H1, H2. apply String_as_OT.cmp_lt.
  eapply String_as_OT.lt_trans; eassumption.
Qed.

Lemma code_unit_lt_irrefl a : ~ code_unit_lt a a.
Proof.
  unfold code_unit_lt. intros H.
  assert (E : String.compare a a = Eq) by now apply String_as_OT.cmp_eq.
  congruence.
Qed.

Lemma le_neq_lt a b : code_unit_le a b -> a <> b -> code_unit_lt a b.
Proof.
  unfold code_unit_le, code_unit_lt, String.leb. intros H Hne.
  destruct (String.compare a b) eqn:E; try reflexivity; try discriminate.
  apply String_as_OT.cmp_eq in E. contradiction.
Qed.

Lemma sorted_strict l :
  Sorted code_unit_le l -> NoDup l -> StronglySorted code_unit_lt l.
Proof.
  intros Hs Hd. apply Sorted_StronglySorted.
  - intros x y z. apply code_unit_lt_trans.
  - induction Hs as [|x l Hs IH Hh]; constructor.
    + apply IH. now inversion Hd.
    + inversion Hd as [|? ? Hn _]; subst.
      destruct Hh as [|y l Hxy]; constructor.
      apply le_neq_lt; [assumption|]. intros ->. apply Hn. now left.
Qed.

Lemma strictly_sorted_unique l :
  forall l',
    StronglySorted code_unit_lt l -> StronglySorted code_unit_lt l' ->
    (forall x, In x l <-> In x l') -> l = l'.
Proof.
  induction l as [|x l IH]; intros [|y l'] Hs Hs' Hm.
  - reflexivity.
  - exfalso. apply (proj2 (Hm y)). now left.
  - exfalso. apply (proj1 (Hm x)). now left.
  - inversion Hs as [|? ? Hsl Hx]; subst. inversion Hs' as [|? ? Hsl' Hy]; subst.
    rewrite Forall_forall in Hx, Hy.
    assert (E : x = y).
    { destruct (proj1 (Hm x) (or_introl eq_refl)) as [E|I]; [now symmetry|].
      destruct (proj2 (Hm y) (or_introl eq_refl)) as [E|I']; [assumption|].
      exfalso. apply (code_unit_lt_irrefl x).
      eapply code_unit_lt_trans; [apply Hx | apply Hy]; assumption. }
    subst y. f_equal. apply IH; try assumption.
    intros z. split; intros I.
    + destruct (proj1 (Hm z) (or_intror I)) as [E|I']; [|assumption].
      subst z. exfalso. apply (code_unit_lt_irrefl x). now apply Hx.
    + destruct (proj2 (Hm z) (or_intror I)) as [E|I']; [|assumption].
      subst z. exfalso. apply (code_unit_lt_irrefl x). now apply Hy.
Qed.

Lemma sort_default_In l k : In k (sort_default l) <-> In k l.
Proof.
  unfold sort_default. split; apply Permutation_in;
    [symmetry|]; apply js_sort_perm.
Qed.

Lemma sort_default_NoDup l : NoDup l -> NoDup (sort_default l).
Proof. apply Permutation_NoDup, js_sort_perm. Qed.

Lemma fileNames_spec A B :
  Sorted code_unit_le (fileNames A B) /\ NoDup (fileNames A B) /\
  forall k, In k (fileNames A B)
            <-> In k (keys_of (files A)) \/ In k (keys_of (files B)).
Proof.
  unfold fileNames. repeat split.
  - apply sort_default_sorted.
  - apply sort_default_NoDup, NoDup_dedupe.
  - rewrite sort_default_In, In_dedupe. apply in_app_or.
  - rewrite sort_default_In, In_dedupe. apply in_or_app.
Qed.

(** The order of the file loop depends on the names alone. *)
Lemma fileNames_same_names A B A' B' :
  (forall k, In k (keys_of (files A)) \/ In k (keys_of (files B))
             <-> In k (keys_of (files A')) \/ In k (keys_of (files B'))) ->
  fileNames A B = fileNames A' B'.
Proof.
  intros H.
  destruct (fileNames_spec A B) as (S1 & D1 & M1).
  destruct (fileNames_spec A' B') as (S2 & D2 & M2).
  apply strictly_sorted_unique; try (apply sorted_strict; assumption).
  intros k. now rewrite M1, M2.
Qed.

Lemma js_sort_ext {A} (cmp cmp' : A -> A -> Z) l :
  (forall a b, cmp a b = cmp' a b) -> js_sort cmp l = js_sort cmp' l.
Proof.
  intros H. induction l as [|x l IH]; simpl; [reflexivity|]. rewrite IH.
  generalize (js_sort cmp' l) as s. induction s as [|y s IHs]; simpl; [reflexivity|].
  now rewrite H, IHs.
Qed.

Lemma js_insert_ext_in {A} (cmp cmp' : A -> A -> Z) x s :
  (forall y, In y s -> (cmp x y <=? 0)%Z = (cmp' x y <=? 0)%Z) ->
  js_insert cmp x s = js_insert cmp' x s.
Proof.
  induction s as [|y s IH]; simpl; intros H; [reflexivity|].
  rewrite (H y (or_introl eq_refl)), IH; [reflexivity|].
  intros z I. apply H. now right.
Qed.

(** A sort looks at its comparator on the elements of the list only. *)
Lemma js_sort_ext_in {A} (cmp cmp' : A -> A -> Z) l :
  (forall a b, In a l -> In b l -> (cmp a b <=? 0)%Z = (cmp' a b <=? 0)%Z) ->
  js_sort cmp l = js_sort cmp' l.
Proof.
  induction l as [|x l IH]; simpl; intros H; [reflexivity|].
  rewrite IH by (intros a b Ia Ib; apply H; now right).
  apply js_insert_ext_in. intros y I. apply H; [now left|]. right.
  eapply Permutation_in; [|exact I].
  apply Permutation_sym. apply js_sort_perm.
Qed.

(** C9 (as amended): a snapshot's files are kept in the order of the
    comparator [sortObject] is given, the host's [localeCompare], as far as
    no name is an array index or [__proto__] (which the rebuilt object
    lists first, or does not list); the diff engine iterates the names of both
    sides in code-unit order, without duplicates, and that order depends on
    the names alone; for a snapshot on whose names [localeCompare] agrees
    with the code-unit order, the diff of the finalized snapshot iterates
    exactly in the snapshot's own order. *)
Theorem file_order_snapshot_and_diff :
  forall (localeCompare : string -> string -> Z) (m : files_map),
    unique (map fst m) = true ->
    ((forall k, In k (map fst m) -> is_index k = false /\ k <> "__proto__") ->
     map fst (sortObject (by_key localeCompare) m)
     = js_sort localeCompare (map fst m)) /\
    (forall A B,
       Sorted code_unit_le (fileNames A B) /\ NoDup (fileNames A B) /\
       forall k, In k (fileNames A B)
                 <-> In k (keys_of (files A)) \/ In k (keys_of (files B))) /\
    (forall A B A' B',
       (forall k, In k (keys_of (files A)) \/ In k (keys_of (files B))
                  <-> In k (keys_of (files A')) \/ In k (keys_of (files B'))) ->
       fileNames A B = fileNames A' B') /\
    ((forall k, In k (map fst m) -> is_index k = false /\ k <> "__proto__") ->
     (forall a b, In a (map fst m) -> In b (map fst m) ->
        (localeCompare a b <=? 0)%Z = (code_unit_compare a b <=? 0)%Z) ->
     forall s p,
       fileNames
         {| settings := s; packages := p;
            files := Some (sortObject (by_key localeCompare) m) |}
         {| settings := s; packages := p;
            files := Some (sortObject (by_key localeCompare) m) |}
       = map fst (sortObject (by_key localeCompare) m)).
Proof.
  intros cmp m Hu.
  assert (Hk : (forall k, In k (map fst m) ->
                  is_index k = false /\ k <> "__proto__") ->
               map fst (sortObject (by_key cmp) m) = js_sort cmp (map fst m)).
  { intros Hi. apply (sortObject_keys cmp m Hu). intros k I. apply (Hi k I). }
  split; [exact Hk|]. split; [apply fileNames_spec|].
  split; [apply fileNames_same_names|].
  intros Hi Hagree s p. specialize (Hk Hi).
  set (S := {| settings := s; packages := p;
               files := Some (sortObject (by_key cmp) m) |}).
  destruct (fileNames_spec S S) as (S1 & D1 & M1).
  apply strictly_sorted_unique.
  - now apply sorted_strict.
  - rewrite Hk, (js_sort_ext_in cmp code_unit_compare _ Hagree).
    apply sorted_strict; [apply sort_default_sorted|].
    apply sort_default_NoDup. now apply unique_NoDup.
  - intros k. rewrite M1. simpl. tauto.
Qed.

Lemma file_order_snapshot_and_diff_witness :
  map fst (sortObject (by_key Sample.localeCompare_letters) Lower.extra_files)
  = ["keymap"; "snippets"] /\
  fileNames (Lower.finalized Sample.localeCompare_letters)
            (Lower.finalized Sample.localeCompare_letters)
  = map fst (sortObject (by_key Sample.localeCompare_letters) Lower.extra_files).
Proof.
  destruct (file_order_snapshot_and_diff Sample.localeCompare_letters
              Lower.extra_files eq_refl) as (_ & _ & _ & H).
  split; [reflexivity|].
  refine (H _ _ JNull JNull).
  - intros k [<-|[<-|[]]]; (split; [reflexivity | discriminate]).
  - intros a b [<-|[<-|[]]] [<-|[<-|[]]]; reflexivity.
Defined.

(** An object lists the names that are array indices first, in numeric
    order, whatever the comparator: here the code-unit order, which has
    [10] before [9]. *)
Example sortObject_indices_first :
  map fst (sortObject (by_key code_unit_compare)
             [("b", Sample.file "/atom/b" "b"); ("9", Sample.file "/atom/9" "n");
              ("10", Sample.file "/atom/10" "t")])
  = ["9"; "10"; "b"] /\
  js_sort code_unit_compare ["b"; "9"; "10"] = ["10"; "9"; "b"].
Proof. split; reflexivity. Qed.

(** C9 fails as stated: under a collation that ignores case first, as the
    host's [localeCompare] does on letters, the finalized snapshot keeps
    [keymap] before [Makefile], while the diff engine iterates [Makefile]
    before [keymap]. *)
Lemma file_order_differs :
  Sample.localeCompare_letters "keymap" "Makefile" = (-1)%Z /\
  code_unit_compare "keymap" "Makefile" = 1%Z /\
  keys_of (files (Sample.finalized Sample.localeCompare_letters))
  = ["keymap"; "Makefile"] /\
  fileNames (Sample.finalized Sample.localeCompare_letters)
            (Sample.finalized Sample.localeCompare_letters)
  = ["Makefile"; "keymap"] /\
  fileNames (Sample.finalized Sample.localeCompare_letters)
            (Sample.finalized Sample.localeCompare_letters)
  <> keys_of (files (Sample.finalized Sample.localeCompare_letters)).
Proof. repeat split; try reflexivity. discriminate. Qed.

(** * Further properties of the module *)

(** ** The file loop of [getDiffData] *)

Section FileEntries.

Variable createTwoFilesPatch : string -> string -> string.
Variables localData backupData : Snapshot.

Let step := diffFile createTwoFilesPatch localData backupData.
Let filed_as := filed createTwoFilesPatch localData backupData.
Let passed := after_loop createTwoFilesPatch localData backupData.

Lemma diffFile_filed acc n :
  step acc n
  = match filed_as n with
    | Some (m, f) => addDiffFile acc m n f
    | None => acc
    end.
Proof.
  unfold step, filed_as, diffFile, filed.
  destruct (file_of (files backupData) n) as [bf|],
           (file_of (files localData) n) as [lf|]; try reflexivity.
  now destruct (negb (content lf =? content bf)%string).
Qed.

Lemma filed_classify n :
  option_map fst (filed_as n) = classify localData backupData n.
Proof.
  unfold filed_as, filed, classify.
  destruct (file_of (files backupData) n) as [bf|],
           (file_of (files localData) n) as [lf|]; try reflexivity.
  now destruct (negb (content lf =? content bf)%string).
Qed.

Lemma file_entry_addDiffFile m m' acc n f k :
  file_entry m (addDiffFile acc m' n f) k
  = if String.eqb k n && method_eqb m m' then Some f else file_entry m acc k.
Proof.
  unfold addDiffFile, file_entry.
  destruct (String.eqb_spec k n) as [->|Hne].
  - destruct acc as [fd|]; destruct m, m'; simpl;
      try (destruct (files_added fd)); try (destruct (files_updated fd));
      try (destruct (files_deleted fd)); simpl;
      rewrite ?assoc_set_same, ?String.eqb_refl; reflexivity.
  - destruct acc as [fd|]; destruct m, m'; simpl;
      try (destruct (files_added fd)); try (destruct (files_updated fd));
      try (destruct (files_deleted fd)); simpl;
      rewrite ?assoc_set_other by assumption; simpl;
      try rewrite (proj2 (String.eqb_neq k n) Hne); reflexivity.
Qed.

Lemma file_entry_step m acc n k :
  file_entry m (step acc n) k
  = if String.eqb k n then passed m (file_entry m acc k) k
    else file_entry m acc k.
Proof.
  rewrite diffFile_filed. unfold passed, after_loop. fold filed_as.
  destruct (String.eqb_spec k n) as [->|Hne].
  - destruct (filed_as n) as [[m' f]|]; [|reflexivity].
    rewrite file_entry_addDiffFile, String.eqb_refl. reflexivity.
  - destruct (filed_as n) as [[m' f]|]; [|reflexivity].
    rewrite file_entry_addDiffFile.
    now rewrite (proj2 (String.eqb_neq k n) Hne).
Qed.

Lemma after_loop_idem m before k :
  passed m (passed m before k) k = passed m before k.
Proof.
  unfold passed, after_loop. fold filed_as.
  destruct (filed_as k) as [[m' f]|]; [|reflexivity].
  now destruct (method_eqb m m').
Qed.

Lemma file_entry_loop m names acc k :
  file_entry m (fold_left step names acc) k
  = if existsb (String.eqb k) names
    then passed m (file_entry m acc k) k
    else file_entry m acc k.
Proof.
  revert acc. induction names as [|n names IH]; intros acc; [reflexivity|].
  cbn [fold_left existsb]. rewrite IH, file_entry_step.
  destruct (String.eqb k n); cbn [orb].
  - destruct (existsb (String.eqb k) names); [apply after_loop_idem | reflexivity].
  - reflexivity.
Qed.

Lemma filed_in_fileNames k mf :
  filed_as k = Some mf -> existsb (String.eqb k) (fileNames localData backupData) = true.
Proof.
  intros H. apply existsb_eqb_In. apply classified_in_fileNames with (fst mf).
  rewrite <- filed_classify. now rewrite H.
Qed.

Lemma file_entry_diffFiles m k :
  file_entry m (diffFiles createTwoFilesPatch localData backupData) k
  = match filed_as k with
    | Some (m', f) => if method_eqb m m' then Some f else None
    | None => None
    end.
Proof.
  assert (F : file_entry m (fold_left step (fileNames localData backupData) None) k
              = match filed_as k with
                | Some (m', f) => if method_eqb m m' then Some f else None
                | None => None
                end).
  { rewrite file_entry_loop. cbn [file_entry]. unfold passed, after_loop.
    fold filed_as. destruct (filed_as k) as [[m' f]|] eqn:E.
    - now rewrite (filed_in_fileNames _ _ E).
    - now destruct (existsb _ _). }
  unfold diffFiles. fold step.
  destruct (files localData) as [ml|] eqn:El; [exact F|].
  destruct (files backupData) as [mb|] eqn:Eb; [exact F|].
  unfold filed_as, filed. now rewrite El, Eb.
Qed.

End FileEntries.

(** X1: what the files diff holds for a name, when no file name of either
    snapshot is a name every object inherits ([constructor], [toString],
    ...; the loop would read such a name on the side that lacks the file
    as something that is there): the backup's file under [added] when only
    the backup has it, the local file under [deleted] when only the local
    side has it, the backup's file with the patch as content under
    [updated] when both have it with different contents, and nothing
    otherwise. *)
Theorem files_diff_entries :
  forall createTwoFilesPatch (localData backupData : Snapshot) (name : string),
    (forall n, In n (keys_of (files localData) ++ keys_of (files backupData)) ->
               inherited n = false) ->
    let d := diffFiles createTwoFilesPatch localData backupData in
    file_entry Added d name
    = match file_of (files backupData) name, file_of (files localData) name with
      | Some backupFile, None => Some backupFile
      | _, _ => None
      end /\
    file_entry Deleted d name
    = match file_of (files backupData) name, file_of (files localData) name with
      | None, Some localFile => Some localFile
      | _, _ => None
      end /\
    file_entry Updated d name
    = match file_of (files backupData) name, file_of (files localData) name with
      | Some backupFile, Some localFile =>
          if String.eqb (content localFile) (content backupFile) then None
          else Some {| path := path backupFile;
                       content := createTwoFilesPatch (content localFile)
                                    (content backupFile) |}
      | _, _ => None
      end.
Proof.
  intros patch L B name _ d. unfold d. rewrite !file_entry_diffFiles. unfold filed.
  destruct (file_of (files B) name) as [bf|], (file_of (files L) name) as [lf|];
    try (repeat split; reflexivity).
  destruct (content lf =? content bf)%string; repeat split; reflexivity.
Qed.

Lemma files_diff_entries_witness :
  file_entry Added (diffFiles Sample.keep_after Sample.machine Sample.gist)
    "styles.less" = Some (Sample.file "/atom/styles.less" "z") /\
  file_entry Deleted (diffFiles Sample.keep_after Sample.machine Sample.gist)
    "keymap.cson" = Some (Sample.file "/atom/keymap.cson" "k") /\
  file_entry Updated (diffFiles Sample.keep_after Sample.machine Sample.gist)
    "init.js" = Some (Sample.file "/atom/init.js" "y").
Proof.
  assert (H : forall n,
            In n (keys_of (files Sample.machine) ++ keys_of (files Sample.gist)) ->
            inherited n = false).
  { intros n I. simpl in I.
    repeat (destruct I as [<-|I]; [reflexivity|]). destruct I. }
  split; [|split].
  - exact (proj1 (files_diff_entries Sample.keep_after Sample.machine
                    Sample.gist "styles.less" H)).
  - exact (proj1 (proj2 (files_diff_entries Sample.keep_after Sample.machine
                           Sample.gist "keymap.cson" H))).
  - exact (proj2 (proj2 (files_diff_entries Sample.keep_after Sample.machine
                           Sample.gist "init.js" H))).
Defined.

Lemma bucket_set_bucket m m' b fd :
  bucket m (set_bucket m' b fd) = if method_eqb m m' then Some b else bucket m fd.
Proof. destruct m, m'; reflexivity. Qed.

Lemma assoc_set_nonempty {A} k (v : A) b : assoc_set k v b <> [].
Proof. destruct b as [|[k' v'] b]; simpl; [|destruct (k =? k')%string]; discriminate. Qed.

Lemma addDiffFile_filled acc m n f :
  buckets_filled acc -> buckets_filled (addDiffFile acc m n f).
Proof.
  intros H fd E. unfold addDiffFile in E. apply some_inj in E. subst fd. split.
  - exists m. eexists. rewrite bucket_set_bucket.
    replace (method_eqb m m) with true by now destruct m. reflexivity.
  - intros m' b. rewrite bucket_set_bucket.
    destruct (method_eqb m' m).
    + intros [= <-]. apply assoc_set_nonempty.
    + destruct acc as [fd|].
      * intros Hb. now apply (proj2 (H fd eq_refl) m').
      * destruct m'; discriminate.
Qed.

Lemma diffFiles_filled patch L B : buckets_filled (diffFiles patch L B).
Proof.
  assert (F : forall names acc, buckets_filled acc ->
                buckets_filled (fold_left (diffFile patch L B) names acc)).
  { induction names as [|n names IH]; intros acc H; [exact H|].
    apply IH. rewrite diffFile_filed.
    destruct (filed patch L B n) as [[m f]|]; [now apply addDiffFile_filled | exact H]. }
  assert (N : buckets_filled None) by (intros fd E; discriminate).
  unfold diffFiles. destruct (files L), (files B); auto.
Qed.

Lemma filed_none_same patch L B name :
  filed patch L B name = None <-> same_file L B name.
Proof.
  unfold filed, same_file.
  destruct (file_of (files B) name) as [bf|], (file_of (files L) name) as [lf|];
    try (split; [discriminate | contradiction]); [|tauto].
  destruct (String.eqb_spec (content lf) (content bf)); simpl;
    split; congruence.
Qed.

(** X2: the files sub-diff is absent exactly when every file name is held
    with the same content by both sides or by neither; when it is present it
    has at least one bucket and none of its buckets is empty. *)
Theorem files_diff_absent_iff_same :
  forall createTwoFilesPatch (localData backupData : Snapshot),
    (diffFiles createTwoFilesPatch localData backupData = None
     <-> forall name, same_file localData backupData name) /\
    (forall fd,
       diffFiles createTwoFilesPatch localData backupData = Some fd ->
       (exists m b, bucket m fd = Some b) /\
       (forall m b, bucket m fd = Some b -> b <> [])).
Proof.
  intros patch L B. split; [|apply diffFiles_filled]. split.
  - intros E name. apply (filed_none_same patch).
    destruct (filed patch L B name) as [[m f]|] eqn:F; [|reflexivity].
    pose proof (file_entry_diffFiles patch L B m name) as H.
    rewrite E, F in H. simpl in H.
    replace (method_eqb m m) with true in H by now destruct m. discriminate.
  - intros H.
    assert (F : fold_left (diffFile patch L B) (fileNames L B) None = None).
    { apply fold_left_fixed. intros n _. rewrite diffFile_filed.
      now rewrite (proj2 (filed_none_same patch L B n) (H n)). }
    unfold diffFiles. destruct (files L), (files B); auto.
Qed.

(** ** What [settingsToKeyPaths] emits *)

(** X3: whatever the tree and the live config hold, an entry emitted by
    [settingsToKeyPaths] never carries [null] or a plain object as its value
    (objects are descended into, arrays and primitives are leaves), and it
    has an [oldValue] only when asked for one. *)
Theorem settingsToKeyPaths_emits_leaves :
  forall fuel cfg obj prefix getOldValue es,
    settingsToKeyPaths fuel cfg obj prefix getOldValue = Some es ->
    forall e, In e es ->
      value e <> JNull /\
      is_plain_object (value e) = false /\
      (getOldValue = false -> oldValue e = None).
Proof.
  induction fuel as [|fuel IH]; intros cfg obj prefix g es H e He; [discriminate|].
  rewrite settingsToKeyPaths_eq in H.
  destruct (collect_spec _ _ _ _ H e He) as [[]|(p & sub & _ & Hs & Hi)].
  unfold property_paths in Hs. cbv zeta in Hs.
  destruct (typeof_object _ && negb (isArray _)) eqn:E.
  - eapply IH; eassumption.
  - injection Hs as <-. destruct Hi as [<-|[]]. cbn [value oldValue].
    set (item := if is_nullish (snd p) then _ else _) in *.
    repeat split.
    + intros N. rewrite N in E. discriminate.
    + destruct item; try reflexivity; discriminate.
    + now intros ->.
Qed.

Lemma settingsToKeyPaths_emits_leaves_witness :
  JNum 7 <> JNull /\
  is_plain_object (JNum 7) = false /\
  (false = false -> @None json = None).
Proof.
  apply (settingsToKeyPaths_emits_leaves 3 Sample.live_a7
           (JObj [("*", JObj [("a", JNull)])]) "" false
           [{| keyPath := "a"; value := JNum 7; oldValue := None |}]
           eq_refl
           {| keyPath := "a"; value := JNum 7; oldValue := None |}).
  left. reflexivity.
Defined.

(** ** The updated bucket of the packages diff *)


Lemma updated_reduce_owned l qs k :
  In k (map fst (updated_reduce l (map (nest updatedDiff) qs))) ->
  hasOwn l k = true /\ In k (map fst qs).
Proof.
  induction qs as [|[k' v'] qs IH]; simpl; [contradiction|].
  destruct (hasOwn l k') eqn:Hh.
  - destruct (isObject _ && isEmpty _).
    + intros H. destruct (IH H). auto.
    + intros [<-|H]; [auto|]. destruct (IH H). auto.
  - intros H. destruct (IH H). auto.
Qed.

Lemma falsy_no_keys v : truthy v = false -> object_keys v = [].
Proof.
  destruct v as [ | | b | n | s | | ]; simpl; try reflexivity; try discriminate.
  destruct s; [reflexivity | discriminate].
Qed.

Lemma names_of_kept v : names_of (if_truthy (prune v)) = object_keys v.
Proof.
  unfold prune. destruct (isEmpty v) eqn:E; simpl.
  - now rewrite (isEmpty_no_keys _ E).
  - destruct (truthy v) eqn:T; [reflexivity|].
    simpl. now rewrite (falsy_no_keys _ T).
Qed.

Lemma updated_packages_both A B :
  truthy (packages B) && truthy (packages A) = true ->
  updated_packages (diffPackages A B)
  = object_keys (updatedDiff (packages A) (packages B)) /\
  (forall d l name pair,
     diffPackages A B = Some d -> packages_updated d = Some l ->
     In (name, pair) l ->
     pair = {| backup := prop_get (packages B) name;
               local := prop_get (packages A) name |}).
Proof.
  intros T. unfold diffPackages. rewrite T. unfold detailedDiff. simpl.
  set (u := updatedDiff (packages A) (packages B)).
  assert (K : forall o : option json,
            match option_map
                    (fun v => map (fun name =>
                                     (name, {| backup := prop_get (packages B) name;
                                               local := prop_get (packages A) name |}))
                                (object_keys v)) o
            with Some l => map fst l | None => [] end = names_of o).
  { intros [v|]; simpl; [|reflexivity]. rewrite map_map. simpl. apply map_id. }
  pose proof (names_of_kept u) as P.
  split.
  - destruct (prune (addedDiff (packages A) (packages B))), (prune u) eqn:Eu,
      (prune (deletedDiff (packages A) (packages B)));
      simpl; rewrite ?K; exact P.
  - intros d l name pair Hd Hl Hin.
    assert (Hl' : option_map
              (fun v => map (fun name =>
                               (name, {| backup := prop_get (packages B) name;
                                         local := prop_get (packages A) name |}))
                          (object_keys v)) (if_truthy (prune u)) = Some l).
    { destruct (prune (addedDiff (packages A) (packages B))), (prune u),
        (prune (deletedDiff (packages A) (packages B)));
        try discriminate Hd; apply some_inj in Hd; subst d; exact Hl. }
    destruct (if_truthy (prune u)) as [v|]; [|discriminate].
    simpl in Hl'. apply some_inj in Hl'. subst l.
    apply in_map_iff in Hin as (n & E & _). now inversion E.
Qed.



(** X5: when both sides hold their packages as objects, every entry of the
    updated bucket is for a name that is a key on both sides, and carries
    exactly the backup's and the local descriptor of that name. *)
Theorem packages_updated_entries :
  forall (localData backupData : Snapshot) lps bps d l name pair,
    packages localData = JObj lps ->
    packages backupData = JObj bps ->
    diffPackages localData backupData = Some d ->
    packages_updated d = Some l ->
    In (name, pair) l ->
    exists dl db,
      assoc name lps = Some dl /\ In (name, db) bps /\
      local pair = dl /\ backup pair = prop_get (JObj bps) name.
Proof.
  intros A B lps bps d l name pair EA EB Hd Hl Hin.
  assert (T : truthy (packages B) && truthy (packages A) = true)
    by (rewrite EA, EB; reflexivity).
  destruct (updated_packages_both A B T) as [Hk Hp].
  pose proof (Hp d l name pair Hd Hl Hin) as ->.
  assert (Hn : In name (updated_packages (diffPackages A B))).
  { unfold updated_packages. rewrite Hd, Hl.
    change name with (fst (name, {| backup := prop_get (packages B) name;
                                    local := prop_get (packages A) name |})).
    now apply in_map. }
  rewrite Hk, EA, EB, updatedDiff_eq in Hn. cbn [strict_eq isObject negb orb] in Hn.
  unfold object_keys in Hn. cbn [entries own_entries] in Hn.
  apply updated_reduce_owned in Hn as [Hh Hb].
  unfold hasOwn in Hh. cbn [own_entries] in Hh.
  destruct (assoc name lps) as [dl|] eqn:El; [|discriminate].
  apply in_map_iff in Hb as ([n db] & E & Hb). simpl in E. subst n.
  exists dl, db. cbn [local backup]. rewrite EA, EB. unfold prop_get at 1.
  cbn [own_entries]. rewrite El. auto.
Qed.

Lemma packages_updated_entries_witness :
  exists dl db,
    assoc "foo" [("foo", JObj [("version", JStr "1.0")])] = Some dl /\
    In ("foo", db) [("foo", JObj [("version", JStr "2.0")])] /\
    dl = JObj [("version", JStr "1.0")].
Proof.
  destruct (packages_updated_entries
              (Sample.only "foo" (JObj [("version", JStr "1.0")]))
              (Sample.only "foo" (JObj [("version", JStr "2.0")]))
              [("foo", JObj [("version", JStr "1.0")])]
              [("foo", JObj [("version", JStr "2.0")])]
              _ _ "foo"
              {| backup := JObj [("version", JStr "2.0")];
                 local := JObj [("version", JStr "1.0")] |}
              eq_refl eq_refl eq_refl eq_refl (or_introl eq_refl))
    as (dl & db & H1 & H2 & H3 & _).
  exists dl, db. split; [exact H1|]. split; [exact H2|]. now symmetry.
Defined.


(** ** The files of a backup snapshot *)

Lemma backslash_to_slash_no_slash s t :
  backslash_to_slash s = t -> no_slash t = true -> s = t.
Proof.
  revert t. induction s as [|c s IH]; intros t E H; simpl in E; subst t;
    [reflexivity|].
  unfold no_slash in H. simpl in H. apply andb_true_iff in H as [Hc H].
  f_equal.
  - destruct (Ascii.eqb c backslash); [discriminate Hc | reflexivity].
  - symmetry. rewrite <- (IH _ eq_refl H) at 1. reflexivity.
Qed.

Lemma backslash_to_slash_idem s :
  backslash_to_slash (backslash_to_slash s) = backslash_to_slash s.
Proof.
  induction s as [|c s IH]; simpl; [reflexivity|]. rewrite IH. f_equal.
  destruct (Ascii.eqb_spec c backslash) as [->|Hne]; [reflexivity|].
  destruct (Ascii.eqb_spec c backslash); [contradiction | reflexivity].
Qed.

Lemma one_of_In s l : one_of s l = true <-> In s l.
Proof.
  unfold one_of. rewrite existsb_exists. split.
  - intros (x & I & E). apply String.eqb_eq in E. now subst x.
  - intros I. exists s. split; [exact I | apply String.eqb_refl].
Qed.

Lemma case_names_no_slash n : In n case_names -> no_slash n = true.
Proof.
  intros H. repeat (destruct H as [<-|H]; [reflexivity|]). destruct H.
Qed.

(** Only a name that has no case of its own is rewritten; what comes out
    has no case of its own either. *)
Lemma default_name_not_case fileName :
  ~ In fileName case_names -> ~ In (backslash_to_slash fileName) case_names.
Proof.
  intros H I. apply H.
  rewrite (backslash_to_slash_no_slash fileName _ eq_refl
             (case_names_no_slash _ I)).
  exact I.
Qed.

Lemma In_assoc_set {A} k (v : A) n v0 b :
  In (k, v) (assoc_set n v0 b) -> (k = n /\ v = v0) \/ In (k, v) b.
Proof.
  induction b as [|[k' v'] b IH]; simpl.
  - intros [E|[]]. inversion E. now left.
  - destruct (String.eqb_spec n k') as [->|Hne]; simpl.
    + intros [E|I]; [inversion E; now left | right; now right].
    + intros [E|I]; [right; now left|].
      destruct (IH I) as [?|?]; [now left | right; now right].
Qed.

Lemma assoc_set_NoDup {A} k (v : A) b :
  NoDup (map fst b) -> NoDup (map fst (assoc_set k v b)).
Proof.
  induction b as [|[k' v'] b IH]; simpl; intros H.
  - constructor; [intros [] | constructor].
  - destruct (String.eqb_spec k k') as [->|Hne]; simpl; [exact H|].
    inversion H as [|? ? Hn Hd]; subst. constructor; [|now apply IH].
    rewrite In_assoc_set_keys. intros [E|I]; [now subst | contradiction].
Qed.

Lemma not_case_one_of name l :
  ~ In name case_names -> incl l case_names -> one_of name l = false.
Proof.
  intros N H. destruct (one_of name l) eqn:E; [|reflexivity].
  exfalso. apply N, H. now apply one_of_In.
Qed.

Section BackupFiles.

Variable JSON_parse : string -> option json.
Variable syntax_error : string -> string.
Variable type_error : string.
Variable resolve : string -> string -> string.
Variable configDirPath userKeymapPath userStyleSheetPath : string.
Variable minimatch : string -> string -> bool.
Variable isBundledPackage : string -> bool.
Variable localeCompare : string -> string -> Z.
Variable cfg : Atom.config.

Let one_blob :=
  classifyBlob JSON_parse syntax_error type_error resolve configDirPath
    userKeymapPath userStyleSheetPath minimatch isBundledPackage cfg.
Let all_blobs :=
  classifyBlobs JSON_parse syntax_error type_error resolve configDirPath
    userKeymapPath userStyleSheetPath minimatch isBundledPackage cfg.

(** Where [restore] will write a file of that name. *)
Let target (name : string) : string :=
  if one_of name ["keymap.cson"; "keymap.json"] then userKeymapPath
  else if one_of name ["styles.css"; "styles.less"] then userStyleSheetPath
  else resolve configDirPath name.

(** The setting that lets a file of that name through. *)
Let let_through (name : string) : bool :=
  if one_of name ["keymap.cson"; "keymap.json"]
  then flag cfg "sync-settings.syncKeymap"
  else if one_of name ["styles.css"; "styles.less"]
  then flag cfg "sync-settings.syncStyles"
  else if one_of name ["init.coffee"; "init.js"]
  then flag cfg "sync-settings.syncInit"
  else if one_of name ["snippets.cson"; "snippets.json"]
  then flag cfg "sync-settings.syncSnippets"
  else
    one_of name (map backslash_to_slash
                   (string_items (Atom.get cfg "sync-settings.extraFiles")))
    || existsb (minimatch name)
         (string_items (Atom.get cfg "sync-settings.extraFilesGlob"))
       && negb (existsb (minimatch name)
                  (string_items (Atom.get cfg "sync-settings.ignoreFilesGlob"))).

Let from_blob (fileName text name : string) (f : File) : Prop :=
  name = backslash_to_slash fileName /\
  name <> "settings.json" /\ name <> "packages.json" /\
  content f = text /\ path f = target name /\ let_through name = true.

Lemma one_blob_files data fileName text n data' :
  one_blob data fileName text = (n, Ok data') ->
  draft_files data' = draft_files data \/
  exists name f, draft_files data' = assoc_set name f (draft_files data) /\
                 from_blob fileName text name f.
Proof.
  unfold one_blob, classifyBlob.
  destruct (String.eqb_spec fileName "settings.json") as [->|N1].
  { intros H. apply pair_equal_spec in H as [_ H]. left.
    destruct (flag cfg "sync-settings.syncSettings"); [|now inversion H].
    destruct (parse JSON_parse syntax_error text); simpl in H; now inversion H. }
  destruct (String.eqb_spec fileName "packages.json") as [->|N2].
  { intros H. apply pair_equal_spec in H as [_ H]. left.
    destruct (flag cfg "sync-settings.syncPackages"
              || flag cfg "sync-settings.syncThemes"); [|now inversion H].
    destruct (parsePackages _ _ _ _ _ _); simpl in H; now inversion H. }
  destruct (one_of fileName ["keymap.cson"; "keymap.json"]) eqn:K1.
  { intros H. apply pair_equal_spec in H as [_ H].
    destruct (flag cfg "sync-settings.syncKeymap") eqn:F;
      inversion H; subst data'; [right | now left].
    exists fileName, {| path := userKeymapPath; content := text |}.
    split; [reflexivity|]. unfold from_blob, target, let_through.
    rewrite K1. repeat split; auto.
    apply one_of_In in K1.
    repeat (destruct K1 as [<-|K1]; [reflexivity|]). destruct K1. }
  destruct (one_of fileName ["styles.css"; "styles.less"]) eqn:K2.
  { intros H. apply pair_equal_spec in H as [_ H].
    destruct (flag cfg "sync-settings.syncStyles") eqn:F;
      inversion H; subst data'; [right | now left].
    exists fileName, {| path := userStyleSheetPath; content := text |}.
    split; [reflexivity|]. unfold from_blob, target, let_through.
    rewrite K1, K2. repeat split; auto.
    apply one_of_In in K2.
    repeat (destruct K2 as [<-|K2]; [reflexivity|]). destruct K2. }
  destruct (one_of fileName ["init.coffee"; "init.js"]) eqn:K3.
  { intros H. apply pair_equal_spec in H as [_ H].
    destruct (flag cfg "sync-settings.syncInit") eqn:F;
      inversion H; subst data'; [right | now left].
    exists fileName,
      {| path := resolve configDirPath fileName; content := text |}.
    split; [reflexivity|]. unfold from_blob, target, let_through.
    rewrite K1, K2, K3. repeat split; auto.
    apply one_of_In in K3.
    repeat (destruct K3 as [<-|K3]; [reflexivity|]). destruct K3. }
  destruct (one_of fileName ["snippets.cson"; "snippets.json"]) eqn:K4.
  { intros H. apply pair_equal_spec in H as [_ H].
    destruct (flag cfg "sync-settings.syncSnippets") eqn:F;
      inversion H; subst data'; [right | now left].
    exists fileName,
      {| path := resolve configDirPath fileName; content := text |}.
    split; [reflexivity|]. unfold from_blob, target, let_through.
    rewrite K1, K2, K3, K4. repeat split; auto.
    apply one_of_In in K4.
    repeat (destruct K4 as [<-|K4]; [reflexivity|]). destruct K4. }
  assert (NC : ~ In fileName case_names).
  { intros I. destruct I as [<-|I]; [now apply N1|].
    destruct I as [<-|I]; [now apply N2|].
    destruct I as [<-|I]; [discriminate K1|].
    destruct I as [<-|I]; [discriminate K1|].
    destruct I as [<-|I]; [discriminate K2|].
    destruct I as [<-|I]; [discriminate K2|].
    destruct I as [<-|I]; [discriminate K3|].
    destruct I as [<-|I]; [discriminate K3|].
    destruct I as [<-|I]; [discriminate K4|].
    destruct I as [<-|I]; [discriminate K4|]. destruct I. }
  apply default_name_not_case in NC.
  set (name := backslash_to_slash fileName) in *.
  assert (C1 : one_of name ["keymap.cson"; "keymap.json"] = false).
  { apply not_case_one_of; [exact NC|].
    intros x I. repeat (destruct I as [<-|I]; [simpl; tauto|]). destruct I. }
  assert (C2 : one_of name ["styles.css"; "styles.less"] = false).
  { apply not_case_one_of; [exact NC|].
    intros x I. repeat (destruct I as [<-|I]; [simpl; tauto|]). destruct I. }
  assert (C3 : one_of name ["init.coffee"; "init.js"] = false).
  { apply not_case_one_of; [exact NC|].
    intros x I. repeat (destruct I as [<-|I]; [simpl; tauto|]). destruct I. }
  assert (C4 : one_of name ["snippets.cson"; "snippets.json"] = false).
  { apply not_case_one_of; [exact NC|].
    intros x I. repeat (destruct I as [<-|I]; [simpl; tauto|]). destruct I. }
  assert (G : forall b, let_through name = b ->
              b = true ->
              from_blob fileName text name
                {| path := resolve configDirPath name; content := text |}).
  { intros b E ->. unfold from_blob, target. rewrite C1, C2.
    repeat split; auto.
    - intros E'. apply NC. rewrite E'. simpl. tauto.
    - intros E'. apply NC. rewrite E'. simpl. tauto. }
  intros H. apply pair_equal_spec in H as [_ H].
  destruct (one_of name (map backslash_to_slash _)) eqn:X.
  { inversion H; subst data'. right.
    exists name, {| path := resolve configDirPath name; content := text |}.
    split; [reflexivity|]. apply (G true); [|reflexivity].
    unfold let_through. rewrite C1, C2, C3, C4, X. reflexivity. }
  destruct (existsb (minimatch name) _ && negb (existsb (minimatch name) _))
    eqn:Y; inversion H; subst data'; [right | now left].
  exists name, {| path := resolve configDirPath name; content := text |}.
  split; [reflexivity|]. apply (G true); [|reflexivity].
  unfold let_through. rewrite C1, C2, C3, C4, X, Y. reflexivity.
Qed.

Lemma all_blobs_files blobs : forall data data',
  all_blobs data blobs = inl data' ->
  (NoDup (map fst (draft_files data)) ->
   NoDup (map fst (draft_files data'))) /\
  forall name f, In (name, f) (draft_files data') ->
    In (name, f) (draft_files data) \/
    exists fileName text, In (fileName, text) blobs /\
                          from_blob fileName text name f.
Proof.
  induction blobs as [|[fileName text] blobs IH]; intros data data' H.
  - simpl in H. inversion H; subst. split; [auto | intros; now left].
  - unfold all_blobs in H. simpl in H. fold all_blobs in H.
    destruct (classifyBlob _ _ _ _ _ _ _ _ _ _ data fileName text)
      as [n [d|e]] eqn:E; [|discriminate].
    fold one_blob in E. apply one_blob_files in E.
    destruct (IH _ _ H) as [ND HI]. split.
    + intros N. apply ND.
      destruct E as [->|(name & f & -> & _)]; [exact N|].
      now apply assoc_set_NoDup.
    + intros name f I. destruct (HI name f I) as [I'|(fn & tx & I' & F)].
      * destruct E as [E|(name' & f' & E & F)]; rewrite E in I';
          [now left|].
        apply In_assoc_set in I' as [[-> ->]|I']; [|now left].
        right. exists fileName, text. split; [now left | exact F].
      * right. exists fn, tx. split; [now right | exact F].
Qed.

Lemma getBackupData_files blobs s ns fs name f :
  getBackupData JSON_parse syntax_error type_error resolve configDirPath
    userKeymapPath userStyleSheetPath minimatch isBundledPackage
    localeCompare cfg blobs = (Some s, ns) ->
  files s = Some fs -> In (name, f) fs ->
  exists fileName text, In (fileName, text) blobs /\
                        from_blob fileName text name f.
Proof.
  unfold getBackupData. fold all_blobs.
  destruct (all_blobs _ blobs) as [data|n] eqn:E; [|discriminate].
  intros H Hf I. apply pair_equal_spec in H as [H _].
  apply some_inj in H. subst s. simpl in Hf.
  destruct (all_blobs_files _ _ _ E) as [ND HI].
  specialize (ND (NoDup_nil _)).
  destruct (draft_files data) as [|p l] eqn:D; [discriminate|].
  apply some_inj in Hf. subst fs.
  apply (Permutation_in _ (Permutation_sym (sortObject_perm _ _ ND))) in I.
  destruct (HI name f I) as [[]|R]. exact R.
Qed.

Lemma getBackupData_files_shape blobs s ns :
  getBackupData JSON_parse syntax_error type_error resolve configDirPath
    userKeymapPath userStyleSheetPath minimatch isBundledPackage
    localeCompare cfg blobs = (Some s, ns) ->
  ns = [] /\ files s <> Some [] /\
  forall fs, files s = Some fs -> NoDup (map fst fs).
Proof.
  unfold getBackupData. fold all_blobs.
  destruct (all_blobs _ blobs) as [data|n] eqn:E; [|discriminate].
  intros H. apply pair_equal_spec in H as [H <-].
  apply some_inj in H. subst s. simpl. split; [reflexivity|].
  destruct (all_blobs_files _ _ _ E) as [ND _].
  specialize (ND (NoDup_nil _)).
  destruct (draft_files data) as [|p l] eqn:D; [split; [discriminate|]|].
  - intros fs Hf. discriminate Hf.
  - assert (P := sortObject_perm (by_key localeCompare) (p :: l) ND). split.
    + intros Hs. apply some_inj in Hs.
      rewrite Hs in P. apply Permutation_sym, Permutation_nil in P.
      discriminate P.
    + intros fs Hf. apply some_inj in Hf. subst fs.
      eapply Permutation_NoDup; [|exact ND].
      apply Permutation_map. exact P.
Qed.

End BackupFiles.


Example desk_backup :
  Sample.classify_with Desk.sync_files Desk.gist_blobs = (Some Desk.backup, []).
Proof. reflexivity. Qed.

(** X6: every file of a backup snapshot comes from a blob of the gist:
    its name is the blob's with backslashes turned into slashes, so it
    holds no backslash, and is never [settings.json] or [packages.json];
    its content is the blob's; its path is the user's keymap or style
    sheet for those names and lies under the config folder otherwise. *)
Theorem getBackupData_files_from_blobs :
  forall JSON_parse syntax_error type_error resolve configDirPath
         userKeymapPath userStyleSheetPath minimatch isBundledPackage
         localeCompare cfg blobs s ns fs name f,
    getBackupData JSON_parse syntax_error type_error resolve configDirPath
      userKeymapPath userStyleSheetPath minimatch isBundledPackage
      localeCompare cfg blobs = (Some s, ns) ->
    files s = Some fs -> In (name, f) fs ->
    name <> "settings.json" /\ name <> "packages.json" /\
    backslash_to_slash name = name /\
    (exists fileName, In (fileName, content f) blobs /\
                      name = backslash_to_slash fileName) /\
    path f =
      if one_of name ["keymap.cson"; "keymap.json"] then userKeymapPath
      else if one_of name ["styles.css"; "styles.less"] then userStyleSheetPath
      else resolve configDirPath name.
Proof.
  intros JSON_parse syntax_error type_error resolve configDirPath
    userKeymapPath userStyleSheetPath minimatch isBundledPackage
    localeCompare cfg blobs s ns fs name f H Hf I.
  destruct (getBackupData_files _ _ _ _ _ _ _ _ _ _ _ _ _ _ _ _ _ H Hf I)
    as (fileName & text & Ib & E & N1 & N2 & C & P & _).
  split; [exact N1|]. split; [exact N2|]. split.
  - rewrite E. apply backslash_to_slash_idem.
  - split; [|exact P]. exists fileName. rewrite C. split; [exact Ib | exact E].
Qed.

Lemma getBackupData_files_from_blobs_witness :
  "dir/sub.txt" <> "settings.json" /\ "dir/sub.txt" <> "packages.json" /\
  backslash_to_slash "dir/sub.txt" = "dir/sub.txt" /\
  (exists fileName, In (fileName, "t") Desk.gist_blobs /\
                    "dir/sub.txt" = backslash_to_slash fileName) /\
  "/atom/dir/sub.txt" = Sample.resolve "/atom" "dir/sub.txt".
Proof.
  apply (getBackupData_files_from_blobs Sample.parse_two Sample.syntax_error
           Sample.type_error Sample.resolve "/atom" "/atom/keymap.cson"
           "/atom/styles.less" Sample.no_glob Sample.not_bundled
           code_unit_compare Desk.sync_files Desk.gist_blobs Desk.backup []
           Desk.backup_files "dir/sub.txt"
           (Sample.file "/atom/dir/sub.txt" "t")).
  - reflexivity.
  - reflexivity.
  - left. reflexivity.
Defined.

(** X7: a file is in a backup snapshot only if the settings let it
    through: the keymap, style sheet, init script and snippets each need
    their own switch; any other name must be listed in [extraFiles]
    (compared with slashes) or match a glob of [extraFilesGlob] and none
    of [ignoreFilesGlob]. *)
Theorem getBackupData_files_let_through :
  forall JSON_parse syntax_error type_error resolve configDirPath
         userKeymapPath userStyleSheetPath minimatch isBundledPackage
         localeCompare cfg blobs s ns fs name f,
    getBackupData JSON_parse syntax_error type_error resolve configDirPath
      userKeymapPath userStyleSheetPath minimatch isBundledPackage
      localeCompare cfg blobs = (Some s, ns) ->
    files s = Some fs -> In (name, f) fs ->
    (In name ["keymap.cson"; "keymap.json"] ->
     flag cfg "sync-settings.syncKeymap" = true) /\
    (In name ["styles.css"; "styles.less"] ->
     flag cfg "sync-settings.syncStyles" = true) /\
    (In name ["init.coffee"; "init.js"] ->
     flag cfg "sync-settings.syncInit" = true) /\
    (In name ["snippets.cson"; "snippets.json"] ->
     flag cfg "sync-settings.syncSnippets" = true) /\
    (~ In name case_names ->
     In name (map backslash_to_slash
                (string_items (Atom.get cfg "sync-settings.extraFiles"))) \/
     (exists g,
        In g (string_items (Atom.get cfg "sync-settings.extraFilesGlob")) /\
        minimatch name g = true) /\
     (forall g,
        In g (string_items (Atom.get cfg "sync-settings.ignoreFilesGlob")) ->
        minimatch name g = false)).
Proof.
  intros JSON_parse syntax_error type_error resolve configDirPath
    userKeymapPath userStyleSheetPath minimatch isBundledPackage
    localeCompare cfg blobs s ns fs name f H Hf I.
  destruct (getBackupData_files _ _ _ _ _ _ _ _ _ _ _ _ _ _ _ _ _ H Hf I)
    as (fileName & text & _ & _ & _ & _ & _ & _ & L).
  destruct (one_of name ["keymap.cson"; "keymap.json"]) eqn:K1.
  { apply one_of_In in K1. split; [auto|].
    repeat split; intros J; exfalso;
      repeat (destruct K1 as [<-|K1];
              [repeat (destruct J as [J|J]; [discriminate J|]);
               try (apply J; simpl; tauto); try destruct J|]);
      destruct K1. }
  destruct (one_of name ["styles.css"; "styles.less"]) eqn:K2.
  { apply one_of_In in K2. split; [|split; [auto|]].
    { intros J. apply one_of_In in J. rewrite J in K1. discriminate. }
    repeat split; intros J; exfalso;
      repeat (destruct K2 as [<-|K2];
              [repeat (destruct J as [J|J]; [discriminate J|]);
               try (apply J; simpl; tauto); try destruct J|]);
      destruct K2. }
  destruct (one_of name ["init.coffee"; "init.js"]) eqn:K3.
  { apply one_of_In in K3. split; [|split; [|split; [auto|]]].
    { intros J. apply one_of_In in J. rewrite J in K1. discriminate. }
    { intros J. apply one_of_In in J. rewrite J in K2. discriminate. }
    repeat split; intros J; exfalso;
      repeat (destruct K3 as [<-|K3];
              [repeat (destruct J as [J|J]; [discriminate J|]);
               try (apply J; simpl; tauto); try destruct J|]);
      destruct K3. }
  destruct (one_of name ["snippets.cson"; "snippets.json"]) eqn:K4.
  { apply one_of_In in K4. split; [|split; [|split; [|split; [auto|]]]].
    { intros J. apply one_of_In in J. rewrite J in K1. discriminate. }
    { intros J. apply one_of_In in J. rewrite J in K2. discriminate. }
    { intros J. apply one_of_In in J. rewrite J in K3. discriminate. }
    intros J; exfalso;
      repeat (destruct K4 as [<-|K4]; [apply J; simpl; tauto|]);
      destruct K4. }
  split; [|split; [|split; [|split]]].
  { intros J. apply one_of_In in J. rewrite J in K1. discriminate. }
  { intros J. apply one_of_In in J. rewrite J in K2. discriminate. }
  { intros J. apply one_of_In in J. rewrite J in K3. discriminate. }
  { intros J. apply one_of_In in J. rewrite J in K4. discriminate. }
  intros _. apply orb_true_iff in L as [L|L].
  - left. now apply one_of_In.
  - right. apply andb_true_iff in L as [L1 L2]. split.
    + apply existsb_exists in L1 as (g & Ig & M). now exists g.
    + intros g Ig. apply negb_true_iff in L2.
      destruct (minimatch name g) eqn:M; [|reflexivity].
      rewrite <- L2. symmetry. apply existsb_exists. now exists g.
Qed.

Lemma getBackupData_files_let_through_witness :
  flag Desk.sync_files "sync-settings.syncKeymap" = true.
Proof.
  apply (getBackupData_files_let_through Sample.parse_two Sample.syntax_error
           Sample.type_error Sample.resolve "/atom" "/atom/keymap.cson"
           "/atom/styles.less" Sample.no_glob Sample.not_bundled
           code_unit_compare Desk.sync_files Desk.gist_blobs Desk.backup []
           Desk.backup_files "keymap.cson"
           (Sample.file "/atom/keymap.cson" "k")).
  - reflexivity.
  - reflexivity.
  - right. left. reflexivity.
  - left. reflexivity.
Defined.

(** X8: when [getBackupData] returns a snapshot it has notified nothing;
    the snapshot's [files] is [null] or an object with at least one entry,
    never an empty object, and no name is filed twice. *)
Theorem getBackupData_files_null_or_nonempty :
  forall JSON_parse syntax_error type_error resolve configDirPath
         userKeymapPath userStyleSheetPath minimatch isBundledPackage
         localeCompare cfg blobs s ns,
    getBackupData JSON_parse syntax_error type_error resolve configDirPath
      userKeymapPath userStyleSheetPath minimatch isBundledPackage
      localeCompare cfg blobs = (Some s, ns) ->
    ns = [] /\ files s <> Some [] /\
    forall fs, files s = Some fs -> NoDup (map fst fs).
Proof.
  intros JSON_parse syntax_error type_error resolve configDirPath
    userKeymapPath userStyleSheetPath minimatch isBundledPackage
    localeCompare cfg blobs s ns H.
  exact (getBackupData_files_shape _ _ _ _ _ _ _ _ _ _ _ _ _ _ H).
Qed.

Lemma getBackupData_files_null_or_nonempty_witness :
  @nil notice = [] /\ files Desk.backup <> Some [] /\
  forall fs, files Desk.backup = Some fs -> NoDup (map fst fs).
Proof.
  apply (getBackupData_files_null_or_nonempty Sample.parse_two
           Sample.syntax_error Sample.type_error Sample.resolve "/atom"
           "/atom/keymap.cson" "/atom/styles.less" Sample.no_glob
           Sample.not_bundled code_unit_compare Desk.sync_files
           Desk.gist_blobs Desk.backup []).
  reflexivity.
Defined.


Section BackupQuiet.

Variable JSON_parse : string -> option json.
Variable syntax_error : string -> string.
Variable type_error : string.
Variable resolve : string -> string -> string.
Variable configDirPath userKeymapPath userStyleSheetPath : string.
Variable minimatch : string -> string -> bool.
Variable isBundledPackage : string -> bool.
Variable cfg : Atom.config.

Hypothesis no_settings : flag cfg "sync-settings.syncSettings" = false.
Hypothesis no_packages : flag cfg "sync-settings.syncPackages" = false.
Hypothesis no_themes : flag cfg "sync-settings.syncThemes" = false.

Let quiet_blob :=
  classifyBlob JSON_parse syntax_error type_error resolve configDirPath
    userKeymapPath userStyleSheetPath minimatch isBundledPackage cfg.
Let quiet_blobs :=
  classifyBlobs JSON_parse syntax_error type_error resolve configDirPath
    userKeymapPath userStyleSheetPath minimatch isBundledPackage cfg.

Lemma quiet_blob_ok data fileName text :
  exists data', snd (quiet_blob data fileName text) = Ok data' /\
                draft_settings data' = draft_settings data /\
                draft_packages data' = draft_packages data.
Proof.
  unfold quiet_blob, classifyBlob.
  rewrite no_settings, no_packages, no_themes. cbn [orb].
  destruct (String.eqb fileName "settings.json"); [now exists data|].
  destruct (String.eqb fileName "packages.json"); [now exists data|].
  destruct (one_of fileName ["keymap.cson"; "keymap.json"]).
  { destruct (flag cfg "sync-settings.syncKeymap"); eexists;
      (split; [reflexivity|]); split; reflexivity. }
  destruct (one_of fileName ["styles.css"; "styles.less"]).
  { destruct (flag cfg "sync-settings.syncStyles"); eexists;
      (split; [reflexivity|]); split; reflexivity. }
  destruct (one_of fileName ["init.coffee"; "init.js"]).
  { destruct (flag cfg "sync-settings.syncInit"); eexists;
      (split; [reflexivity|]); split; reflexivity. }
  destruct (one_of fileName ["snippets.cson"; "snippets.json"]).
  { destruct (flag cfg "sync-settings.syncSnippets"); eexists;
      (split; [reflexivity|]); split; reflexivity. }
  cbn [snd].
  destruct (one_of _ (map backslash_to_slash _)).
  { eexists; (split; [reflexivity|]); split; reflexivity. }
  destruct (existsb _ _ && negb (existsb _ _)); eexists;
    (split; [reflexivity|]); split; reflexivity.
Qed.

Lemma quiet_blobs_ok blobs : forall data,
  exists data', quiet_blobs data blobs = inl data' /\
                draft_settings data' = draft_settings data /\
                draft_packages data' = draft_packages data.
Proof.
  induction blobs as [|[fileName text] blobs IH]; intros data.
  - exists data. repeat split.
  - destruct (quiet_blob_ok data fileName text) as (d & E & S & P).
    destruct (IH d) as (d' & E' & S' & P').
    exists d'. split; [|split; congruence].
    unfold quiet_blobs. simpl. fold quiet_blob. fold quiet_blobs.
    destruct (quiet_blob data fileName text) as [n r]. simpl in E.
    rewrite E. exact E'.
Qed.

End BackupQuiet.

(** X9: with the settings, the packages and the themes all switched off
    no blob is parsed as JSON, so [getBackupData] always returns a
    snapshot, whatever the blobs hold, notifies nothing, and leaves both
    [settings] and [packages] at [null]. *)
Theorem getBackupData_quiet_without_json :
  forall JSON_parse syntax_error type_error resolve configDirPath
         userKeymapPath userStyleSheetPath minimatch isBundledPackage
         localeCompare cfg blobs,
    flag cfg "sync-settings.syncSettings" = false ->
    flag cfg "sync-settings.syncPackages" = false ->
    flag cfg "sync-settings.syncThemes" = false ->
    exists s,
      getBackupData JSON_parse syntax_error type_error resolve configDirPath
        userKeymapPath userStyleSheetPath minimatch isBundledPackage
        localeCompare cfg blobs = (Some s, []) /\
      settings s = JNull /\ packages s = JNull.
Proof.
  intros JSON_parse syntax_error type_error resolve configDirPath
    userKeymapPath userStyleSheetPath minimatch isBundledPackage
    localeCompare cfg blobs H1 H2 H3.
  unfold getBackupData.
  destruct (quiet_blobs_ok JSON_parse syntax_error type_error resolve
              configDirPath userKeymapPath userStyleSheetPath minimatch
              isBundledPackage cfg H1 H2 H3 blobs
              {| draft_settings := JNull; draft_packages := JNull;
                 draft_files := [] |}) as (d & E & S & P).
  rewrite E. eexists. split; [reflexivity|]. split; assumption.
Qed.

Lemma getBackupData_quiet_without_json_witness :
  exists s,
    Sample.classify_with Desk.sync_files Desk.gist_blobs = (Some s, []) /\
    settings s = JNull /\ packages s = JNull.
Proof.
  apply (getBackupData_quiet_without_json Sample.parse_two Sample.syntax_error
           Sample.type_error Sample.resolve "/atom" "/atom/keymap.cson"
           "/atom/styles.less" Sample.no_glob Sample.not_bundled
           code_unit_compare Desk.sync_files Desk.gist_blobs);
    reflexivity.
Defined.


(** ** The packages of a backup *)

Lemma filter_filter {A} (f g : A -> bool) l :
  filter g (filter f l) = filter (fun x => f x && g x) l.
Proof.
  induction l as [|x l IH]; simpl; [reflexivity|].
  destruct (f x); simpl; [|exact IH]. destruct (g x); now rewrite IH.
Qed.

Lemma NoDup_keys_filter {A} (g : string * A -> bool) ps :
  NoDup (map fst ps) -> NoDup (map fst (filter g ps)).
Proof.
  induction ps as [|[k v] ps IH]; simpl; intros H; [constructor|].
  inversion H as [|? ? Hn Hd]; subst.
  destruct (g (k, v)); simpl; [|now apply IH].
  constructor; [|now apply IH].
  intros I. apply Hn. apply in_map_iff in I as (p & E & I).
  apply filter_In in I as [I _]. apply in_map_iff. now exists p.
Qed.

Lemma filterObject_object type_error ps filterFn g :
  (forall p, In p ps -> filterFn p = Ok (g p)) ->
  NoDup (map fst ps) ->
  filterObject type_error (JObj ps) filterFn = Ok (JObj (filter g ps)).
Proof.
  intros Hf Hn. unfold filterObject. cbn [is_nullish entries].
  assert (G : forall l acc, (forall p, In p l -> filterFn p = Ok (g p)) ->
            fold_left
              (fun acc p =>
                 l <- acc ;; keep <- filterFn p ;;
                 Ok (if keep then l ++ [p] else l))
              l (Ok acc) = Ok (acc ++ filter g l)).
  { induction l as [|p l IH]; intros acc H; simpl.
    - now rewrite app_nil_r.
    - rewrite (H p (or_introl eq_refl)). simpl.
      destruct (g p); rewrite IH by (intros q I; apply H; now right);
        [now rewrite <- app_assoc | reflexivity]. }
  rewrite (G ps [] Hf). simpl.
  rewrite rebuild_unique; [reflexivity|]. simpl. now apply NoDup_keys_filter.
Qed.

Lemma parsePackages_object :
  forall JSON_parse syntax_error type_error isBundledPackage cfg text ps,
    JSON_parse text = Some (JObj ps) ->
    NoDup (map fst ps) ->
    (forall k v, In (k, v) ps -> is_nullish v = false) ->
    parsePackages JSON_parse syntax_error type_error isBundledPackage cfg text
    = Ok (JObj (filter
                  (fun p =>
                     (flag cfg "sync-settings.syncPackages"
                      || truthy (prop_get (snd p) "theme"))
                     && (flag cfg "sync-settings.syncThemes"
                         || negb (truthy (prop_get (snd p) "theme")))
                     && negb (flag cfg "sync-settings.onlySyncCommunityPackages"
                              && isBundledPackage (fst p)))
                  ps)).
Proof.
  intros JSON_parse syntax_error type_error isBundledPackage cfg text ps
    Hp Hn Hv.
  unfold parsePackages, parse. rewrite Hp. cbn [bind fromLegacyPackages].
  set (theme := fun p : string * json => truthy (prop_get (snd p) "theme")).
  assert (T : forall l p, incl l ps -> In p l ->
                is_theme type_error p = Ok (theme p)).
  { intros l [k v] Hl I. unfold is_theme. cbn [snd].
    now rewrite (Hv k v (Hl _ I)). }
  assert (NT : forall l p, incl l ps -> In p l ->
                 not_theme type_error p = Ok (negb (theme p))).
  { intros l p Hl I. unfold not_theme. now rewrite (T l p Hl I). }
  assert (I1 : forall g, incl (filter g ps) ps)
    by (intros g p I; now apply filter_In in I).
  destruct (flag cfg "sync-settings.syncPackages") eqn:F1;
    destruct (flag cfg "sync-settings.syncThemes") eqn:F2;
    destruct (flag cfg "sync-settings.onlySyncCommunityPackages") eqn:F3;
    cbn [negb bind orb andb].
  - rewrite (filterObject_object type_error ps _
               (fun p => negb (isBundledPackage (fst p))));
      [reflexivity | reflexivity | exact Hn].
  - do 2 f_equal. symmetry. clear. induction ps as [|p l IH]; simpl;
      [reflexivity | now rewrite IH].
  - rewrite (filterObject_object type_error ps _ (fun p => negb (theme p)));
      [| intros p I; apply (NT ps p (incl_refl _) I) | exact Hn].
    cbn [bind].
    rewrite (filterObject_object type_error _ _
               (fun p => negb (isBundledPackage (fst p))));
      [| reflexivity | now apply NoDup_keys_filter].
    now rewrite filter_filter.
  - rewrite (filterObject_object type_error ps _ (fun p => negb (theme p)));
      [| intros p I; apply (NT ps p (incl_refl _) I) | exact Hn].
    cbn [bind]. do 2 f_equal. apply filter_ext. intros p.
    unfold theme. cbn [orb andb negb]. now rewrite ?andb_true_r.
  - rewrite (filterObject_object type_error ps _ theme);
      [| intros p I; apply (T ps p (incl_refl _) I) | exact Hn].
    cbn [bind].
    rewrite (filterObject_object type_error _ _
               (fun p => negb (isBundledPackage (fst p))));
      [| reflexivity | now apply NoDup_keys_filter].
    rewrite filter_filter. do 2 f_equal. apply filter_ext. intros p.
    unfold theme. cbn [orb andb negb]. now rewrite ?andb_true_r.
  - rewrite (filterObject_object type_error ps _ theme);
      [| intros p I; apply (T ps p (incl_refl _) I) | exact Hn].
    cbn [bind]. do 2 f_equal. apply filter_ext. intros p.
    unfold theme. cbn [orb andb negb]. now rewrite ?andb_true_r.
  - rewrite (filterObject_object type_error ps _ theme);
      [| intros p I; apply (T ps p (incl_refl _) I) | exact Hn].
    cbn [bind].
    rewrite (filterObject_object type_error _ _ (fun p => negb (theme p)));
      [| intros p I; apply (NT _ p (I1 _) I) | now apply NoDup_keys_filter].
    cbn [bind].
    rewrite (filterObject_object type_error _ _
               (fun p => negb (isBundledPackage (fst p))));
      [| reflexivity | do 2 apply NoDup_keys_filter; exact Hn].
    rewrite !filter_filter. do 2 f_equal. apply filter_ext. intros p.
    unfold theme. cbn [orb andb negb]. now rewrite ?andb_assoc.
  - rewrite (filterObject_object type_error ps _ theme);
      [| intros p I; apply (T ps p (incl_refl _) I) | exact Hn].
    cbn [bind].
    rewrite (filterObject_object type_error _ _ (fun p => negb (theme p)));
      [| intros p I; apply (NT _ p (I1 _) I) | now apply NoDup_keys_filter].
    rewrite filter_filter. cbn [bind]. do 2 f_equal. apply filter_ext.
    intros p. unfold theme. cbn [orb andb negb]. now rewrite ?andb_true_r.
Qed.





(** ** The installed packages *)

Lemma Ok_inj {A} (a b : A) : Ok a = Ok b -> a = b.
Proof. intros H. now inversion H. Qed.

Lemma fold_thrown {A B} (f : A -> B -> thrown A) l e :
  fold_left (fun acc x => a <- acc ;; f a x) l (Throw e) = Throw e.
Proof. induction l as [|x l IH]; simpl; [reflexivity | exact IH]. Qed.

Lemma package_data_theme metadata :
  truthy (prop_get (package_data metadata) "theme")
  = truthy (prop_get metadata "theme").
Proof.
  unfold package_data, prop_get at 1. cbn [own_entries].
  destruct (truthy (prop_get metadata "theme")) eqn:T; cbn [app assoc].
  - change (String.eqb "theme" "version") with false.
    change (String.eqb "theme" "theme") with true. cbn iota. exact T.
  - change (String.eqb "theme" "version") with false. cbn iota.
    destruct (truthy (prop_get metadata "apmInstallSource")); cbn [assoc];
      [change (String.eqb "theme" "apmInstallSource") with false|];
      reflexivity.
Qed.

Lemma package_data_fields metadata :
  hasOwn (package_data metadata) "name" = false /\
  prop_get (package_data metadata) "version" = prop_get metadata "version".
Proof.
  unfold package_data, hasOwn, prop_get at 1. cbn [own_entries].
  destruct (truthy (prop_get metadata "theme"));
    destruct (truthy (prop_get metadata "apmInstallSource"));
    split; reflexivity.
Qed.

Section InstalledProps.

Variable type_error : string.
Variable isBundledPackage : string -> bool.
Variable localeCompare : string -> string -> Z.
Variable cfg : Atom.config.

Let listed_from (pkgMetadata : props) (k : string) (d : json) : Prop :=
  exists metadata,
    In metadata (map snd pkgMetadata) /\
    synced isBundledPackage cfg metadata = true /\
    k = to_key (prop_get metadata "name") /\
    d = package_data metadata.

Let collect_step :=
  fun (acc : thrown props) (entry : string * json) =>
    packages <- acc ;;
    let metadata := snd entry in
    if is_nullish metadata then Throw type_error
    else if synced isBundledPackage cfg metadata
    then Ok (assoc_set (to_key (prop_get metadata "name"))
               (package_data metadata) packages)
    else Ok packages.

Lemma collect_step_thrown l e : fold_left collect_step l (Throw e) = Throw e.
Proof. induction l as [|x l IH]; simpl; [reflexivity | exact IH]. Qed.

Lemma collect_loop l : forall acc ps,
  fold_left collect_step l (Ok acc) = Ok ps ->
  (NoDup (map fst acc) -> NoDup (map fst ps)) /\
  forall k d, In (k, d) ps -> In (k, d) acc \/ listed_from l k d.
Proof.
  induction l as [|[path2 metadata] l IH]; intros acc ps H.
  - apply Ok_inj in H. subst ps. split; [auto | intros; now left].
  - change (fold_left collect_step l (collect_step (Ok acc) (path2, metadata))
            = Ok ps) in H.
    unfold collect_step at 2 in H. cbn [bind snd] in H.
    destruct (is_nullish metadata) eqn:N;
      [rewrite collect_step_thrown in H; discriminate|].
    assert (W : forall k d, listed_from l k d ->
                  listed_from ((path2, metadata) :: l) k d).
    { intros k d (m & I & R). exists m. split; [now right | exact R]. }
    destruct (synced isBundledPackage cfg metadata) eqn:S.
    + destruct (IH _ _ H) as [ND HI]. split.
      * intros Hn. apply ND. now apply assoc_set_NoDup.
      * intros k d I. destruct (HI k d I) as [I'|R]; [|right; now apply W].
        apply In_assoc_set in I' as [[-> ->]|I']; [|now left].
        right. exists metadata. split; [now left|]. repeat split. exact S.
    + destruct (IH _ _ H) as [ND HI]. split; [exact ND|].
      intros k d I. destruct (HI k d I) as [I'|R];
        [now left | right; now apply W].
Qed.

Lemma collect_loop_total l : forall acc,
  (forall m, In m (map snd l) -> truthy m = true) ->
  exists ps, fold_left collect_step l (Ok acc) = Ok ps.
Proof.
  induction l as [|[path2 metadata] l IH]; intros acc H.
  - now exists acc.
  - change (exists ps,
              fold_left collect_step l (collect_step (Ok acc) (path2, metadata))
              = Ok ps).
    unfold collect_step at 2. cbn [bind snd].
    assert (N : is_nullish metadata = false).
    { specialize (H metadata (or_introl eq_refl)).
      destruct metadata; simpl in *; congruence. }
    rewrite N.
    destruct (synced isBundledPackage cfg metadata); apply IH;
      intros m I; apply H; now right.
Qed.

Lemma getPackages_listed pkgMetadata v :
  getPackages type_error isBundledPackage localeCompare cfg pkgMetadata = Ok v ->
  exists ps, v = JObj ps /\ NoDup (map fst ps) /\
             forall k d, In (k, d) ps -> listed_from pkgMetadata k d.
Proof.
  unfold getPackages, collectPackages.
  change (fold_left _ pkgMetadata (Ok []))
    with (fold_left collect_step pkgMetadata (Ok [])).
  destruct (fold_left collect_step pkgMetadata (Ok [])) as [ps|e] eqn:E;
    cbn [bind]; intros H; [|discriminate H].
  apply Ok_inj in H. subst v.
  destruct (collect_loop _ _ _ E) as [ND HI]. specialize (ND (NoDup_nil _)).
  assert (P := sortObject_perm (by_key localeCompare) ps ND).
  exists (sortObject (by_key localeCompare) ps). split; [reflexivity|]. split.
  - eapply Permutation_NoDup; [|exact ND].
    apply Permutation_map. exact P.
  - intros k d I.
    apply (Permutation_in _ (Permutation_sym P)) in I.
    destruct (HI k d I) as [[]|R]. exact R.
Qed.

Lemma getPackages_total pkgMetadata :
  (forall m, In m (map snd pkgMetadata) -> truthy m = true) ->
  exists v,
    getPackages type_error isBundledPackage localeCompare cfg pkgMetadata = Ok v.
Proof.
  intros H. destruct (collect_loop_total pkgMetadata [] H) as (ps & E).
  exists (JObj (sortObject (by_key localeCompare) ps)).
  exact (f_equal
           (fun x => bind x
              (fun packages =>
                 Ok (JObj (sortObject (by_key localeCompare) packages)))) E).
Qed.

End InstalledProps.


Example bench_installed :
  getPackages Sample.type_error Bench.bundled code_unit_compare
    Bench.community Bench.metadata = Ok (JObj Bench.installed).
Proof. reflexivity. Qed.

Example bench_available :
  getAvailablePackageMetadataWithoutDuplicates Bench.realpath
    Bench.resolvePackagePath Bench.by_index Bench.folders Bench.names
  = Ok Bench.available.
Proof. reflexivity. Qed.

(** X11: the package list [getPackages] returns is an object with one
    entry per name; each entry comes from a metadata object of that name
    and holds its version, never a [name], and a truthy [theme] exactly
    when the metadata has one; a theme is listed only under [syncThemes],
    any other package only under [syncPackages], and a bundled one never
    under [onlySyncCommunityPackages]. *)
Theorem getPackages_descriptors :
  forall type_error isBundledPackage localeCompare cfg pkgMetadata v,
    getPackages type_error isBundledPackage localeCompare cfg pkgMetadata
    = Ok v ->
    exists ps,
      v = JObj ps /\ NoDup (map fst ps) /\
      forall name d, In (name, d) ps ->
        exists metadata,
          In metadata (map snd pkgMetadata) /\
          name = to_key (prop_get metadata "name") /\
          hasOwn d "name" = false /\
          prop_get d "version" = prop_get metadata "version" /\
          truthy (prop_get d "theme") = truthy (prop_get metadata "theme") /\
          (if truthy (prop_get metadata "theme")
           then flag cfg "sync-settings.syncThemes"
           else flag cfg "sync-settings.syncPackages") = true /\
          (flag cfg "sync-settings.onlySyncCommunityPackages" = true ->
           isBundledPackage name = false).
Proof.
  intros type_error isBundledPackage localeCompare cfg pkgMetadata v H.
  destruct (getPackages_listed _ _ _ _ _ _ H) as (ps & E & ND & L).
  exists ps. split; [exact E|]. split; [exact ND|].
  intros name d I. destruct (L name d I) as (m & Im & S & -> & ->).
  exists m. split; [exact Im|]. split; [reflexivity|].
  destruct (package_data_fields m) as [F1 F2].
  split; [exact F1|]. split; [exact F2|].
  split; [apply package_data_theme|].
  unfold synced in S. apply andb_true_iff in S as [S1 S2]. split.
  - destruct (truthy (prop_get m "theme"));
      destruct (flag cfg "sync-settings.syncThemes");
      destruct (flag cfg "sync-settings.syncPackages");
      simpl in S1; congruence.
  - intros O. rewrite O in S2. simpl in S2. now apply negb_true_iff in S2.
Qed.

Lemma getPackages_descriptors_witness :
  exists ps,
    JObj Bench.installed = JObj ps /\ NoDup (map fst ps) /\
    forall name d, In (name, d) ps ->
      exists metadata,
        In metadata (map snd Bench.metadata) /\
        name = to_key (prop_get metadata "name") /\
        hasOwn d "name" = false /\
        prop_get d "version" = prop_get metadata "version" /\
        truthy (prop_get d "theme") = truthy (prop_get metadata "theme") /\
        (if truthy (prop_get metadata "theme")
         then flag Bench.community "sync-settings.syncThemes"
         else flag Bench.community "sync-settings.syncPackages") = true /\
        (flag Bench.community "sync-settings.onlySyncCommunityPackages" = true ->
         Bench.bundled name = false).
Proof.
  apply (getPackages_descriptors Sample.type_error Bench.bundled
           code_unit_compare Bench.community Bench.metadata
           (JObj Bench.installed)).
  reflexivity.
Defined.

Lemma filter_all {A} (f : A -> bool) l :
  (forall x, In x l -> f x = true) -> filter f l = l.
Proof.
  induction l as [|x l IH]; simpl; intros H; [reflexivity|].
  rewrite (H x (or_introl eq_refl)), IH; [reflexivity|].
  intros y I. apply H. now right.
Qed.

(** X12: when the [packages.json] of the backup parses to the very object
    [getPackages] returned, the package filters of [getBackupData] hand it
    on unchanged, under the same settings: the two sides select packages
    by the same rule. *)
Theorem getPackages_survives_backup_filter :
  forall JSON_parse syntax_error type_error isBundledPackage localeCompare
         cfg pkgMetadata v text,
    getPackages type_error isBundledPackage localeCompare cfg pkgMetadata
    = Ok v ->
    JSON_parse text = Some v ->
    parsePackages JSON_parse syntax_error type_error isBundledPackage cfg text
    = Ok v.
Proof.
  intros JSON_parse syntax_error type_error isBundledPackage localeCompare
    cfg pkgMetadata v text H P.
  destruct (getPackages_listed _ _ _ _ _ _ H) as (ps & -> & ND & L).
  assert (NN : forall k d, In (k, d) ps -> is_nullish d = false).
  { intros k d I. destruct (L k d I) as (m & _ & _ & _ & ->). reflexivity. }
  rewrite (parsePackages_object JSON_parse syntax_error type_error
             isBundledPackage cfg text ps P ND NN).
  rewrite filter_all; [reflexivity|].
  intros [k d] I. destruct (L k d I) as (m & _ & S & -> & ->).
  cbn [fst snd]. rewrite package_data_theme.
  unfold synced in S.
  destruct (truthy (prop_get m "theme"));
    destruct (flag cfg "sync-settings.syncThemes");
    destruct (flag cfg "sync-settings.syncPackages");
    destruct (flag cfg "sync-settings.onlySyncCommunityPackages");
    destruct (isBundledPackage (to_key (prop_get m "name")));
    simpl in S; try discriminate S; reflexivity.
Qed.

Lemma getPackages_survives_backup_filter_witness :
  parsePackages Bench.parse_installed Sample.syntax_error Sample.type_error
    Bench.bundled Bench.community "installed" = Ok (JObj Bench.installed).
Proof.
  apply (getPackages_survives_backup_filter Bench.parse_installed
           Sample.syntax_error Sample.type_error Bench.bundled
           code_unit_compare Bench.community Bench.metadata
           (JObj Bench.installed) "installed"); reflexivity.
Defined.

Section AvailableProps.

Variable realpathSync : string -> thrown string.
Variable resolvePackagePath : string -> json.

Lemma names_loop by_path pkgNames : forall acc,
  let packages :=
    fold_left
      (fun packages pkgName =>
         let pkgPath := to_key (resolvePackagePath pkgName) in
         if truthy (prop_get (JObj by_path) pkgPath)
         then assoc_set pkgPath (prop_get (JObj by_path) pkgPath) packages
         else packages)
      pkgNames acc in
  (NoDup (map fst acc) -> NoDup (map fst packages)) /\
  forall k m, In (k, m) packages ->
    In (k, m) acc \/
    (truthy m = true /\ assoc k by_path = Some m /\
     exists pkgName, In pkgName pkgNames /\
                     k = to_key (resolvePackagePath pkgName)).
Proof.
  induction pkgNames as [|n l IH]; intros acc; cbn zeta.
  - split; [auto | intros; now left].
  - cbn [fold_left].
    set (k0 := to_key (resolvePackagePath n)).
    destruct (IH (if truthy (prop_get (JObj by_path) k0)
                  then assoc_set k0 (prop_get (JObj by_path) k0) acc
                  else acc)) as [ND HI].
    split.
    + intros N. apply ND.
      destruct (truthy (prop_get (JObj by_path) k0)); [|exact N].
      now apply assoc_set_NoDup.
    + intros k m I. destruct (HI k m I) as [I'|(T & A & n' & In' & E)].
      * destruct (truthy (prop_get (JObj by_path) k0)) eqn:T; [|now left].
        apply In_assoc_set in I' as [[-> ->]|I']; [|now left].
        right. split; [exact T|]. split.
        -- unfold prop_get in *. cbn [own_entries] in *.
           destruct (assoc k0 by_path); [reflexivity | discriminate T].
        -- exists n. split; [now left | reflexivity].
      * right. split; [exact T|]. split; [exact A|].
        exists n'. split; [now right | exact E].
Qed.

End AvailableProps.

(** X13: [getAvailablePackageMetadataWithoutDuplicates] lists every
    folder once, under the path a package name resolves to, each with the
    truthy metadata recorded for that path; on what it returns
    [getPackages] never throws. *)
Theorem available_metadata_without_duplicates :
  forall type_error isBundledPackage localeCompare cfg realpathSync
         resolvePackagePath packageMetadata paths pkgNames pm,
    getAvailablePackageMetadataWithoutDuplicates realpathSync
      resolvePackagePath packageMetadata paths pkgNames = Ok pm ->
    NoDup (map fst pm) /\
    (forall k m, In (k, m) pm ->
       truthy m = true /\
       exists pkgName, In pkgName pkgNames /\
                       k = to_key (resolvePackagePath pkgName)) /\
    exists v,
      getPackages type_error isBundledPackage localeCompare cfg pm = Ok v.
Proof.
  intros type_error isBundledPackage localeCompare cfg realpathSync
    resolvePackagePath packageMetadata paths pkgNames pm H.
  unfold getAvailablePackageMetadataWithoutDuplicates in H.
  destruct (path2metadata realpathSync packageMetadata paths [])
    as [by_path|e]; [|discriminate H].
  cbn [bind] in H. apply Ok_inj in H.
  destruct (names_loop resolvePackagePath by_path pkgNames []) as [ND HI].
  cbn zeta in ND, HI. rewrite H in ND, HI.
  assert (G : forall k m, In (k, m) pm ->
            truthy m = true /\
            exists pkgName, In pkgName pkgNames /\
                            k = to_key (resolvePackagePath pkgName)).
  { intros k m I. destruct (HI k m I) as [[]|(T & _ & R)]. now split. }
  split; [apply ND; constructor|]. split; [exact G|].
  apply getPackages_total. intros m I.
  apply in_map_iff in I as ([k m'] & E & I). simpl in E. subst m'.
  now destruct (G k m I).
Qed.

Lemma available_metadata_without_duplicates_witness :
  NoDup (map fst Bench.available) /\
  (forall k m, In (k, m) Bench.available ->
     truthy m = true /\
     exists pkgName, In pkgName Bench.names /\
                     k = to_key (Bench.resolvePackagePath pkgName)) /\
  exists v,
    getPackages Sample.type_error Bench.bundled code_unit_compare
      Bench.community Bench.available = Ok v.
Proof.
  apply (available_metadata_without_duplicates Sample.type_error
           Bench.bundled code_unit_compare Bench.community Bench.realpath
           Bench.resolvePackagePath Bench.by_index Bench.folders Bench.names
           Bench.available).
  reflexivity.
Defined.


(** ** Packages listed in the legacy format *)

Lemma fold_set_frame {A B} (f : B -> string) (g : B -> A) l : forall acc k,
  ~ In k (map f l) ->
  assoc k (fold_left (fun acc x => assoc_set (f x) (g x) acc) l acc)
  = assoc k acc.
Proof.
  induction l as [|y l IH]; intros acc k H; simpl; [reflexivity|].
  simpl in H. rewrite IH by tauto. apply assoc_set_other.
  intros E. apply H. now left.
Qed.

Lemma fold_set_lookup {A B} (f : B -> string) (g : B -> A) l : forall acc x,
  NoDup (map f l) -> In x l ->
  assoc (f x) (fold_left (fun acc x => assoc_set (f x) (g x) acc) l acc)
  = Some (g x).
Proof.
  induction l as [|y l IH]; intros acc x N I; [destruct I|].
  simpl in N. inversion N as [|? ? Hn Hd]; subst. simpl.
  destruct I as [->|I]; [|now apply IH].
  rewrite fold_set_frame by exact Hn. apply assoc_set_same.
Qed.







(** ** The packages selected for installation and for removal *)

Lemma pkg_name_with_name n d :
  assoc "name" (entries d) = None -> pkg_name (with_name n d) = n.
Proof.
  intros H. unfold pkg_name, with_name, prop_get. cbn [own_entries].
  rewrite (fold_set_frame fst snd (entries d) [("name", JStr n)] "name").
  - reflexivity.
  - now apply assoc_None_notin.
Qed.

Lemma In_keys_assoc {A} k (ps : list (string * A)) :
  In k (map fst ps) -> exists v, assoc k ps = Some v.
Proof.
  intros H. destruct (assoc k ps) as [v|] eqn:E; [now exists v|].
  apply assoc_None_notin in E. contradiction.
Qed.

Lemma selected_names (src : props) keys :
  (forall k d, In (k, d) src -> assoc "name" (entries d) = None) ->
  incl keys (map fst src) ->
  map pkg_name (map (fun name => with_name name (prop_get (JObj src) name)) keys)
  = keys.
Proof.
  intros H. induction keys as [|k keys IH]; intros I; simpl; [reflexivity|].
  rewrite IH by (intros x Hx; apply I; now right). f_equal.
  apply pkg_name_with_name.
  destruct (In_keys_assoc k src (I k (or_introl eq_refl))) as (d & E).
  unfold prop_get. cbn [own_entries]. rewrite E.
  apply (H k d). now apply assoc_In.
Qed.

Lemma incl_filter {A} (f : A -> bool) l : incl (filter f l) l.
Proof. intros x I. now apply filter_In in I. Qed.

(** X15: when the backup's package list is an object with one entry per
    name and no descriptor has a [name] of its own, the packages selected
    for installation carry, in the order of the backup and each once, the
    names of the backup for which [availablePackages[name]] is falsy or
    has an install source.  What is read there is the installed package's
    own entry, or, for a name every object inherits, a function that has
    no install source: such a package is not selected unless it is
    installed with an install source of its own. *)
Theorem missingPackages_names :
  forall installed ps,
    NoDup (map fst ps) ->
    (forall k d, In (k, d) ps -> assoc "name" (entries d) = None) ->
    map pkg_name (missingPackages (JObj installed) (JObj ps))
    = filter
        (fun p =>
           match assoc p installed with
           | Some available =>
               negb (truthy available)
               || truthy (prop_get available "apmInstallSource")
           | None => negb (inherited p)
           end)
        (map fst ps) /\
    NoDup (map pkg_name (missingPackages (JObj installed) (JObj ps))).
Proof.
  intros installed ps N H.
  assert (E : map pkg_name (missingPackages (JObj installed) (JObj ps))
              = filter (is_missing (JObj installed)) (map fst ps)).
  { unfold missingPackages, object_keys. cbn [entries].
    apply selected_names; [exact H | apply incl_filter]. }
  split; [|rewrite E; now apply NoDup_filter].
  rewrite E. apply filter_ext. intros p.
  unfold is_missing, name_apmInstallSource. cbn [own_entries truthy negb].
  destruct (assoc p installed) as [available|].
  - destruct (truthy available); cbn [negb orb]; [|reflexivity].
    now destruct (truthy (prop_get available "apmInstallSource")).
  - now destruct (inherited p).
Qed.

Lemma missingPackages_names_witness :
  map pkg_name
    (missingPackages (JObj [("linter", Sample.from_registry)])
       (JObj [("linter", Sample.from_registry);
              ("constructor", Sample.from_registry);
              ("minimap", Sample.from_registry)]))
  = ["minimap"].
Proof.
  apply (missingPackages_names [("linter", Sample.from_registry)]
           [("linter", Sample.from_registry);
            ("constructor", Sample.from_registry);
            ("minimap", Sample.from_registry)]).
  - repeat constructor; simpl; intuition discriminate.
  - intros k d [E|[E|[E|[]]]]; inversion E; reflexivity.
Defined.

(** X16: no package is selected both for installation and for removal,
    when every descriptor of the backup is truthy and no descriptor on
    either side has a [name] of its own. *)
Theorem install_remove_disjoint :
  forall installed ps p q,
    (forall k d, In (k, d) ps -> truthy d = true) ->
    (forall k d, In (k, d) ps -> assoc "name" (entries d) = None) ->
    (forall k d, In (k, d) installed -> assoc "name" (entries d) = None) ->
    In p (missingPackages (JObj installed) (JObj ps)) ->
    In q (removePackages (JObj installed) (JObj ps)) ->
    pkg_name p <> pkg_name q.
Proof.
  intros installed ps p q T Hp Hi Ip Iq.
  unfold missingPackages, object_keys in Ip. cbn [entries] in Ip.
  unfold removePackages, object_keys in Iq. cbn [entries] in Iq.
  apply in_map_iff in Ip as (n & <- & In1).
  apply in_map_iff in Iq as (m & <- & In2).
  apply filter_In in In1 as [K1 _]. apply filter_In in In2 as [K2 F].
  destruct (In_keys_assoc n ps K1) as (d & E).
  destruct (In_keys_assoc m installed K2) as (d' & E').
  rewrite !pkg_name_with_name.
  - intros ->. unfold truthy_at in F. cbn [own_entries] in F.
    rewrite E in F. rewrite (T m d (assoc_In _ _ _ E)) in F. discriminate F.
  - unfold prop_get. cbn [own_entries]. rewrite E'.
    apply (Hi m d'). now apply assoc_In.
  - unfold prop_get. cbn [own_entries]. rewrite E.
    apply (Hp n d). now apply assoc_In.
Qed.

Lemma install_remove_disjoint_witness :
  pkg_name (with_name "minimap" Sample.from_registry)
  <> pkg_name (with_name "emmet" Sample.from_registry).
Proof.
  apply (install_remove_disjoint
           [("linter", Sample.from_registry); ("emmet", Sample.from_registry)]
           [("linter", Sample.from_registry);
            ("minimap", Sample.from_registry)]).
  - intros k d [E|[E|[]]]; inversion E; reflexivity.
  - intros k d [E|[E|[]]]; inversion E; reflexivity.
  - intros k d [E|[E|[]]]; inversion E; reflexivity.
  - left. reflexivity.
  - left. reflexivity.
Defined.


(** ** Scoped settings in the local snapshot *)

Lemma mutate_star_frame f obj scope :
  scope <> "*" -> prop_get (mutate_at "*" f obj) scope = prop_get obj scope.
Proof.
  intros H. unfold mutate_at.
  destruct (assoc "*" (kp_props obj)) as [o|]; [|reflexivity].
  destruct obj; try reflexivity.
  unfold prop_get. cbn [kp_put own_entries]. now rewrite assoc_set_other.
Qed.

Lemma clone_lookup ps : forall k x,
  NoDup (map fst ps) -> assoc k ps = Some x -> x <> JUndef ->
  prop_get (json_clone (JObj ps)) k = json_clone x.
Proof.
  induction ps as [|[k' x'] ps IH]; intros k x N A U; [discriminate A|].
  inversion N as [|? ? Hn Hd]; subst. cbn [assoc] in A.
  destruct (String.eqb_spec k k') as [->|Hk].
  - apply some_inj in A. subst x'.
    unfold prop_get. destruct x; try congruence; cbn [json_clone own_entries assoc];
      now rewrite String.eqb_refl.
  - specialize (IH k x Hd A U). unfold prop_get in *.
    cbn [json_clone own_entries] in *.
    destruct x'; cbn [assoc]; try exact IH;
      destruct (String.eqb_spec k k'); try contradiction; exact IH.
Qed.

Lemma fold_set_NoDup {A} (l acc : list (string * A)) :
  NoDup (map fst acc) ->
  NoDup (map fst (fold_left (fun acc p => assoc_set (fst p) (snd p) acc) l acc)).
Proof.
  revert acc. induction l as [|p l IH]; intros acc H; simpl; [exact H|].
  apply IH. now apply assoc_set_NoDup.
Qed.

(** X17: the blacklist is applied to the global settings only: what is
    set for a scope selector other than [*] reaches the local snapshot
    as a plain copy, blacklisted keys included. *)
Theorem getFilteredSettings_keeps_scoped :
  forall cfg scope v,
    scope <> "*" ->
    NoDup (map fst (Atom.cfg_scoped cfg)) ->
    In (scope, v) (Atom.cfg_scoped cfg) ->
    v <> JUndef ->
    prop_get (getFilteredSettings cfg) scope = json_clone v.
Proof.
  intros cfg scope v Hs N I U. unfold getFilteredSettings.
  assert (F : forall keys obj,
            prop_get
              (fold_left
                 (fun settings blacklistedKey =>
                    mutate_at "*"
                      (fun o => deleteValueAtKeyPath o blacklistedKey) settings)
                 keys obj) scope
            = prop_get obj scope).
  { induction keys as [|key keys IH]; intros obj; simpl; [reflexivity|].
    rewrite IH. now apply mutate_star_frame. }
  rewrite F. unfold spread_scopes.
  apply clone_lookup; [| |exact U].
  - apply fold_set_NoDup. repeat constructor. intros [].
  - exact (fold_set_lookup fst snd (Atom.cfg_scoped cfg)
             [("*", Atom.cfg_settings cfg)] (scope, v) N I).
Qed.

Lemma getFilteredSettings_keeps_scoped_witness :
  prop_get (getFilteredSettings Scoped.live) ".source.js" = Scoped.override.
Proof.
  apply (getFilteredSettings_keeps_scoped Scoped.live ".source.js"
           Scoped.override).
  - discriminate.
  - repeat constructor. intros [].
  - left. reflexivity.
  - discriminate.
Defined.


(** ** The files of the local snapshot *)

Lemma trim_text_nonempty c : trim c <> "" -> c <> "".
Proof. intros H E. apply H. now subst c. Qed.

Lemma inherited_no_backslash k :
  inherited k = true -> backslash_to_slash k = k.
Proof.
  unfold inherited, inherited_names. cbn [existsb].
  rewrite !orb_true_iff. intros H.
  repeat destruct H as [H|H]; try discriminate H;
    apply String.eqb_eq in H; subst k; reflexivity.
Qed.

Lemma slash_to_backslash_moved file :
  slash_to_backslash file <> file ->
  backslash_to_slash (slash_to_backslash file) <> slash_to_backslash file.
Proof.
  induction file as [|c file IH]; simpl; intros H; [congruence|].
  destruct (Ascii.eqb_spec c "/"%char) as [->|Hc].
  - intros E. inversion E.
  - intros E. inversion E as [[E1 E2]]. apply IH; [|exact E2].
    intros E'. apply H. now rewrite E'.
Qed.

Lemma slash_to_backslash_own file :
  slash_to_backslash file <> file ->
  inherited (slash_to_backslash file) = false.
Proof.
  intros H. destruct (inherited (slash_to_backslash file)) eqn:E; [|reflexivity].
  destruct (slash_to_backslash_moved file H). now apply inherited_no_backslash.
Qed.

Section LocalProps.

Variable readFile : string -> option string.
Variable access : string -> bool.
Variable resolve : string -> string -> string.
Variable basename : string -> string.
Variable glob : string -> list string -> thrown (list string).
Variable configDirPath userKeymapPath userStyleSheetPath : string.
Variable userInitScriptPath : string.
Variable localeCompare : string -> string -> Z.
Variable installedPackages : thrown json.
Variable cfg : Atom.config.

(** A file that is on disk as the snapshot holds it. *)
Let on_disk (f : File) : Prop :=
  readFile (path f) = Some (content f) /\ trim (content f) <> "".

Let sound (removing : bool) (files : files_map) : Prop :=
  NoDup (map fst files) /\
  forall name f, In (name, f) files ->
    content f <> "" /\ (removing = true -> on_disk f).

Lemma fileContent_cases filePath nullString c :
  fileContent readFile filePath nullString = Some c ->
  c <> "" /\
  ((readFile filePath = Some c /\ trim c <> "") \/
   (nullString = Some c /\
    (readFile filePath = None \/
     exists t, readFile filePath = Some t /\ trim t = ""))).
Proof.
  unfold fileContent.
  assert (N : or_null nullString = Some c -> c <> "" /\ nullString = Some c).
  { unfold or_null. destruct nullString as [s|]; [|discriminate].
    destruct (String.eqb_spec s ""); [discriminate|].
    intros E. apply some_inj in E. subst s. now split. }
  destruct (readFile filePath) as [t|].
  - destruct (String.eqb_spec (trim t) "") as [E|E]; cbn [negb].
    + intros H. destruct (N H) as [H1 H2]. split; [exact H1|].
      right. split; [exact H2|]. right. now exists t.
    + intros H. apply some_inj in H. subst t. split.
      * now apply trim_text_nonempty.
      * left. now split.
  - intros H. destruct (N H) as [H1 H2]. split; [exact H1|].
    right. split; [exact H2|]. now left.
Qed.

Lemma keep_file_sound removing files fileName filePath nullString :
  (removing = true -> nullString = None) ->
  sound removing files ->
  sound removing
    (keep_file files fileName filePath
       (fileContent readFile filePath nullString)).
Proof.
  intros R [N S]. unfold keep_file.
  destruct (fileContent readFile filePath nullString) as [c|] eqn:E;
    [|now split].
  destruct (String.eqb_spec c ""); cbn [negb]; [now split|].
  split; [now apply assoc_set_NoDup|].
  intros name f I. apply In_assoc_set in I as [[-> ->]|I]; [|exact (S name f I)].
  cbn [content path]. split; [assumption|].
  intros Hr. destruct (fileContent_cases _ _ _ E) as [_ [D|[D _]]].
  - exact D.
  - rewrite (R Hr) in D. discriminate D.
Qed.

Lemma unless_removing_none removing text :
  removing = true -> unless_removing removing text = None.
Proof. now intros ->. Qed.

Lemma own_file_sound removing switch filePath placeholder files :
  sound removing files ->
  sound removing (own_file readFile basename cfg switch filePath placeholder
                    removing files).
Proof.
  intros S. unfold own_file. destruct (flag cfg switch); [|exact S].
  apply keep_file_sound; [apply unless_removing_none | exact S].
Qed.

Lemma keep_file_keys files fileName filePath content k :
  In k (map fst files) ->
  In k (map fst (keep_file files fileName filePath content)).
Proof.
  intros I. unfold keep_file. destruct content as [c|]; [|exact I].
  destruct (negb (String.eqb c "")); [|exact I].
  apply In_assoc_set_keys. now right.
Qed.

Lemma addExtraFile_sound removing files file files' b :
  addExtraFile readFile resolve configDirPath cfg files file removing
  = (b, files') ->
  sound removing files -> sound removing files'.
Proof.
  unfold addExtraFile. intros H S.
  destruct (assoc (slash_to_backslash file) files);
    [apply pair_equal_spec in H as [_ <-]; exact S|].
  destruct (inherited (slash_to_backslash file));
    [apply pair_equal_spec in H as [_ <-]; exact S|].
  destruct (String.eqb file "config.cson" && _ && _);
    apply pair_equal_spec in H as [_ <-]; [exact S|].
  apply keep_file_sound; [apply unless_removing_none | exact S].
Qed.

Lemma addExtraFile_keys removing files file files' b k :
  addExtraFile readFile resolve configDirPath cfg files file removing
  = (b, files') ->
  In k (map fst files) -> In k (map fst files').
Proof.
  unfold addExtraFile. intros H I.
  destruct (assoc (slash_to_backslash file) files);
    [apply pair_equal_spec in H as [_ <-]; exact I|].
  destruct (inherited (slash_to_backslash file));
    [apply pair_equal_spec in H as [_ <-]; exact I|].
  destruct (String.eqb file "config.cson" && _ && _);
    apply pair_equal_spec in H as [_ <-]; [exact I|].
  now apply keep_file_keys.
Qed.

(** A file that is listed and can be filed is filed, under its name with
    backslashes, unless that name is one every object inherits. *)
Lemma addExtraFile_files removing files file files' :
  addExtraFile readFile resolve configDirPath cfg files file removing
  = (true, files') ->
  inherited (slash_to_backslash file) = false ->
  removing = false \/
  (exists c, readFile (resolve configDirPath file) = Some c /\ trim c <> "") ->
  In (slash_to_backslash file) (map fst files').
Proof.
  unfold addExtraFile. intros H Own C.
  destruct (assoc (slash_to_backslash file) files) as [f|] eqn:A.
  { apply pair_equal_spec in H as [_ <-].
    apply assoc_In in A. apply in_map_iff. now exists (slash_to_backslash file, f). }
  rewrite Own in H.
  destruct (String.eqb file "config.cson" && _ && _);
    apply pair_equal_spec in H as [H <-]; [discriminate H|].
  assert (F : exists c,
            fileContent readFile (resolve configDirPath file)
              (unless_removing removing (not_found file)) = Some c /\ c <> "").
  { unfold fileContent.
    assert (P : not_found file <> "").
    { unfold not_found.
      destruct (one_of _ [".less"; ".scss"; ".js"]);
        destruct (one_of _ [".css"]); discriminate. }
    destruct C as [->|(c & Hc & Ht)].
    - cbn [unless_removing or_null].
      destruct (String.eqb_spec (not_found file) ""); [contradiction|].
      destruct (readFile (resolve configDirPath file)) as [t|].
      + destruct (String.eqb_spec (trim t) "") as [E|E]; cbn [negb].
        * now exists (not_found file).
        * exists t. split; [reflexivity | now apply trim_text_nonempty].
      + now exists (not_found file).
    - rewrite Hc. destruct (String.eqb_spec (trim c) ""); [contradiction|].
      exists c. split; [reflexivity | now apply trim_text_nonempty]. }
  destruct F as (c & -> & Hc). unfold keep_file.
  destruct (String.eqb_spec c ""); [contradiction|]. cbn [negb].
  apply In_assoc_set_keys. now left.
Qed.

Lemma addExtraFiles_sound removing extra : forall files files',
  addExtraFiles readFile resolve configDirPath cfg files extra removing
  = Some files' ->
  (sound removing files -> sound removing files') /\
  (forall k, In k (map fst files) -> In k (map fst files')) /\
  (forall file, In file extra ->
     inherited (slash_to_backslash file) = false ->
     removing = false \/
     (exists c, readFile (resolve configDirPath file) = Some c /\ trim c <> "") ->
     In (slash_to_backslash file) (map fst files')).
Proof.
  induction extra as [|x extra IH]; intros files files' H; simpl in H.
  - apply some_inj in H. subst files'. split; [auto|]. split; [auto|].
    intros ? [].
  - destruct (addExtraFile readFile resolve configDirPath cfg files x removing)
      as [[|] mid] eqn:E; [|discriminate H].
    destruct (IH _ _ H) as (S & K & F). split; [|split].
    + intros Hs. apply S. exact (addExtraFile_sound _ _ _ _ _ E Hs).
    + intros k I. apply K. exact (addExtraFile_keys _ _ _ _ _ _ E I).
    + intros file [<-|I] Own C; [|now apply F].
      apply K. exact (addExtraFile_files _ _ _ _ E Own C).
Qed.

Lemma addGlobbedFiles_sound removing ignore globs : forall files files',
  addGlobbedFiles readFile resolve glob configDirPath cfg files globs ignore
    removing = Ok (Some files') ->
  (sound removing files -> sound removing files') /\
  (forall k, In k (map fst files) -> In k (map fst files')).
Proof.
  induction globs as [|g globs IH]; intros files files' H; simpl in H.
  - apply Ok_inj, some_inj in H. subst files'. now split.
  - destruct (glob g ignore) as [extra|e]; [|discriminate H]. cbn [bind] in H.
    destruct (addExtraFiles readFile resolve configDirPath cfg files extra
                removing) as [mid|] eqn:E; [|discriminate H].
    destruct (addExtraFiles_sound _ _ _ _ E) as (S1 & K1 & _).
    destruct (IH _ _ H) as (S2 & K2). split; auto.
Qed.

Lemma getLocalData_files (localData : Snapshot) :
  getLocalData readFile access resolve basename glob configDirPath
    userKeymapPath userStyleSheetPath userInitScriptPath localeCompare
    installedPackages cfg = Ok (Some localData) ->
  exists fs,
    sound (flag cfg "sync-settings.removeUnfamiliarFiles") fs /\
    files localData
    = match fs with
      | [] => None
      | _ => Some (sortObject (by_key localeCompare) fs)
      end /\
    forall file,
      In file (string_items (Atom.get cfg "sync-settings.extraFiles")) ->
      inherited (slash_to_backslash file) = false ->
      flag cfg "sync-settings.removeUnfamiliarFiles" = false \/
      (exists c, readFile (resolve configDirPath file) = Some c /\
                 trim c <> "") ->
      In (slash_to_backslash file) (map fst fs).
Proof.
  unfold getLocalData.
  destruct (if flag cfg "sync-settings.syncPackages"
               || flag cfg "sync-settings.syncThemes"
            then installedPackages else Ok JNull) as [pk|e];
    [|discriminate]. cbn [bind].
  set (removing := flag cfg "sync-settings.removeUnfamiliarFiles").
  set (own := own_file readFile basename cfg "sync-settings.syncSnippets" _ _ _ _).
  assert (S0 : sound removing own).
  { unfold own. do 4 apply own_file_sound. split; [constructor | intros ? ? []]. }
  destruct (addExtraFiles readFile resolve configDirPath cfg own _ removing)
    as [listed|] eqn:E1; [|discriminate].
  destruct (addExtraFiles_sound _ _ _ _ E1) as (S1 & K1 & F1).
  destruct (addGlobbedFiles readFile resolve glob configDirPath cfg listed _ _
              removing) as [[globbed|]|e] eqn:E2; cbn [bind]; try discriminate.
  destruct (addGlobbedFiles_sound _ _ _ _ _ E2) as (S2 & K2).
  intros H. apply Ok_inj, some_inj in H. subst localData. cbn [files].
  exists globbed. split; [auto|]. split.
  - destruct globbed as [|p l] eqn:G; reflexivity.
  - intros file I Own C. apply K2. now apply F1.
Qed.

End LocalProps.


Example disk_local : Disk.getLocalData Disk.removing = Ok (Some Disk.localData).
Proof. reflexivity. Qed.

Example disk_backup :
  Sample.classify_with Disk.removing Disk.blobs = (Some Disk.backupData, []).
Proof. reflexivity. Qed.

Lemma getSnippetsPath_fixed access resolve configDirPath :
  getSnippetsPath access resolve configDirPath
  = resolve configDirPath "snippets.cson".
Proof.
  unfold getSnippetsPath, exists_.
  destruct (access (resolve configDirPath "snippets.json")); reflexivity.
Qed.

(** X18: [getSnippetsPath] answers [snippets.cson] whether or not
    [snippets.json] can be accessed: the promisified [fs.access] resolves
    with no value. *)
Theorem getSnippetsPath_always_cson :
  forall access resolve configDirPath,
    getSnippetsPath access resolve configDirPath
    = resolve configDirPath "snippets.cson".
Proof.
  intros access resolve configDirPath. unfold getSnippetsPath, exists_.
  destruct (access (resolve configDirPath "snippets.json")); reflexivity.
Qed.

(** X19: [fileContent] returns [null] or a text that is not empty: the
    content of the file, which then is not blank, or else the
    placeholder, and that only for a file that cannot be read or is
    blank. *)
Theorem fileContent_text_or_placeholder :
  forall readFile filePath nullString c,
    fileContent readFile filePath nullString = Some c ->
    c <> "" /\
    ((readFile filePath = Some c /\ trim c <> "") \/
     (nullString = Some c /\
      (readFile filePath = None \/
       exists t, readFile filePath = Some t /\ trim t = ""))).
Proof.
  intros readFile filePath nullString c. apply fileContent_cases.
Qed.

Lemma fileContent_text_or_placeholder_witness :
  "# blank" <> "" /\
  ((Disk.read "/atom/blank.txt" = Some "# blank" /\ trim "# blank" <> "") \/
   (Some "# blank" = Some "# blank" /\
    (Disk.read "/atom/blank.txt" = None \/
     exists t, Disk.read "/atom/blank.txt" = Some t /\ trim t = ""))).
Proof.
  apply (fileContent_text_or_placeholder Disk.read "/atom/blank.txt"
           (Some "# blank") "# blank").
  reflexivity.
Defined.

(** X20: the files of a local snapshot: [null] or at least one entry,
    one per name, none with an empty content; with
    [removeUnfamiliarFiles] each entry is a file on disk with that very
    content, which is not blank, so no placeholder is among them. *)
Theorem getLocalData_files_on_disk :
  forall readFile access resolve basename glob configDirPath userKeymapPath
         userStyleSheetPath userInitScriptPath localeCompare
         installedPackages cfg localData,
    getLocalData readFile access resolve basename glob configDirPath
      userKeymapPath userStyleSheetPath userInitScriptPath localeCompare
      installedPackages cfg = Ok (Some localData) ->
    files localData <> Some [] /\
    forall fs, files localData = Some fs ->
      NoDup (map fst fs) /\
      forall name f, In (name, f) fs ->
        content f <> "" /\
        (flag cfg "sync-settings.removeUnfamiliarFiles" = true ->
         readFile (path f) = Some (content f) /\ trim (content f) <> "").
Proof.
  intros readFile access resolve basename glob configDirPath userKeymapPath
    userStyleSheetPath userInitScriptPath localeCompare installedPackages
    cfg localData H.
  destruct (getLocalData_files _ _ _ _ _ _ _ _ _ _ _ _ _ H)
    as (fs0 & [N S] & E & _).
  assert (P := sortObject_perm (by_key localeCompare) fs0 N).
  rewrite E. destruct fs0 as [|p l]; [split; [discriminate|]|split].
  - intros fs Hf. discriminate Hf.
  - intros Hs. apply some_inj in Hs. rewrite Hs in P.
    apply Permutation_sym, Permutation_nil in P. discriminate P.
  - intros fs Hf. apply some_inj in Hf. subst fs. split.
    + eapply Permutation_NoDup; [|exact N]. now apply Permutation_map.
    + intros name f I. apply (Permutation_in _ (Permutation_sym P)) in I.
      exact (S name f I).
Qed.

Lemma getLocalData_files_on_disk_witness :
  Disk.read "/atom/dir/sub.txt" = Some "t" /\ trim "t" <> "".
Proof.
  destruct (getLocalData_files_on_disk Disk.read Disk.access Sample.resolve
              Disk.basename Disk.no_match "/atom" "/atom/keymap.cson"
              "/atom/styles.less" "/atom/init.coffee" code_unit_compare
              (Ok JNull) Disk.removing Disk.localData eq_refl) as [_ H].
  destruct (H Disk.local_files eq_refl) as [_ H'].
  exact (proj2 (H' "dir\sub.txt" (Sample.file "/atom/dir/sub.txt" "t")
                  (or_introl eq_refl)) eq_refl).
Defined.

Section LocalKeys.

Variable readFile : string -> option string.
Variable access : string -> bool.
Variable resolve : string -> string -> string.
Variable basename : string -> string.
Variable glob : string -> list string -> thrown (list string).
Variable configDirPath userKeymapPath userStyleSheetPath : string.
Variable userInitScriptPath : string.
Variable localeCompare : string -> string -> Z.
Variable installedPackages : thrown json.
Variable cfg : Atom.config.

Lemma getLocalData_extra_key localData file :
  getLocalData readFile access resolve basename glob configDirPath
    userKeymapPath userStyleSheetPath userInitScriptPath localeCompare
    installedPackages cfg = Ok (Some localData) ->
  In file (string_items (Atom.get cfg "sync-settings.extraFiles")) ->
  inherited (slash_to_backslash file) = false ->
  flag cfg "sync-settings.removeUnfamiliarFiles" = false \/
  (exists c, readFile (resolve configDirPath file) = Some c /\ trim c <> "") ->
  exists f, file_of (files localData) (slash_to_backslash file) = Some f.
Proof.
  intros H I Own C.
  destruct (getLocalData_files _ _ _ _ _ _ _ _ _ _ _ _ _ H)
    as (fs0 & [N _] & E & K).
  specialize (K file I Own C). rewrite E.
  destruct fs0 as [|p l]; [destruct K|]. cbn [file_of].
  apply In_keys_assoc.
  eapply Permutation_in; [|exact K].
  apply Permutation_map. now apply sortObject_perm.
Qed.

End LocalKeys.

(** X21: an extra file listed in the settings is in the local snapshot
    whenever it can be: always when placeholders are in use, otherwise
    when it can be read and is not blank.  Its name there is the listed
    one with every slash turned into a backslash.  This holds of a name
    that no plain object inherits ([constructor], [toString], ...: for
    those [fileName in files] answers [true] and the file is never
    filed), and when none of the files Atom knows the place of is called
    [__proto__] (filing under that name would replace the prototype of
    the files object, so that further names would be inherited). *)
Theorem getLocalData_files_extra_by_backslash_name :
  forall readFile access resolve basename glob configDirPath userKeymapPath
         userStyleSheetPath userInitScriptPath localeCompare
         installedPackages cfg localData file,
    getLocalData readFile access resolve basename glob configDirPath
      userKeymapPath userStyleSheetPath userInitScriptPath localeCompare
      installedPackages cfg = Ok (Some localData) ->
    In file (string_items (Atom.get cfg "sync-settings.extraFiles")) ->
    inherited (slash_to_backslash file) = false ->
    ~ In "__proto__"
        (map basename
           [userKeymapPath; userStyleSheetPath; userInitScriptPath;
            getSnippetsPath access resolve configDirPath]) ->
    flag cfg "sync-settings.removeUnfamiliarFiles" = false \/
    (exists c, readFile (resolve configDirPath file) = Some c /\
               trim c <> "") ->
    exists f, file_of (files localData) (slash_to_backslash file) = Some f.
Proof.
  intros readFile access resolve basename glob configDirPath userKeymapPath
    userStyleSheetPath userInitScriptPath localeCompare installedPackages
    cfg localData file H I Own _.
  exact (getLocalData_extra_key _ _ _ _ _ _ _ _ _ _ _ _ _ _ H I Own).
Qed.

Lemma getLocalData_files_extra_by_backslash_name_witness :
  exists f, file_of (files Disk.localData) "dir\sub.txt" = Some f.
Proof.
  apply (getLocalData_files_extra_by_backslash_name Disk.read Disk.access
           Sample.resolve Disk.basename Disk.no_match "/atom"
           "/atom/keymap.cson" "/atom/styles.less" "/atom/init.coffee"
           code_unit_compare (Ok JNull) Disk.removing Disk.localData
           "dir/sub.txt").
  - reflexivity.
  - left. reflexivity.
  - reflexivity.
  - vm_compute. intuition discriminate.
  - right. exists "t". split; [reflexivity | discriminate].
Defined.

Lemma backup_without_backslash_names
  JSON_parse syntax_error type_error resolve configDirPath userKeymapPath
  userStyleSheetPath minimatch isBundledPackage localeCompare cfg blobs
  backupData ns name :
  getBackupData JSON_parse syntax_error type_error resolve configDirPath
    userKeymapPath userStyleSheetPath minimatch isBundledPackage
    localeCompare cfg blobs = (Some backupData, ns) ->
  backslash_to_slash name <> name ->
  file_of (files backupData) name = None.
Proof.
  intros H Hn. destruct (files backupData) as [fs|] eqn:Hf; [|reflexivity].
  cbn [file_of]. destruct (assoc name fs) as [bf|] eqn:A; [|reflexivity].
  exfalso. apply assoc_In in A.
  destruct (getBackupData_files _ _ _ _ _ _ _ _ _ _ _ _ _ _ _ _ _ H Hf A)
    as (fileName & text & _ & E & _).
  apply Hn. rewrite E. apply backslash_to_slash_idem.
Qed.

Lemma nested_extra_file_deleted :
  forall JSON_parse syntax_error type_error minimatch isBundledPackage blobs
         backupData ns
         readFile access resolve basename glob configDirPath userKeymapPath
         userStyleSheetPath userInitScriptPath localeCompare
         installedPackages cfg localData createTwoFilesPatch file,
    getBackupData JSON_parse syntax_error type_error resolve configDirPath
      userKeymapPath userStyleSheetPath minimatch isBundledPackage
      localeCompare cfg blobs = (Some backupData, ns) ->
    getLocalData readFile access resolve basename glob configDirPath
      userKeymapPath userStyleSheetPath userInitScriptPath localeCompare
      installedPackages cfg = Ok (Some localData) ->
    In file (string_items (Atom.get cfg "sync-settings.extraFiles")) ->
    slash_to_backslash file <> file ->
    flag cfg "sync-settings.removeUnfamiliarFiles" = false \/
    (exists c, readFile (resolve configDirPath file) = Some c /\
               trim c <> "") ->
    exists f,
      file_of (files localData) (slash_to_backslash file) = Some f /\
      file_entry Deleted (diffFiles createTwoFilesPatch localData backupData)
        (slash_to_backslash file) = Some f.
Proof.
  intros JSON_parse syntax_error type_error minimatch isBundledPackage blobs
    backupData ns readFile access resolve basename glob configDirPath
    userKeymapPath userStyleSheetPath userInitScriptPath localeCompare
    installedPackages cfg localData createTwoFilesPatch file HB HL I Hs C.
  destruct (getLocalData_extra_key _ _ _ _ _ _ _ _ _ _ _ _ _ _ HL I
              (slash_to_backslash_own file Hs) C)
    as (f & Hf).
  exists f. split; [exact Hf|].
  rewrite file_entry_diffFiles. unfold filed.
  rewrite (backup_without_backslash_names _ _ _ _ _ _ _ _ _ _ _ _ _ _ _ HB
             (slash_to_backslash_moved file Hs)).
  now rewrite Hf.
Qed.

(** X22: an extra file that lies in a folder never matches its backup:
    the local snapshot names it with backslashes, a backup snapshot never
    has such a name, so the diff reports the local file as deleted,
    whatever the backup holds. *)
Theorem nested_extra_file_reported_deleted :
  forall JSON_parse syntax_error type_error minimatch isBundledPackage blobs
         backupData ns
         readFile access resolve basename glob configDirPath userKeymapPath
         userStyleSheetPath userInitScriptPath localeCompare
         installedPackages cfg localData createTwoFilesPatch file,
    getBackupData JSON_parse syntax_error type_error resolve configDirPath
      userKeymapPath userStyleSheetPath minimatch isBundledPackage
      localeCompare cfg blobs = (Some backupData, ns) ->
    getLocalData readFile access resolve basename glob configDirPath
      userKeymapPath userStyleSheetPath userInitScriptPath localeCompare
      installedPackages cfg = Ok (Some localData) ->
    In file (string_items (Atom.get cfg "sync-settings.extraFiles")) ->
    slash_to_backslash file <> file ->
    flag cfg "sync-settings.removeUnfamiliarFiles" = false \/
    (exists c, readFile (resolve configDirPath file) = Some c /\
               trim c <> "") ->
    exists f,
      file_of (files localData) (slash_to_backslash file) = Some f /\
      file_entry Deleted (diffFiles createTwoFilesPatch localData backupData)
        (slash_to_backslash file) = Some f.
Proof.
  intros JSON_parse syntax_error type_error minimatch isBundledPackage blobs
    backupData ns readFile access resolve basename glob configDirPath
    userKeymapPath userStyleSheetPath userInitScriptPath localeCompare
    installedPackages cfg localData createTwoFilesPatch file.
  apply nested_extra_file_deleted.
Qed.

Lemma nested_extra_file_reported_deleted_witness :
  exists f,
    file_of (files Disk.localData) "dir\sub.txt" = Some f /\
    file_entry Deleted (diffFiles Sample.keep_after Disk.localData Disk.backupData)
      "dir\sub.txt" = Some f.
Proof.
  apply (nested_extra_file_reported_deleted Sample.parse_two
           Sample.syntax_error Sample.type_error Sample.no_glob
           Sample.not_bundled Disk.blobs Disk.backupData []
           Disk.read Disk.access Sample.resolve Disk.basename Disk.no_match
           "/atom" "/atom/keymap.cson" "/atom/styles.less" "/atom/init.coffee"
           code_unit_compare (Ok JNull) Disk.removing Disk.localData
           Sample.keep_after "dir/sub.txt").
  - reflexivity.
  - reflexivity.
  - left. reflexivity.
  - discriminate.
  - right. exists "t". split; [reflexivity | discriminate].
Defined.


(** ** What a backup uploads *)

Lemma getDiffData_files createTwoFilesPatch fuel cfg localData backupData d :
  getDiffData createTwoFilesPatch fuel cfg localData backupData = Some d ->
  diff_files d = diffFiles createTwoFilesPatch localData backupData.
Proof.
  unfold getDiffData, opt_bind.
  destruct (diffSettings fuel cfg localData backupData) as [s|];
    [|discriminate].
  intros H. apply some_inj in H. now subst d.
Qed.







(** ** What a restore unlinks *)

Lemma unlink_loop type_error (localData : Snapshot) (keep : string -> Prop)
  (deleted : files_map) : forall done,
  (forall name f, In (name, f) deleted ->
     exists file, file_of (files localData) name = Some file /\ keep name) ->
  exists more,
    fold_left
      (fun acc p =>
         unlinked <- acc ;;
         match file_of (files localData) (fst p) with
         | Some file => Ok (unlinked ++ [path file])
         | None => Throw type_error
         end)
      deleted (Ok done) = Ok (done ++ more) /\
    forall p, In p more ->
      exists name file, file_of (files localData) name = Some file /\
                        path file = p /\ keep name.
Proof.
  induction deleted as [|[name f] deleted IH]; intros done H; simpl.
  - exists []. rewrite app_nil_r. split; [reflexivity | intros ? []].
  - destruct (H name f (or_introl eq_refl)) as (file & E & K). rewrite E.
    destruct (IH (done ++ [path file])) as (more & F & G).
    { intros n g I. apply (H n g). now right. }
    exists (path file :: more). split.
    + rewrite F, <- app_assoc. reflexivity.
    + intros p [<-|I]; [now exists name, file | now apply G].
Qed.

(** X24: under [removeUnfamiliarFiles] the loop of [restore] over the
    deleted bucket finds every file it looks up, so it does not throw,
    and what it unlinks are paths of files of the local snapshot under
    names the backup snapshot does not have. *)
Theorem restore_unlinks_local_only :
  forall type_error createTwoFilesPatch fuel cfg localData backupData d,
    getDiffData createTwoFilesPatch fuel cfg localData backupData = Some d ->
    exists paths,
      unlink_deleted type_error localData d = Ok paths /\
      forall p, In p paths ->
        exists name file,
          file_of (files localData) name = Some file /\ path file = p /\
          file_of (files backupData) name = None.
Proof.
  intros type_error patch fuel cfg L B d H.
  unfold unlink_deleted. rewrite (getDiffData_files _ _ _ _ _ _ H).
  destruct (diffFiles patch L B) as [fd|] eqn:D;
    [|exists []; split; [reflexivity | intros ? []]].
  destruct (files_deleted fd) as [deleted|] eqn:Del;
    [|exists []; split; [reflexivity | intros ? []]].
  apply (unlink_loop type_error L
           (fun name => file_of (files B) name = None) deleted []).
  intros name f I.
  assert (K : In name (map fst deleted))
    by (apply in_map_iff; now exists (name, f)).
  apply In_keys_assoc in K as (g & A).
  assert (E : file_entry Deleted (diffFiles patch L B) name = Some g).
  { rewrite D. unfold file_entry. cbn [bucket]. now rewrite Del. }
  rewrite file_entry_diffFiles in E. unfold filed in E.
  destruct (file_of (files B) name) as [bf|], (file_of (files L) name) as [lf|];
    try discriminate E.
  - destruct (negb (String.eqb (content lf) (content bf))); discriminate E.
  - now exists lf.
Qed.

Lemma restore_unlinks_local_only_witness :
  exists d paths,
    getDiffData Sample.keep_after 5 Disk.removing Disk.localData Disk.backupData
    = Some d /\
    unlink_deleted Sample.type_error Disk.localData d = Ok paths.
Proof.
  assert (E : exists d, getDiffData Sample.keep_after 5 Disk.removing
                          Disk.localData Disk.backupData = Some d)
    by (vm_compute; eexists; reflexivity).
  destruct E as [d H].
  destruct (restore_unlinks_local_only Sample.type_error Sample.keep_after 5
              Disk.removing Disk.localData Disk.backupData d H)
    as (paths & P & _).
  exists d, paths. split; [exact H | exact P].
Defined.

(** ** Checking a response *)

Lemma truthy_not_nullish v : truthy v = true -> is_nullish v = false.
Proof. destruct v; simpl; congruence. Qed.

Lemma walk_read type_error props : forall obj,
  truthy obj = true -> walk obj props = true ->
  exists v, read_path type_error obj props = Ok v /\ truthy v = true.
Proof.
  induction props as [|key props IH]; intros obj T W; simpl in *.
  - now exists obj.
  - rewrite (truthy_not_nullish obj T).
    destruct (truthy (member obj key)) eqn:M; [|discriminate W].
    now apply IH.
Qed.

(** X25: [invalidRes] notifies its one error exactly when it answers
    [true]; when it answers [false] every path it was given can be read
    off the response without a TypeError, and holds a truthy value. *)
Theorem invalidRes_guards_reads :
  forall type_error res paths invalid notified,
    invalidRes res paths = (invalid, notified) ->
    (invalid = true /\
     notified = [Error "Sync-Settings: Error retrieving your settings."]) \/
    (invalid = false /\ notified = [] /\
     forall props, In props paths ->
       exists v, read_path type_error res (as_path props) = Ok v /\
                 truthy v = true).
Proof.
  intros type_error res paths invalid notified. unfold invalidRes.
  destruct (truthy res) eqn:T; cbn [negb].
  - destruct (forallb _ paths) eqn:F; intros H;
      apply pair_equal_spec in H as [<- <-]; [right | left; now split].
    split; [reflexivity|]. split; [reflexivity|].
    intros props I. rewrite forallb_forall in F.
    exact (walk_read type_error _ res T (F props I)).
  - intros H. apply pair_equal_spec in H as [<- <-]. left. now split.
Qed.

Lemma invalidRes_guards_reads_witness :
  exists v,
    read_path Sample.type_error Wire.response
      [JStr "data"; JStr "history"; JNum 0; JStr "committed_at"] = Ok v /\
    truthy v = true.
Proof.
  destruct (invalidRes_guards_reads Sample.type_error Wire.response
              Wire.checked false [] eq_refl) as [[H _]|(_ & _ & H)];
    [discriminate H|].
  apply (H (JArr [JStr "data"; JStr "history"; JNum 0; JStr "committed_at"])).
  right. left. reflexivity.
Defined.

(** ** Checking for a newer backup *)

(** X26: while an extra file that lies in a folder is in the local
    snapshot, [checkForUpdate] announces a newer backup on every check,
    whatever the backup holds: the file never matches. *)
Theorem nested_extra_file_always_newer :
  forall JSON_parse syntax_error type_error minimatch isBundledPackage blobs
         backupData ns
         readFile access resolve basename glob configDirPath userKeymapPath
         userStyleSheetPath userInitScriptPath localeCompare
         installedPackages cfg localData createTwoFilesPatch fuel file
         autoCheck d,
    getBackupData JSON_parse syntax_error type_error resolve configDirPath
      userKeymapPath userStyleSheetPath minimatch isBundledPackage
      localeCompare cfg blobs = (Some backupData, ns) ->
    getLocalData readFile access resolve basename glob configDirPath
      userKeymapPath userStyleSheetPath userInitScriptPath localeCompare
      installedPackages cfg = Ok (Some localData) ->
    In file (string_items (Atom.get cfg "sync-settings.extraFiles")) ->
    slash_to_backslash file <> file ->
    flag cfg "sync-settings.removeUnfamiliarFiles" = false \/
    (exists c, readFile (resolve configDirPath file) = Some c /\
               trim c <> "") ->
    getDiffData createTwoFilesPatch fuel cfg localData backupData = Some d ->
    checkForUpdate_verdict autoCheck d = NewerBackup.
Proof.
  intros JSON_parse syntax_error type_error minimatch isBundledPackage blobs
    backupData ns readFile access resolve basename glob configDirPath
    userKeymapPath userStyleSheetPath userInitScriptPath localeCompare
    installedPackages cfg localData createTwoFilesPatch fuel file autoCheck d
    HB HL I Hs C HD.
  destruct (nested_extra_file_deleted JSON_parse syntax_error type_error
              minimatch isBundledPackage blobs backupData ns readFile access
              resolve basename glob configDirPath userKeymapPath
              userStyleSheetPath userInitScriptPath localeCompare
              installedPackages cfg localData createTwoFilesPatch file
              HB HL I Hs C) as (f & _ & E).
  unfold checkForUpdate_verdict. rewrite (getDiffData_files _ _ _ _ _ _ HD).
  destruct (diffFiles createTwoFilesPatch localData backupData);
    [|discriminate E].
  now rewrite !orb_true_r.
Qed.

Lemma nested_extra_file_always_newer_witness :
  exists d,
    getDiffData Sample.keep_after 5 Disk.removing Disk.localData Disk.backupData
    = Some d /\
    checkForUpdate_verdict true d = NewerBackup.
Proof.
  assert (E : exists d, getDiffData Sample.keep_after 5 Disk.removing
                          Disk.localData Disk.backupData = Some d)
    by (vm_compute; eexists; reflexivity).
  destruct E as [d H]. exists d. split; [exact H|].
  apply (nested_extra_file_always_newer Sample.parse_two
           Sample.syntax_error Sample.type_error Sample.no_glob
           Sample.not_bundled Disk.blobs Disk.backupData []
           Disk.read Disk.access Sample.resolve Disk.basename Disk.no_match
           "/atom" "/atom/keymap.cson" "/atom/styles.less" "/atom/init.coffee"
           code_unit_compare (Ok JNull) Disk.removing Disk.localData
           Sample.keep_after 5 "dir/sub.txt" true d).
  - reflexivity.
  - reflexivity.
  - left. reflexivity.
  - discriminate.
  - right. exists "t". split; [reflexivity | discriminate].
  - exact H.
Defined.


(** ** The config file among the extra files *)

Lemma slash_to_backslash_plain s t :
  slash_to_backslash s = t ->
  forallb (fun c => negb (Ascii.eqb c backslash)) (list_ascii_of_string t) = true ->
  s = t.
Proof.
  revert t. induction s as [|c s IH]; intros t E H; simpl in E; subst t;
    [reflexivity|].
  simpl in H. apply andb_true_iff in H as [Hc H]. f_equal.
  - destruct (Ascii.eqb c "/"%char); [discriminate Hc | reflexivity].
  - symmetry. rewrite <- (IH _ eq_refl H) at 1. reflexivity.
Qed.

Section ConfigGuard.

Variable readFile : string -> option string.
Variable resolve : string -> string -> string.
Variable configDirPath : string.
Variable cfg : Atom.config.

Hypothesis token :
  truthy (Atom.get cfg "sync-settings.personalAccessToken") = true.
Hypothesis warn :
  truthy (Atom.get cfg "sync-settings.hiddenSettings._warnBackupConfig") = true.

Lemma addExtraFiles_guard removing extra : forall files,
  In "config.cson" extra ->
  ~ In "config.cson" (map fst files) ->
  addExtraFiles readFile resolve configDirPath cfg files extra removing = None.
Proof.
  induction extra as [|x extra IH]; intros files I N; [destruct I|].
  cbn [addExtraFiles]. unfold addExtraFile.
  destruct (String.eqb_spec x "config.cson") as [->|Hx].
  - change (slash_to_backslash "config.cson") with "config.cson".
    apply assoc_None_notin in N. rewrite N, token, warn. reflexivity.
  - destruct I as [E|I]; [contradiction|].
    destruct (assoc (slash_to_backslash x) files); [now apply IH|].
    destruct (inherited (slash_to_backslash x)); [now apply IH|].
    cbn [andb]. apply IH; [exact I|].
    unfold keep_file.
    destruct (fileContent readFile _ _) as [c|]; [|exact N].
    destruct (negb (String.eqb c "")); [|exact N].
    rewrite In_assoc_set_keys. intros [E|K]; [|contradiction].
    apply Hx. symmetry in E.
    now apply (slash_to_backslash_plain x "config.cson").
Qed.

End ConfigGuard.

(** X27: while a token is set and the warning is on, listing
    [config.cson] among the extra files makes [getLocalData] return
    nothing, so nothing is backed up, unless one of the four files Atom
    knows the place of already goes by that name. *)
Theorem getLocalData_guards_config :
  forall readFile access resolve basename glob configDirPath userKeymapPath
         userStyleSheetPath userInitScriptPath localeCompare
         installedPackages cfg,
    truthy (Atom.get cfg "sync-settings.personalAccessToken") = true ->
    truthy (Atom.get cfg "sync-settings.hiddenSettings._warnBackupConfig")
    = true ->
    In "config.cson" (string_items (Atom.get cfg "sync-settings.extraFiles")) ->
    (forall p, In p [userKeymapPath; userStyleSheetPath; userInitScriptPath;
                     resolve configDirPath "snippets.cson"] ->
               basename p <> "config.cson") ->
    forall localData,
      getLocalData readFile access resolve basename glob configDirPath
        userKeymapPath userStyleSheetPath userInitScriptPath localeCompare
        installedPackages cfg <> Ok (Some localData).
Proof.
  intros readFile access resolve basename glob configDirPath userKeymapPath
    userStyleSheetPath userInitScriptPath localeCompare installedPackages cfg
    T W I B localData.
  unfold getLocalData.
  destruct (if flag cfg "sync-settings.syncPackages"
               || flag cfg "sync-settings.syncThemes"
            then installedPackages else Ok JNull) as [pk|e];
    [|discriminate]. cbn [bind].
  rewrite getSnippetsPath_fixed.
  assert (K : forall switch filePath placeholder removing files,
            basename filePath <> "config.cson" ->
            ~ In "config.cson" (map fst files) ->
            ~ In "config.cson"
                (map fst (own_file readFile basename cfg switch filePath
                            placeholder removing files))).
  { intros switch filePath placeholder removing files Hb N. unfold own_file.
    destruct (flag cfg switch); [|exact N]. unfold keep_file.
    destruct (fileContent readFile _ _) as [c|]; [|exact N].
    destruct (negb (String.eqb c "")); [|exact N].
    rewrite In_assoc_set_keys. intros [E|E]; [now apply Hb | contradiction]. }
  rewrite (addExtraFiles_guard readFile resolve configDirPath cfg T W);
    [discriminate | exact I |].
  apply K; [apply B; simpl; tauto|].
  apply K; [apply B; simpl; tauto|].
  apply K; [apply B; simpl; tauto|].
  apply K; [apply B; simpl; tauto|].
  intros [].
Qed.

Lemma getLocalData_guards_config_witness :
  Disk.getLocalData Guarded.cfg <> Ok (Some Disk.localData).
Proof.
  apply (getLocalData_guards_config Disk.read Disk.access Sample.resolve
           Disk.basename Disk.no_match "/atom" "/atom/keymap.cson"
           "/atom/styles.less" "/atom/init.coffee" code_unit_compare
           (Ok JNull) Guarded.cfg).
  - reflexivity.
  - reflexivity.
  - right. left. reflexivity.
  - intros p [<-|[<-|[<-|[<-|[]]]]]; discriminate.
Defined.


(** ** Names every object inherits *)

(** A backup that lists a package called [constructor]: the filter of
    [installMissingPackages] reads [availablePackages.constructor], which
    is there, and does not select it. *)
Example inherited_package_not_selected :
  map pkg_name
    (missingPackages (JObj [("linter", Sample.from_registry)])
       (JObj [("constructor", Sample.from_registry);
              ("minimap", Sample.from_registry)]))
  = ["minimap"].
Proof. reflexivity. Qed.

(** An installed package called [toString] is never selected for removal:
    [packages.toString] is there in every backup. *)
Example inherited_package_not_removed :
  map pkg_name
    (removePackages (JObj [("toString", Sample.from_registry);
                           ("emmet", Sample.from_registry)])
       (JObj [("linter", Sample.from_registry)]))
  = ["emmet"].
Proof. reflexivity. Qed.

(** An extra file called [constructor] is taken as saved already. *)
Example inherited_extra_file_not_filed :
  addExtraFile Disk.read Sample.resolve "/atom" Disk.removing []
    "constructor" false
  = (true, []).
Proof. reflexivity. Qed.
